(** * FREEDM DGI broker: dispatch solver, load balancer, plug-and-play
      adapter and clock synchronizer

    A shallow embedding of the four C++ translation units of the broker core
    and the properties of their specification.

    Conventions of the embedding.
    - A C++ [double] is an exact rational ([Q]): the specification states its
      formulas over the reals.  The inputs on which the dispatch code is
      evaluated below are dyadic rationals of small magnitude, on which
      binary64 arithmetic is exact too.  [Q] has no NaN and no infinity and
      does not round: the embedding covers the runs in which every double is
      finite, and the properties stated for all states are those that do not
      depend on the value of a double.
    - Conversion of a [double] to [int] truncates toward zero ([Qtrunc]);
      [Qtrunc] is total, where the conversion of C++ is defined only for
      values within the range of the integer type.
    - [boost::posix_time] instants and durations are counts of microseconds
      ([Z]); the wall clock is an explicit argument of every handler.
    - A handler that can leave by an exception, or run into undefined
      behaviour, returns an [outcome].
    - Trace, debug and info logging is not part of the state; warnings and
      notices that the specification talks about are recorded in a log. *)

From Stdlib Require Import ZArith QArith String Ascii List Lia.
From stdpp Require Import base option gmap strings list fin_maps.

Local Open Scope string_scope.

(** ** Shared numeric helpers *)

(** [x > y] and [x < y] on doubles, as booleans. *)
Definition Qgtb (x y : Q) : bool := negb (Qle_bool x y).
Definition Qltb (x y : Q) : bool := negb (Qle_bool y x).

(** Conversion of a double to an integer type: the fractional part is
    discarded (truncation toward zero). *)
Definition Qtrunc (x : Q) : Z := Z.quot (Qnum x) (Z.pos (Qden x)).

(** How a handler can end. *)
Inductive outcome (S : Type) : Type :=
| Done (s : S)                  (* normal return *)
| Raised (s : S) (what : string) (* left by a C++ exception; [s] is the state reached *)
| Undefined.                    (* undefined behaviour: null / end() dereference, front() of an empty container *)
Arguments Done {S} s.
Arguments Raised {S} s what.
Arguments Undefined {S}.

(** ** Dispatch solver (DispatchAlgo.cpp) *)
Module DDA.

Local Open Scope Q_scope.

Definition P_max_grid : Q := 20.
Definition P_min_grid : Q := 0.
Definition P_max_desd : Q := 5.
Definition P_min_desd : Q := -5.
Definition eta : Q := 0.5.
Definition rho : Q := 1.5.
Definition inner_iter : Z := 5.
Definition delta_time : Z := 15.

(** Index of a [double x[3]] array; the loops of the source run over
    [0, 1, 2] only. *)
Inductive idx : Type := I0 | I1 | I2.

Record arr3 : Type := Arr3 { a0 : Q; a1 : Q; a2 : Q }.

Definition get (a : arr3) (i : idx) : Q :=
  match i with I0 => a0 a | I1 => a1 a | I2 => a2 a end.

Definition set (a : arr3) (i : idx) (v : Q) : arr3 :=
  match i with
  | I0 => Arr3 v (a1 a) (a2 a)
  | I1 => Arr3 (a0 a) v (a2 a)
  | I2 => Arr3 (a0 a) (a1 a) v
  end.

Definition zero3 : arr3 := Arr3 0 0 0.

(** [for (int i = 0; i < 3; i++) body] *)
Definition for3 {S : Type} (body : idx -> S -> S) (s : S) : S :=
  fold_left (fun acc i => body i acc) [I0; I1; I2] s.

Definition E_init : arr3 := Arr3 1 1.5 0.5.
Definition E_full : arr3 := Arr3 5 10 5.
Definition price_profile : arr3 := Arr3 5.27 15.599 15.599.

Record DesdStateMessage : Type := {
  iteration : Z;
  symbol : string;
  deltapstep1 : Q; deltapstep2 : Q; deltapstep3 : Q;
  lambdastep1 : Q; lambdastep2 : Q; lambdastep3 : Q
}.

(** The members of [DDAAgent] that the handlers use, and [sent], the
    messages handed to [peer.Send] so far (newest last) with the uuid of
    the peer. *)
Record DDAAgent : Type := {
  m_iteration : Z;
  m_localsymbol : string;
  m_localadj : gset string;
  m_strans : gmap string string;
  m_adjnum : Z;
  m_localratio : Q;
  m_adjratio : Q;
  m_inideltaP : arr3; m_inilambda : arr3;
  m_nextdeltaP : arr3; m_nextlambda : arr3;
  m_adjdeltaP : arr3; m_adjlambda : arr3;
  m_deltaP1 : arr3; m_deltaP2 : arr3;
  m_inimu : arr3; m_inixi : arr3;
  m_nextmu : arr3; m_nextxi : arr3;
  m_inipower : arr3; m_nextpower : arr3;
  sent : list (string * DesdStateMessage)
}.

Definition with_iteration (v : Z) (s : DDAAgent) : DDAAgent :=
  {| m_iteration := v; m_localsymbol := m_localsymbol s; m_localadj := m_localadj s;
     m_strans := m_strans s; m_adjnum := m_adjnum s; m_localratio := m_localratio s;
     m_adjratio := m_adjratio s; m_inideltaP := m_inideltaP s; m_inilambda := m_inilambda s;
     m_nextdeltaP := m_nextdeltaP s; m_nextlambda := m_nextlambda s;
     m_adjdeltaP := m_adjdeltaP s; m_adjlambda := m_adjlambda s;
     m_deltaP1 := m_deltaP1 s; m_deltaP2 := m_deltaP2 s; m_inimu := m_inimu s;
     m_inixi := m_inixi s; m_nextmu := m_nextmu s; m_nextxi := m_nextxi s;
     m_inipower := m_inipower s; m_nextpower := m_nextpower s; sent := sent s |}.

Definition with_adjnum (v : Z) (s : DDAAgent) : DDAAgent :=
  {| m_iteration := m_iteration s; m_localsymbol := m_localsymbol s; m_localadj := m_localadj s;
     m_strans := m_strans s; m_adjnum := v; m_localratio := m_localratio s;
     m_adjratio := m_adjratio s; m_inideltaP := m_inideltaP s; m_inilambda := m_inilambda s;
     m_nextdeltaP := m_nextdeltaP s; m_nextlambda := m_nextlambda s;
     m_adjdeltaP := m_adjdeltaP s; m_adjlambda := m_adjlambda s;
     m_deltaP1 := m_deltaP1 s; m_deltaP2 := m_deltaP2 s; m_inimu := m_inimu s;
     m_inixi := m_inixi s; m_nextmu := m_nextmu s; m_nextxi := m_nextxi s;
     m_inipower := m_inipower s; m_nextpower := m_nextpower s; sent := sent s |}.

Definition with_inideltaP (v : arr3) (s : DDAAgent) : DDAAgent :=
  {| m_iteration := m_iteration s; m_localsymbol := m_localsymbol s; m_localadj := m_localadj s;
     m_strans := m_strans s; m_adjnum := m_adjnum s; m_localratio := m_localratio s;
     m_adjratio := m_adjratio s; m_inideltaP := v; m_inilambda := m_inilambda s;
     m_nextdeltaP := m_nextdeltaP s; m_nextlambda := m_nextlambda s;
     m_adjdeltaP := m_adjdeltaP s; m_adjlambda := m_adjlambda s;
     m_deltaP1 := m_deltaP1 s; m_deltaP2 := m_deltaP2 s; m_inimu := m_inimu s;
     m_inixi := m_inixi s; m_nextmu := m_nextmu s; m_nextxi := m_nextxi s;
     m_inipower := m_inipower s; m_nextpower := m_nextpower s; sent := sent s |}.

Definition with_inilambda (v : arr3) (s : DDAAgent) : DDAAgent :=
  {| m_iteration := m_iteration s; m_localsymbol := m_localsymbol s; m_localadj := m_localadj s;
     m_strans := m_strans s; m_adjnum := m_adjnum s; m_localratio := m_localratio s;
     m_adjratio := m_adjratio s; m_inideltaP := m_inideltaP s; m_inilambda := v;
     m_nextdeltaP := m_nextdeltaP s; m_nextlambda := m_nextlambda s;
     m_adjdeltaP := m_adjdeltaP s; m_adjlambda := m_adjlambda s;
     m_deltaP1 := m_deltaP1 s; m_deltaP2 := m_deltaP2 s; m_inimu := m_inimu s;
     m_inixi := m_inixi s; m_nextmu := m_nextmu s; m_nextxi := m_nextxi s;
     m_inipower := m_inipower s; m_nextpower := m_nextpower s; sent := sent s |}.

Definition with_nextdeltaP (v : arr3) (s : DDAAgent) : DDAAgent :=
  {| m_iteration := m_iteration s; m_localsymbol := m_localsymbol s; m_localadj := m_localadj s;
     m_strans := m_strans s; m_adjnum := m_adjnum s; m_localratio := m_localratio s;
     m_adjratio := m_adjratio s; m_inideltaP := m_inideltaP s; m_inilambda := m_inilambda s;
     m_nextdeltaP := v; m_nextlambda := m_nextlambda s;
     m_adjdeltaP := m_adjdeltaP s; m_adjlambda := m_adjlambda s;
     m_deltaP1 := m_deltaP1 s; m_deltaP2 := m_deltaP2 s; m_inimu := m_inimu s;
     m_inixi := m_inixi s; m_nextmu := m_nextmu s; m_nextxi := m_nextxi s;
     m_inipower := m_inipower s; m_nextpower := m_nextpower s; sent := sent s |}.

Definition with_nextlambda (v : arr3) (s : DDAAgent) : DDAAgent :=
  {| m_iteration := m_iteration s; m_localsymbol := m_localsymbol s; m_localadj := m_localadj s;
     m_strans := m_strans s; m_adjnum := m_adjnum s; m_localratio := m_localratio s;
     m_adjratio := m_adjratio s; m_inideltaP := m_inideltaP s; m_inilambda := m_inilambda s;
     m_nextdeltaP := m_nextdeltaP s; m_nextlambda := v;
     m_adjdeltaP := m_adjdeltaP s; m_adjlambda := m_adjlambda s;
     m_deltaP1 := m_deltaP1 s; m_deltaP2 := m_deltaP2 s; m_inimu := m_inimu s;
     m_inixi := m_inixi s; m_nextmu := m_nextmu s; m_nextxi := m_nextxi s;
     m_inipower := m_inipower s; m_nextpower := m_nextpower s; sent := sent s |}.

Definition with_adjdeltaP (v : arr3) (s : DDAAgent) : DDAAgent :=
  {| m_iteration := m_iteration s; m_localsymbol := m_localsymbol s; m_localadj := m_localadj s;
     m_strans := m_strans s; m_adjnum := m_adjnum s; m_localratio := m_localratio s;
     m_adjratio := m_adjratio s; m_inideltaP := m_inideltaP s; m_inilambda := m_inilambda s;
     m_nextdeltaP := m_nextdeltaP s; m_nextlambda := m_nextlambda s;
     m_adjdeltaP := v; m_adjlambda := m_adjlambda s;
     m_deltaP1 := m_deltaP1 s; m_deltaP2 := m_deltaP2 s; m_inimu := m_inimu s;
     m_inixi := m_inixi s; m_nextmu := m_nextmu s; m_nextxi := m_nextxi s;
     m_inipower := m_inipower s; m_nextpower := m_nextpower s; sent := sent s |}.

Definition with_adjlambda (v : arr3) (s : DDAAgent) : DDAAgent :=
  {| m_iteration := m_iteration s; m_localsymbol := m_localsymbol s; m_localadj := m_localadj s;
     m_strans := m_strans s; m_adjnum := m_adjnum s; m_localratio := m_localratio s;
     m_adjratio := m_adjratio s; m_inideltaP := m_inideltaP s; m_inilambda := m_inilambda s;
     m_nextdeltaP := m_nextdeltaP s; m_nextlambda := m_nextlambda s;
     m_adjdeltaP := m_adjdeltaP s; m_adjlambda := v;
     m_deltaP1 := m_deltaP1 s; m_deltaP2 := m_deltaP2 s; m_inimu := m_inimu s;
     m_inixi := m_inixi s; m_nextmu := m_nextmu s; m_nextxi := m_nextxi s;
     m_inipower := m_inipower s; m_nextpower := m_nextpower s; sent := sent s |}.

Definition with_deltaP1 (v : arr3) (s : DDAAgent) : DDAAgent :=
  {| m_iteration := m_iteration s; m_localsymbol := m_localsymbol s; m_localadj := m_localadj s;
     m_strans := m_strans s; m_adjnum := m_adjnum s; m_localratio := m_localratio s;
     m_adjratio := m_adjratio s; m_inideltaP := m_inideltaP s; m_inilambda := m_inilambda s;
     m_nextdeltaP := m_nextdeltaP s; m_nextlambda := m_nextlambda s;
     m_adjdeltaP := m_adjdeltaP s; m_adjlambda := m_adjlambda s;
     m_deltaP1 := v; m_deltaP2 := m_deltaP2 s; m_inimu := m_inimu s;
     m_inixi := m_inixi s; m_nextmu := m_nextmu s; m_nextxi := m_nextxi s;
     m_inipower := m_inipower s; m_nextpower := m_nextpower s; sent := sent s |}.

Definition with_deltaP2 (v : arr3) (s : DDAAgent) : DDAAgent :=
  {| m_iteration := m_iteration s; m_localsymbol := m_localsymbol s; m_localadj := m_localadj s;
     m_strans := m_strans s; m_adjnum := m_adjnum s; m_localratio := m_localratio s;
     m_adjratio := m_adjratio s; m_inideltaP := m_inideltaP s; m_inilambda := m_inilambda s;
     m_nextdeltaP := m_nextdeltaP s; m_nextlambda := m_nextlambda s;
     m_adjdeltaP := m_adjdeltaP s; m_adjlambda := m_adjlambda s;
     m_deltaP1 := m_deltaP1 s; m_deltaP2 := v; m_inimu := m_inimu s;
     m_inixi := m_inixi s; m_nextmu := m_nextmu s; m_nextxi := m_nextxi s;
     m_inipower := m_inipower s; m_nextpower := m_nextpower s; sent := sent s |}.

Definition with_inimu (v : arr3) (s : DDAAgent) : DDAAgent :=
  {| m_iteration := m_iteration s; m_localsymbol := m_localsymbol s; m_localadj := m_localadj s;
     m_strans := m_strans s; m_adjnum := m_adjnum s; m_localratio := m_localratio s;
     m_adjratio := m_adjratio s; m_inideltaP := m_inideltaP s; m_inilambda := m_inilambda s;
     m_nextdeltaP := m_nextdeltaP s; m_nextlambda := m_nextlambda s;
     m_adjdeltaP := m_adjdeltaP s; m_adjlambda := m_adjlambda s;
     m_deltaP1 := m_deltaP1 s; m_deltaP2 := m_deltaP2 s; m_inimu := v;
     m_inixi := m_inixi s; m_nextmu := m_nextmu s; m_nextxi := m_nextxi s;
     m_inipower := m_inipower s; m_nextpower := m_nextpower s; sent := sent s |}.

Definition with_inixi (v : arr3) (s : DDAAgent) : DDAAgent :=
  {| m_iteration := m_iteration s; m_localsymbol := m_localsymbol s; m_localadj := m_localadj s;
     m_strans := m_strans s; m_adjnum := m_adjnum s; m_localratio := m_localratio s;
     m_adjratio := m_adjratio s; m_inideltaP := m_inideltaP s; m_inilambda := m_inilambda s;
     m_nextdeltaP := m_nextdeltaP s; m_nextlambda := m_nextlambda s;
     m_adjdeltaP := m_adjdeltaP s; m_adjlambda := m_adjlambda s;
     m_deltaP1 := m_deltaP1 s; m_deltaP2 := m_deltaP2 s; m_inimu := m_inimu s;
     m_inixi := v; m_nextmu := m_nextmu s; m_nextxi := m_nextxi s;
     m_inipower := m_inipower s; m_nextpower := m_nextpower s; sent := sent s |}.

Definition with_nextmu (v : arr3) (s : DDAAgent) : DDAAgent :=
  {| m_iteration := m_iteration s; m_localsymbol := m_localsymbol s; m_localadj := m_localadj s;
     m_strans := m_strans s; m_adjnum := m_adjnum s; m_localratio := m_localratio s;
     m_adjratio := m_adjratio s; m_inideltaP := m_inideltaP s; m_inilambda := m_inilambda s;
     m_nextdeltaP := m_nextdeltaP s; m_nextlambda := m_nextlambda s;
     m_adjdeltaP := m_adjdeltaP s; m_adjlambda := m_adjlambda s;
     m_deltaP1 := m_deltaP1 s; m_deltaP2 := m_deltaP2 s; m_inimu := m_inimu s;
     m_inixi := m_inixi s; m_nextmu := v; m_nextxi := m_nextxi s;
     m_inipower := m_inipower s; m_nextpower := m_nextpower s; sent := sent s |}.

Definition with_nextxi (v : arr3) (s : DDAAgent) : DDAAgent :=
  {| m_iteration := m_iteration s; m_localsymbol := m_localsymbol s; m_localadj := m_localadj s;
     m_strans := m_strans s; m_adjnum := m_adjnum s; m_localratio := m_localratio s;
     m_adjratio := m_adjratio s; m_inideltaP := m_inideltaP s; m_inilambda := m_inilambda s;
     m_nextdeltaP := m_nextdeltaP s; m_nextlambda := m_nextlambda s;
     m_adjdeltaP := m_adjdeltaP s; m_adjlambda := m_adjlambda s;
     m_deltaP1 := m_deltaP1 s; m_deltaP2 := m_deltaP2 s; m_inimu := m_inimu s;
     m_inixi := m_inixi s; m_nextmu := m_nextmu s; m_nextxi := v;
     m_inipower := m_inipower s; m_nextpower := m_nextpower s; sent := sent s |}.

Definition with_inipower (v : arr3) (s : DDAAgent) : DDAAgent :=
  {| m_iteration := m_iteration s; m_localsymbol := m_localsymbol s; m_localadj := m_localadj s;
     m_strans := m_strans s; m_adjnum := m_adjnum s; m_localratio := m_localratio s;
     m_adjratio := m_adjratio s; m_inideltaP := m_inideltaP s; m_inilambda := m_inilambda s;
     m_nextdeltaP := m_nextdeltaP s; m_nextlambda := m_nextlambda s;
     m_adjdeltaP := m_adjdeltaP s; m_adjlambda := m_adjlambda s;
     m_deltaP1 := m_deltaP1 s; m_deltaP2 := m_deltaP2 s; m_inimu := m_inimu s;
     m_inixi := m_inixi s; m_nextmu := m_nextmu s; m_nextxi := m_nextxi s;
     m_inipower := v; m_nextpower := m_nextpower s; sent := sent s |}.

Definition with_nextpower (v : arr3) (s : DDAAgent) : DDAAgent :=
  {| m_iteration := m_iteration s; m_localsymbol := m_localsymbol s; m_localadj := m_localadj s;
     m_strans := m_strans s; m_adjnum := m_adjnum s; m_localratio := m_localratio s;
     m_adjratio := m_adjratio s; m_inideltaP := m_inideltaP s; m_inilambda := m_inilambda s;
     m_nextdeltaP := m_nextdeltaP s; m_nextlambda := m_nextlambda s;
     m_adjdeltaP := m_adjdeltaP s; m_adjlambda := m_adjlambda s;
     m_deltaP1 := m_deltaP1 s; m_deltaP2 := m_deltaP2 s; m_inimu := m_inimu s;
     m_inixi := m_inixi s; m_nextmu := m_nextmu s; m_nextxi := m_nextxi s;
     m_inipower := m_inipower s; m_nextpower := v; sent := sent s |}.

Definition with_sent (v : list (string * DesdStateMessage)) (s : DDAAgent) : DDAAgent :=
  {| m_iteration := m_iteration s; m_localsymbol := m_localsymbol s; m_localadj := m_localadj s;
     m_strans := m_strans s; m_adjnum := m_adjnum s; m_localratio := m_localratio s;
     m_adjratio := m_adjratio s; m_inideltaP := m_inideltaP s; m_inilambda := m_inilambda s;
     m_nextdeltaP := m_nextdeltaP s; m_nextlambda := m_nextlambda s;
     m_adjdeltaP := m_adjdeltaP s; m_adjlambda := m_adjlambda s;
     m_deltaP1 := m_deltaP1 s; m_deltaP2 := m_deltaP2 s; m_inimu := m_inimu s;
     m_inixi := m_inixi s; m_nextmu := m_nextmu s; m_nextxi := m_nextxi s;
     m_inipower := m_inipower s; m_nextpower := m_nextpower s; sent := v |}.

(** [DDAAgent::sendtoAdjList]: one message, sent to every adjacent symbol
    that has an entry in [m_strans].  The sends come in the order of
    [elements], which need not be the order of the [std::set]; nothing
    below depends on it. *)
Definition pack (s : DDAAgent) : DesdStateMessage :=
  {| iteration := m_iteration s; symbol := m_localsymbol s;
     deltapstep1 := a0 (m_inideltaP s); deltapstep2 := a1 (m_inideltaP s);
     deltapstep3 := a2 (m_inideltaP s);
     lambdastep1 := a0 (m_inilambda s); lambdastep2 := a1 (m_inilambda s);
     lambdastep3 := a2 (m_inilambda s) |}.

Definition sendtoAdjList (s : DDAAgent) : DDAAgent :=
  let msg := pack s in
  fold_left
    (fun acc symbolid =>
       match m_strans acc !! symbolid with
       | Some id => with_sent (sent acc ++ [(id, msg)]) acc
       | None => acc
       end)
    (elements (m_localadj s)) s.

(** [DDAAgent::deltaPLambdaUpdate] *)
Definition deltaPLambdaUpdate (s : DDAAgent) : DDAAgent :=
  let s :=
    if (Z.rem (m_iteration s) inner_iter =? 0)%Z then
      for3 (fun i s =>
        let s := with_nextdeltaP
          (set (m_nextdeltaP s) i
             (m_localratio s * get (m_inideltaP s) i + m_adjratio s * get (m_adjdeltaP s) i
              + get (m_inideltaP s) i - get (m_nextdeltaP s) i)) s in
        with_nextlambda
          (set (m_nextlambda s) i
             (m_localratio s * get (m_inilambda s) i + m_adjratio s * get (m_adjdeltaP s) i
              + eta * get (m_inideltaP s) i)) s) s
    else
      for3 (fun i s =>
        let s := with_nextdeltaP
          (set (m_nextdeltaP s) i
             (get (m_inideltaP s) i + get (m_inideltaP s) i - get (m_nextdeltaP s) i)) s in
        with_nextlambda
          (set (m_nextlambda s) i
             (get (m_inilambda s) i + eta * get (m_inideltaP s) i)) s) s in
  for3 (fun i s =>
    let s := with_inideltaP (set (m_inideltaP s) i (get (m_nextdeltaP s) i)) s in
    with_inilambda (set (m_inilambda s) i (get (m_nextlambda s) i)) s) s.

(** [x > 0 ? x : 0] *)
Definition pos_part (x : Q) : Q := if Qgtb x 0 then x else 0.

Definition is_desd_symbol (sym : string) : bool :=
  String.eqb sym "4" || String.eqb sym "7" || String.eqb sym "10".

(** The tail shared by the three role branches of [HandleUpdate]:
    consensus update, counter reload, next iteration, broadcast below the
    iteration limit. *)
Definition finish_round (s : DDAAgent) : DDAAgent :=
  let s := deltaPLambdaUpdate s in
  let s := with_adjnum (Z.of_nat (size (m_localadj s))) s in
  let s := with_iteration (m_iteration s + 1)%Z s in
  if (m_iteration s <? 5000)%Z then sendtoAdjList s else s.

(** The DESD branch of [HandleUpdate] up to (not including) the call of
    [deltaPLambdaUpdate], in the three stages of the source.  First the
    power of every slot is recomputed, clamped and committed.  The clamp
    is two comparisons: on finite values it bounds the power; a NaN, which
    [Q] does not have, would pass both. *)
Definition desd_power (s : DDAAgent) : DDAAgent :=
  let d1 := m_deltaP1 s in
  let d2 := m_deltaP2 s in
  let aug1 := Arr3 (pos_part (a0 d1) + pos_part (a1 d1) + pos_part (a2 d1))
                   (pos_part (a1 d1) + pos_part (a2 d1))
                   (pos_part (a2 d1)) in
  let aug2 := Arr3 (pos_part (a0 d2) + pos_part (a1 d2) + pos_part (a2 d2))
                   (pos_part (a1 d2) + pos_part (a2 d2))
                   (pos_part (a2 d2)) in
  let summu := a0 (m_inimu s) + a1 (m_inimu s) + a2 (m_inimu s) in
  let sumxi := a0 (m_inixi s) + a1 (m_inixi s) + a2 (m_inixi s) in
  let '(s, _, _) :=
    for3 (fun i '(s, summu, sumxi) =>
      let p := get (m_inipower s) i - eta * (- get (m_inilambda s) i - summu * inject_Z delta_time)
               + sumxi * inject_Z delta_time - rho * get (m_inideltaP s) i
               - rho * get aug1 i + rho * get aug2 i in
      let summu := summu - get (m_inimu s) i in
      let sumxi := sumxi - get (m_inixi s) i in
      let p := if Qgtb p P_max_desd then P_max_desd
               else if Qltb p P_min_desd then P_min_desd else p in
      (with_nextpower (set (m_nextpower s) i p) s, summu, sumxi))
      (s, summu, sumxi) in
  for3 (fun i s => with_inipower (set (m_inipower s) i (get (m_nextpower s) i)) s) s.

(** Then the two residuals are recomputed from the running sum of the
    committed power. *)
Definition desd_residuals (s : DDAAgent) : DDAAgent :=
  let '(s, _) :=
    for3 (fun i '(s, sumpower) =>
      let sumpower := sumpower + get (m_nextpower s) i in
      let s := with_deltaP1
        (set (m_deltaP1 s) i (get E_init i - get E_full i - sumpower * inject_Z delta_time)) s in
      let s := with_deltaP2
        (set (m_deltaP2 s) i (sumpower * inject_Z delta_time - get E_init i)) s in
      (s, sumpower))
      (s, 0) in
  s.

(** Last the dual variables are projected, through [int temp], and
    committed.  [Qtrunc] stands for the conversion to [int], exact for
    finite values within the range of [int]. *)
Definition desd_duals (s : DDAAgent) : DDAAgent :=
  let s :=
    for3 (fun i s =>
      let temp := Qtrunc (get (m_inimu s) i + eta * get (m_deltaP1 s) i) in
      let s := with_nextmu
        (set (m_nextmu s) i (if (temp >? 0)%Z then inject_Z temp else 0)) s in
      let temp := Qtrunc (get (m_inixi s) i + eta * get (m_deltaP2 s) i) in
      with_nextxi
        (set (m_nextxi s) i (if (temp >? 0)%Z then inject_Z temp else 0)) s) s in
  for3 (fun i s =>
    let s := with_inimu (set (m_inimu s) i (get (m_nextmu s) i)) s in
    with_inixi (set (m_inixi s) i (get (m_nextxi s) i)) s) s.

Definition desd_update (s : DDAAgent) : DDAAgent :=
  desd_duals (desd_residuals (desd_power s)).

(** The grid branch of [HandleUpdate] up to the call of
    [deltaPLambdaUpdate]; the cost is only logged.  The clamp is as in
    [desd_power]: it bounds finite values. *)
Definition grid_update (s : DDAAgent) : DDAAgent :=
  let s :=
    for3 (fun i s =>
      let p := get (m_inipower s) i
               - eta * (get price_profile i - get (m_inilambda s) i - rho * get (m_inideltaP s) i) in
      let p := if Qgtb p P_max_grid then P_max_grid
               else if Qltb p P_min_grid then P_min_grid else p in
      with_nextpower (set (m_nextpower s) i p) s) s in
  for3 (fun i s => with_inipower (set (m_inipower s) i (get (m_nextpower s) i)) s) s.

(** [DDAAgent::HandleUpdate] *)
Definition HandleUpdate (s : DDAAgent) (msg : DesdStateMessage) : DDAAgent :=
  if (iteration msg =? m_iteration s)%Z then
    if bool_decide (symbol msg ∈ m_localadj s) then
      let s := with_adjnum (m_adjnum s - 1)%Z s in
      if negb (m_adjnum s =? 0)%Z then
        let s := with_adjdeltaP
          (Arr3 (a0 (m_adjdeltaP s) + deltapstep1 msg)
                (a1 (m_adjdeltaP s) + deltapstep2 msg)
                (a2 (m_adjdeltaP s) + deltapstep3 msg)) s in
        with_adjlambda
          (Arr3 (a0 (m_adjlambda s) + lambdastep1 msg)
                (a1 (m_adjlambda s) + lambdastep2 msg)
                (a2 (m_adjlambda s) + lambdastep3 msg)) s
      else
        let s :=
          if is_desd_symbol (m_localsymbol s) then finish_round (desd_update s)
          else if String.eqb (m_localsymbol s) "1" then finish_round (grid_update s)
          else finish_round s in
        for3 (fun i s =>
          let s := with_adjdeltaP (set (m_adjdeltaP s) i 0) s in
          with_adjlambda (set (m_adjlambda s) i 0) s) s
    else s
  else s.

(** What the specification words prescribe for the same message (sections
    4.5, steps 1 to 3): the contribution is accumulated first, then the
    counter is tested.  Used only to compare with [HandleUpdate]. *)
Definition spec_HandleUpdate (s : DDAAgent) (msg : DesdStateMessage) : DDAAgent :=
  if (iteration msg =? m_iteration s)%Z then
    if bool_decide (symbol msg ∈ m_localadj s) then
      let s := with_adjnum (m_adjnum s - 1)%Z s in
      let s := with_adjdeltaP
        (Arr3 (a0 (m_adjdeltaP s) + deltapstep1 msg)
              (a1 (m_adjdeltaP s) + deltapstep2 msg)
              (a2 (m_adjdeltaP s) + deltapstep3 msg)) s in
      let s := with_adjlambda
        (Arr3 (a0 (m_adjlambda s) + lambdastep1 msg)
              (a1 (m_adjlambda s) + lambdastep2 msg)
              (a2 (m_adjlambda s) + lambdastep3 msg)) s in
      if negb (m_adjnum s =? 0)%Z then s
      else
        let s :=
          if is_desd_symbol (m_localsymbol s) then finish_round (desd_update s)
          else if String.eqb (m_localsymbol s) "1" then finish_round (grid_update s)
          else finish_round s in
        for3 (fun i s =>
          let s := with_adjdeltaP (set (m_adjdeltaP s) i 0) s in
          with_adjlambda (set (m_adjlambda s) i 0) s) s
    else s
  else s.

(** The consensus formulas as the specification words them: off the
    coupled iterations only the [adjratio * adjdeltaP] term is left out. *)
Definition spec_deltaP_next (s : DDAAgent) (i : idx) : Q :=
  if (Z.rem (m_iteration s) inner_iter =? 0)%Z then
    m_localratio s * get (m_inideltaP s) i + m_adjratio s * get (m_adjdeltaP s) i
    + get (m_inideltaP s) i - get (m_nextdeltaP s) i
  else
    m_localratio s * get (m_inideltaP s) i + get (m_inideltaP s) i - get (m_nextdeltaP s) i.

Definition spec_lambda_next (s : DDAAgent) (i : idx) : Q :=
  if (Z.rem (m_iteration s) inner_iter =? 0)%Z then
    m_localratio s * get (m_inilambda s) i + m_adjratio s * get (m_adjdeltaP s) i
    + eta * get (m_inideltaP s) i
  else
    m_localratio s * get (m_inilambda s) i + eta * get (m_inideltaP s) i.

(** The projection of the dual variables as the specification words it,
    over the reals. *)
Definition spec_project (prev residual : Q) : Q :=
  let x := prev + eta * residual in
  if Qgtb x 0 then x else 0.

(** *** Fixtures *)

(** Componentwise equality of two arrays, up to the value of the
    fractions. *)
Definition arr3_eq (a b : arr3) : Prop :=
  a0 a == a0 b /\ a1 a == a1 b /\ a2 a == a2 b.

(** A passive node "2" between "1" and "3" in a topology of maximal degree
    three: epsil is 1/4, so the local ratio is 1/2. *)
Definition node2 : DDAAgent :=
  {| m_iteration := 0; m_localsymbol := "2"; m_localadj := {["1"; "3"]};
     m_strans := {["1" := "uuid-1"; "3" := "uuid-3"]};
     m_adjnum := 2; m_localratio := 0.5; m_adjratio := 0.25;
     m_inideltaP := zero3; m_inilambda := zero3;
     m_nextdeltaP := zero3; m_nextlambda := zero3;
     m_adjdeltaP := zero3; m_adjlambda := zero3;
     m_deltaP1 := zero3; m_deltaP2 := zero3;
     m_inimu := zero3; m_inixi := zero3; m_nextmu := zero3; m_nextxi := zero3;
     m_inipower := zero3; m_nextpower := zero3; sent := [] |}.

(** The state message of a neighbour whose three residuals are [dp] and
    whose three prices are [la]. *)
Definition state_of (sym : string) (k : Z) (dp la : Q) : DesdStateMessage :=
  {| iteration := k; symbol := sym;
     deltapstep1 := dp; deltapstep2 := dp; deltapstep3 := dp;
     lambdastep1 := la; lambdastep2 := la; lambdastep3 := la |}.

(** A storage node "4" with one neighbour, discharged at the lower power
    limit in all three slots. *)
Definition desd4 : DDAAgent :=
  {| m_iteration := 0; m_localsymbol := "4"; m_localadj := {["3"]};
     m_strans := {["3" := "uuid-3"]};
     m_adjnum := 1; m_localratio := 0.5; m_adjratio := 0.5;
     m_inideltaP := zero3; m_inilambda := zero3;
     m_nextdeltaP := zero3; m_nextlambda := zero3;
     m_adjdeltaP := zero3; m_adjlambda := zero3;
     m_deltaP1 := zero3; m_deltaP2 := zero3;
     m_inimu := zero3; m_inixi := zero3; m_nextmu := zero3; m_nextxi := zero3;
     m_inipower := Arr3 (-5) (-5) (-5); m_nextpower := zero3; sent := [] |}.

(** Node "2" in an uncoupled iteration, with residual 1 in every slot. *)
Definition node2_inner : DDAAgent :=
  with_inilambda (Arr3 1 1 1) (with_inideltaP (Arr3 1 1 1) (with_iteration 1 node2)).

(** The prefix sums of the committed power, times the slot length. *)
Definition cumulative_energy (p : arr3) (i : idx) : Q :=
  match i with
  | I0 => (0 + a0 p) * inject_Z delta_time
  | I1 => (0 + a0 p + a1 p) * inject_Z delta_time
  | I2 => (0 + a0 p + a1 p + a2 p) * inject_Z delta_time
  end.

End DDA.

(** ** Load balancer, accommodating variant (LoadBalanceAccommodatingPMCU.cpp) *)
Module LB.

Local Open Scope Q_scope.

(** [#define P_Migrate 1] *)
Definition P_Migrate : Q := 1.

(** [LPeerNode::SUPPLY], [NORM], [DEMAND] *)
Inductive EStatus : Type := SUPPLY | NORM | DEMAND.

Definition status_eqb (a b : EStatus) : bool :=
  match a, b with
  | SUPPLY, SUPPLY | NORM, NORM | DEMAND, DEMAND => true
  | _, _ => false
  end.

(** The device classes the file names. *)
Inductive DeviceType : Type := DRER | DESD | LOAD | GRID | SST | DG.

Definition type_eqb (a b : DeviceType) : bool :=
  match a, b with
  | DRER, DRER | DESD, DESD | LOAD, LOAD | GRID, GRID | SST, SST | DG, DG => true
  | _, _ => false
  end.

(** A registered device: its class, its name, and the commands staged on
    it by [Set] (signal name to value). *)
Record Device : Type := {
  dev_type : DeviceType;
  dev_id : string;
  dev_commands : gmap string Q
}.

(** The physical device manager, in registration order. *)
Definition CPhysicalDeviceManager : Type := list Device.

(** [GetDevicesOfType<T>()] *)
Definition GetDevicesOfType (T : DeviceType) (m : CPhysicalDeviceManager) : list Device :=
  List.filter (fun d => type_eqb (dev_type d) T) m.

(** [device->Set(signal, value)] *)
Definition Set_ (d : Device) (signal : string) (value : Q) : Device :=
  {| dev_type := dev_type d; dev_id := dev_id d;
     dev_commands := <[signal := value]> (dev_commands d) |}.

(** [GetDevicesOfType<T>().front()->Set(signal, value)]: the container holds
    pointers into the manager, so the command lands on the manager's
    device.  [front()] of an empty container has no defined result:
    [None]. *)
Fixpoint front_Set (T : DeviceType) (signal : string) (value : Q)
    (m : CPhysicalDeviceManager) : option CPhysicalDeviceManager :=
  match m with
  | [] => None
  | d :: rest =>
      if type_eqb (dev_type d) T then Some (Set_ d signal value :: rest)
      else match front_Set T signal value rest with
           | Some rest' => Some (d :: rest')
           | None => None
           end
  end.

(** An incoming [CMessage]: the source uuid and the entries of the
    property tree that [HandleRead] looks at.  [None] is an absent path.
    A gateway entry is the result of [lexical_cast<double>] on its text
    ([None] where the cast throws). *)
Record CMessage : Type := {
  src : string;
  any : option string;
  any_peers : option (list string);
  lb : option string;
  lb_source : option string;
  lb_value : option string;
  cs_gateway : option (list (option Q));
  cs_intransit : option (list string)
}.

(** A message handed to [Send]: an lb message of some kind, with the value
    that [ss_ << m_DemandVal] renders when there is one, or the state
    collection request. *)
Inductive Outgoing : Type :=
| OutLb (kind : string) (value : option Q)
| OutScRequest.

Inductive Level : Type := Notice | Warn | Status.

(** The members of [lbAgent] the handlers use; peers are identified with
    their uuids; [outbox] and [log] grow at the end. *)
Record lbAgent : Type := {
  uuid : string;
  m_Leader : string;
  m_Status : EStatus;
  m_PStar : Q;
  m_DemandVal : Q;
  m_AllPeers : gset string;
  m_HiNodes : gset string;
  m_LoNodes : gset string;
  m_NoNodes : gset string;
  m_phyDevManager : CPhysicalDeviceManager;
  outbox : list (string * Outgoing);
  log : list (Level * string)
}.

Definition with_Leader (v : string) (s : lbAgent) : lbAgent :=
  {| uuid := uuid s; m_Leader := v; m_Status := m_Status s; m_PStar := m_PStar s;
     m_DemandVal := m_DemandVal s; m_AllPeers := m_AllPeers s; m_HiNodes := m_HiNodes s;
     m_LoNodes := m_LoNodes s; m_NoNodes := m_NoNodes s;
     m_phyDevManager := m_phyDevManager s; outbox := outbox s; log := log s |}.

Definition with_PStar (v : Q) (s : lbAgent) : lbAgent :=
  {| uuid := uuid s; m_Leader := m_Leader s; m_Status := m_Status s; m_PStar := v;
     m_DemandVal := m_DemandVal s; m_AllPeers := m_AllPeers s; m_HiNodes := m_HiNodes s;
     m_LoNodes := m_LoNodes s; m_NoNodes := m_NoNodes s;
     m_phyDevManager := m_phyDevManager s; outbox := outbox s; log := log s |}.

Definition with_AllPeers (v : gset string) (s : lbAgent) : lbAgent :=
  {| uuid := uuid s; m_Leader := m_Leader s; m_Status := m_Status s; m_PStar := m_PStar s;
     m_DemandVal := m_DemandVal s; m_AllPeers := v; m_HiNodes := m_HiNodes s;
     m_LoNodes := m_LoNodes s; m_NoNodes := m_NoNodes s;
     m_phyDevManager := m_phyDevManager s; outbox := outbox s; log := log s |}.

Definition with_HiNodes (v : gset string) (s : lbAgent) : lbAgent :=
  {| uuid := uuid s; m_Leader := m_Leader s; m_Status := m_Status s; m_PStar := m_PStar s;
     m_DemandVal := m_DemandVal s; m_AllPeers := m_AllPeers s; m_HiNodes := v;
     m_LoNodes := m_LoNodes s; m_NoNodes := m_NoNodes s;
     m_phyDevManager := m_phyDevManager s; outbox := outbox s; log := log s |}.

Definition with_LoNodes (v : gset string) (s : lbAgent) : lbAgent :=
  {| uuid := uuid s; m_Leader := m_Leader s; m_Status := m_Status s; m_PStar := m_PStar s;
     m_DemandVal := m_DemandVal s; m_AllPeers := m_AllPeers s; m_HiNodes := m_HiNodes s;
     m_LoNodes := v; m_NoNodes := m_NoNodes s;
     m_phyDevManager := m_phyDevManager s; outbox := outbox s; log := log s |}.

Definition with_NoNodes (v : gset string) (s : lbAgent) : lbAgent :=
  {| uuid := uuid s; m_Leader := m_Leader s; m_Status := m_Status s; m_PStar := m_PStar s;
     m_DemandVal := m_DemandVal s; m_AllPeers := m_AllPeers s; m_HiNodes := m_HiNodes s;
     m_LoNodes := m_LoNodes s; m_NoNodes := v;
     m_phyDevManager := m_phyDevManager s; outbox := outbox s; log := log s |}.

Definition with_phyDevManager (v : CPhysicalDeviceManager) (s : lbAgent) : lbAgent :=
  {| uuid := uuid s; m_Leader := m_Leader s; m_Status := m_Status s; m_PStar := m_PStar s;
     m_DemandVal := m_DemandVal s; m_AllPeers := m_AllPeers s; m_HiNodes := m_HiNodes s;
     m_LoNodes := m_LoNodes s; m_NoNodes := m_NoNodes s;
     m_phyDevManager := v; outbox := outbox s; log := log s |}.

Definition with_outbox (v : list (string * Outgoing)) (s : lbAgent) : lbAgent :=
  {| uuid := uuid s; m_Leader := m_Leader s; m_Status := m_Status s; m_PStar := m_PStar s;
     m_DemandVal := m_DemandVal s; m_AllPeers := m_AllPeers s; m_HiNodes := m_HiNodes s;
     m_LoNodes := m_LoNodes s; m_NoNodes := m_NoNodes s;
     m_phyDevManager := m_phyDevManager s; outbox := v; log := log s |}.

Definition with_log (v : list (Level * string)) (s : lbAgent) : lbAgent :=
  {| uuid := uuid s; m_Leader := m_Leader s; m_Status := m_Status s; m_PStar := m_PStar s;
     m_DemandVal := m_DemandVal s; m_AllPeers := m_AllPeers s; m_HiNodes := m_HiNodes s;
     m_LoNodes := m_LoNodes s; m_NoNodes := m_NoNodes s;
     m_phyDevManager := m_phyDevManager s; outbox := outbox s; log := v |}.

Definition logline (l : Level) (text : string) (s : lbAgent) : lbAgent :=
  with_log (log s ++ [(l, text)]) s.

(** [peer_->Send(m_)]; a failed send is caught and only logged at info
    level. *)
Definition Send (peer_ : string) (m_ : Outgoing) (s : lbAgent) : lbAgent :=
  with_outbox (outbox s ++ [(peer_, m_)]) s.

(** [lbAgent::lbAgent].  [status0] and [demand0] are the values of
    [m_Status] and [m_DemandVal] that the constructor leaves as the base
    class made them. *)
Definition lbAgent_ctor (uuid_ : string) (status0 : EStatus) (demand0 : Q)
    (phy : CPhysicalDeviceManager) : outcome lbAgent :=
  match front_Set DESD "onOffSwitch" 0 phy with
  | None => Undefined
  | Some phy =>
      match front_Set DG "onOffSwitch" 1 phy with
      | None => Undefined
      | Some phy =>
          Done {| uuid := uuid_; m_Leader := uuid_; m_Status := status0; m_PStar := 0;
                  m_DemandVal := demand0; m_AllPeers := {[uuid_]}; m_HiNodes := ∅;
                  m_LoNodes := ∅; m_NoNodes := ∅; m_phyDevManager := phy; outbox := [];
                  log := [(Notice, "DESD turned on "); (Notice, "DG turned on ")] |}
      end
  end.

(** [lbAgent::add_peer] and [lbAgent::get_peer] *)
Definition add_peer (u : string) (s : lbAgent) : lbAgent :=
  with_NoNodes ({[u]} ∪ m_NoNodes s) (with_AllPeers ({[u]} ∪ m_AllPeers s) s).

Definition get_peer (u : string) (s : lbAgent) : option string :=
  if bool_decide (u ∈ m_AllPeers s) then Some u else None.

(** [lbAgent::SendMsg] *)
Definition SendMsg (msg : string) (peerSet_ : gset string) (s : lbAgent) : lbAgent :=
  let s := logline Notice ("Sending '" ++ msg ++ "' from: " ++ uuid s) s in
  fold_left
    (fun acc peer_ =>
       if String.eqb peer_ (uuid acc) then acc else Send peer_ (OutLb msg None) acc)
    (elements peerSet_) s.

(** [lbAgent::CollectState]: the request goes to this node itself. *)
Definition CollectState (s : lbAgent) : outcome lbAgent :=
  match get_peer (uuid s) s with
  | None => Undefined
  | Some self_ =>
      Done (logline Status "LB module requested State Collection" (Send self_ OutScRequest s))
  end.

(** [lbAgent::SendDraftRequest] *)
Definition SendDraftRequest (s : lbAgent) : lbAgent :=
  if status_eqb SUPPLY (m_Status s) then
    if bool_decide (m_HiNodes s = ∅) then
      logline Notice "No known Demand nodes at the moment" s
    else SendMsg "request" (m_HiNodes s) s
  else s.

(** [lbAgent::Step_PStar] *)
Definition Step_PStar (s : lbAgent) : outcome lbAgent :=
  match m_Status s with
  | DEMAND =>
      let s := with_PStar (m_PStar s - P_Migrate) s in
      match front_Set SST "level" (m_PStar s) (m_phyDevManager s) with
      | None => Undefined
      | Some phy => Done (logline Notice "Syncher level set to " (with_phyDevManager phy s))
      end
  | SUPPLY =>
      let s := with_PStar (m_PStar s + P_Migrate) s in
      match front_Set SST "level" (m_PStar s) (m_phyDevManager s) with
      | None => Undefined
      | Some phy => Done (logline Notice "Syncher level set to " (with_phyDevManager phy s))
      end
  | NORM => Done (logline Warn "Power migration aborted due to state change " s)
  end.

(** Move a peer to one of the three classification sets. *)
Definition classify (p : string) (which : EStatus) (s : lbAgent) : lbAgent :=
  let s := with_HiNodes (m_HiNodes s ∖ {[p]}) s in
  let s := with_NoNodes (m_NoNodes s ∖ {[p]}) s in
  let s := with_LoNodes (m_LoNodes s ∖ {[p]}) s in
  match which with
  | DEMAND => with_HiNodes ({[p]} ∪ m_HiNodes s) s
  | NORM => with_NoNodes ({[p]} ∪ m_NoNodes s) s
  | SUPPLY => with_LoNodes ({[p]} ∪ m_LoNodes s) s
  end.

(** A branch guard [... && peer_->GetUUID() != GetUUID()]: [peer_] is null
    when the message came from this node itself. *)
Definition guard (s : lbAgent) (peer_ : option string)
    (branch : string -> outcome lbAgent) (otherwise : outcome lbAgent) : outcome lbAgent :=
  match peer_ with
  | None => Undefined
  | Some p => if negb (String.eqb p (uuid s)) then branch p else otherwise
  end.

(** The loop of the CollectedState branch over the gateway entries: each
    is logged, then cast; the sum it builds is a local that is never used. *)
Fixpoint gateway_loop (gw : list (option Q)) (s : lbAgent) : outcome lbAgent :=
  match gw with
  | [] => Done s
  | v :: rest =>
      let s := logline Notice "SC module returned gateway values: " s in
      match v with
      | None => Raised s "bad_lexical_cast"
      | Some _ => gateway_loop rest s
      end
  end.

(** [lbAgent::HandleRead], first block: the entry of the sender in the
    peer set, added when missing; null when the sender is this node. *)
Definition sender_entry (s : lbAgent) (line_ : string) : lbAgent * option string :=
  if negb (String.eqb line_ (uuid s)) then
    match get_peer line_ s with
    | Some p => (s, Some p)
    | None => let s := add_peer line_ s in (s, get_peer line_ s)
    end
  else (s, None).

(** The branch for a peer list from the group leader.  The loop over
    [m_AllPeers] erases from [m_AllPeers] every peer other than this node
    while it stands on it: the erase invalidates the iterator of the loop,
    so the branch has a defined result only when no other peer is known,
    and then the loop changes nothing. *)
Definition on_peer_list (s : lbAgent) (msg : CMessage) : outcome lbAgent :=
  let line_ := src msg in
  let s := logline Notice ("Peer List received from Group Leader: " ++ line_) s in
  let s := with_Leader line_ s in
  let after_collect := if String.eqb (m_Leader s) (uuid s) then CollectState s else Done s in
  match after_collect with
  | Done s =>
      if bool_decide (m_AllPeers s ∖ {[uuid s]} = ∅) then
        match any_peers msg with
        | None => Raised s "ptree_bad_path"
        | Some peers =>
            Done (fold_left
                    (fun acc v => match get_peer v acc with
                                  | Some _ => acc
                                  | None => add_peer v acc
                                  end)
                    peers s)
        end
      else Undefined
  | other => other
  end.

(** The "demand", "normal" and "supply" branches: they log
    [pt.get("lb.source")], which throws on an absent path, and reclassify
    the peer. *)
Definition on_announce (text : string) (which : EStatus) (s : lbAgent) (msg : CMessage)
    (p : string) : outcome lbAgent :=
  match lb_source msg with
  | None => Raised s "ptree_bad_path"
  | Some from => Done (classify p which (logline Notice (text ++ from) s))
  end.

(** The "request" branch. *)
Definition on_request (s : lbAgent) (p : string) : outcome lbAgent :=
  let s := logline Notice ("Request message received from: " ++ p) s in
  let s := classify p SUPPLY s in
  if status_eqb DEMAND (m_Status s) then Done (Send p (OutLb "yes" None) s)
  else Done (Send p (OutLb "no" None) s).

(** The "yes" / "no" branch. *)
Definition on_yesno (s : lbAgent) (kind : string) (p : string) : outcome lbAgent :=
  if String.eqb kind "yes" then
    let s := logline Notice ("(Yes) from " ++ p) s in
    if status_eqb SUPPLY (m_Status s) then Done (Send p (OutLb "drafting" None) s)
    else Done s
  else Done (logline Notice ("(No) from " ++ p) s).

(** The "drafting" branch.  "This side is completely passive, so do
    nothing": the call of [Step_PStar] is commented out. *)
Definition on_drafting (s : lbAgent) (p : string) : outcome lbAgent :=
  let s := logline Notice ("Drafting message received from: " ++ p) s in
  if status_eqb DEMAND (m_Status s) then
    Done (Send p (OutLb "accept" (Some (m_DemandVal s))) s)
  else Done s.

(** The "accept" branch.  "this side is completely passive. So do
    nothing.": the call of [Step_PStar] is commented out. *)
Definition on_accept (s : lbAgent) (msg : CMessage) (p : string) : outcome lbAgent :=
  match lb_value msg with
  | None => Raised s "ptree_bad_path"
  | Some _ =>
      let s := logline Notice (" Draft Accept message received from: " ++ p) s in
      if status_eqb SUPPLY (m_Status s) then
        Done (logline Warn ("Migrating power on request from: " ++ p) s)
      else Done (logline Warn "Unexpected Accept message" s)
  end.

(** The "CollectedState" branch; the aggregate it computes is a local
    that is never used. *)
Definition on_collected (s : lbAgent) (msg : CMessage) : outcome lbAgent :=
  match cs_gateway msg with
  | None => Raised s "ptree_bad_path"
  | Some gw =>
      match gateway_loop gw s with
      | Done s =>
          Done (fold_left
                  (fun acc _ => logline Status "SC module returned intransit messages: " acc)
                  (default [] (cs_intransit msg)) s)
      | other => other
      end
  end.

(** The chain of [else if] on the kind of an lb message, in the order of
    the source. *)
Definition on_lb (s : lbAgent) (peer_ : option string) (msg : CMessage) (kind : string)
    : outcome lbAgent :=
  let br_invalid := Done (logline Warn "Invalid Message Type" s) in
  let br_collected :=
    if String.eqb kind "CollectedState" then on_collected s msg else br_invalid in
  let br_accept :=
    if String.eqb kind "accept" then guard s peer_ (on_accept s msg) br_collected
    else br_collected in
  let br_drafting :=
    if String.eqb kind "drafting" then guard s peer_ (on_drafting s) br_accept
    else br_accept in
  let br_yesno :=
    if String.eqb kind "yes" || String.eqb kind "no"
    then guard s peer_ (on_yesno s kind) br_drafting
    else br_drafting in
  let br_request :=
    if String.eqb kind "request" then guard s peer_ (on_request s) br_yesno
    else br_yesno in
  let br_supply :=
    if String.eqb kind "supply"
    then guard s peer_ (on_announce "Supply message received from: " SUPPLY s msg) br_request
    else br_request in
  let br_normal :=
    if String.eqb kind "normal"
    then guard s peer_ (on_announce "Normal message received from: " NORM s msg) br_supply
    else br_supply in
  if String.eqb kind "demand"
  then guard s peer_ (on_announce "Demand message received from: " DEMAND s msg) br_normal
  else br_normal.

(** [lbAgent::HandleRead] *)
Definition HandleRead (s : lbAgent) (msg : CMessage) : outcome lbAgent :=
  let '(s, peer_) := sender_entry s (src msg) in
  if String.eqb (default "NOEXCEPTION" (any msg)) "PeerList" then on_peer_list s msg
  else if String.eqb (default "NOEXCEPTION" (lb msg)) "NOEXCEPTION" then Done s
  else on_lb s peer_ msg (default "" (lb msg)).

(** The accept branch as the specification words it (section 4.6): the
    node steps its setpoint through [Step_PStar].  Used only to compare
    with [HandleRead]. *)
Definition spec_on_accept (s : lbAgent) : outcome lbAgent := Step_PStar s.

(** The level last commanded on the first device of a class, if any. *)
Definition commanded (T : DeviceType) (signal : string) (s : lbAgent) : option Q :=
  match GetDevicesOfType T (m_phyDevManager s) with
  | d :: _ => dev_commands d !! signal
  | [] => None
  end.

(** *** Fixtures *)

Definition desd1 : Device := {| dev_type := DESD; dev_id := "desd1"; dev_commands := ∅ |}.
Definition dg1 : Device := {| dev_type := DG; dev_id := "dg1"; dev_commands := ∅ |}.
Definition sst1 : Device := {| dev_type := SST; dev_id := "sst1"; dev_commands := ∅ |}.

(** Node "A", classified SUPPLY, with a battery, a generator and an SST,
    knowing the DEMAND node "B". *)
Definition supplier : lbAgent :=
  {| uuid := "A"; m_Leader := "A"; m_Status := SUPPLY; m_PStar := 0; m_DemandVal := 0;
     m_AllPeers := {["A"; "B"]}; m_HiNodes := {["B"]}; m_LoNodes := {["A"]};
     m_NoNodes := ∅; m_phyDevManager := [desd1; dg1; sst1]; outbox := []; log := [] |}.


(** The "accept" of "B" with its demand of 2. *)
Definition accept_from_B : CMessage :=
  {| src := "B"; any := None; any_peers := None; lb := Some "accept";
     lb_source := Some "B"; lb_value := Some "2"; cs_gateway := None;
     cs_intransit := None |}.

End LB.

(** ** Plug-and-play adapter (CArmAdapter.cpp) *)
Module Arm.

(** [std::isspace] in the "C" locale: space, and the characters 9 to 13. *)
Definition isspace (c : ascii) : bool :=
  let n := nat_of_ascii c in
  Nat.eqb n 32 || (Nat.leb 9 n && Nat.leb n 13).

Definition flush (cur : string) : list string :=
  match cur with EmptyString => [] | _ => [cur] end.

(** The sequence of words that repeated [stream >> word] extracts from a
    text; [cur] is the word being read. *)
Fixpoint words_from (text : string) (cur : string) : list string :=
  match text with
  | EmptyString => flush cur
  | String c rest =>
      if isspace c then flush cur ++ words_from rest EmptyString
      else words_from rest (cur ++ String c EmptyString)
  end.

Definition words (text : string) : list string := words_from text EmptyString.

(** Carriage return and line feed, and the empty line that ends every
    packet. *)
Definition CRLF : string := String "013" (String "010" EmptyString).
Definition eom : string := CRLF ++ CRLF.

(** A [boost::asio::deadline_timer]: its expiry time and whether an
    [async_wait] is outstanding. *)
Record timer : Type := { expiry : Z; waiting : bool }.

Definition seconds (n : Z) : Z := (n * 1000000)%Z.

(** The connection of one call of [HandleMessage]: what [ReceiveData]
    returns ([None] when it throws) and whether [SendData] succeeds. *)
Record IServer : Type := { ReceiveData : option string; SendData_ok : bool }.

Section Adapter.

(** [SignalValue] and the [boost::lexical_cast] to it are declared
    outside this file; [None] is a text on which the cast throws. *)
Variable SignalValue : Type.
Variable lexical_cast : string -> option SignalValue.

(** The members of [CArmAdapter] the handlers use.  [m_stateInfo] maps a
    scoped device name to its slot of the receive buffer; [responses] are
    the texts handed to [SendData] (newest last); [removed] is set once
    [Timeout] has called [RemoveAdapter]. *)
Record CArmAdapter : Type := {
  m_identifier : string;
  m_stateInfo : gmap string nat;
  m_rxBuffer : gmap nat SignalValue;
  m_initialized : bool;
  m_heartbeat : timer;
  m_command : timer;
  responses : list string;
  removed : bool
}.

Definition with_rxBuffer (v : gmap nat SignalValue) (s : CArmAdapter) : CArmAdapter :=
  {| m_identifier := m_identifier s; m_stateInfo := m_stateInfo s; m_rxBuffer := v;
     m_initialized := m_initialized s; m_heartbeat := m_heartbeat s;
     m_command := m_command s; responses := responses s; removed := removed s |}.

Definition with_initialized (v : bool) (s : CArmAdapter) : CArmAdapter :=
  {| m_identifier := m_identifier s; m_stateInfo := m_stateInfo s;
     m_rxBuffer := m_rxBuffer s; m_initialized := v; m_heartbeat := m_heartbeat s;
     m_command := m_command s; responses := responses s; removed := removed s |}.

Definition with_heartbeat (v : timer) (s : CArmAdapter) : CArmAdapter :=
  {| m_identifier := m_identifier s; m_stateInfo := m_stateInfo s;
     m_rxBuffer := m_rxBuffer s; m_initialized := m_initialized s; m_heartbeat := v;
     m_command := m_command s; responses := responses s; removed := removed s |}.

Definition with_command (v : timer) (s : CArmAdapter) : CArmAdapter :=
  {| m_identifier := m_identifier s; m_stateInfo := m_stateInfo s;
     m_rxBuffer := m_rxBuffer s; m_initialized := m_initialized s;
     m_heartbeat := m_heartbeat s; m_command := v; responses := responses s;
     removed := removed s |}.

Definition with_responses (v : list string) (s : CArmAdapter) : CArmAdapter :=
  {| m_identifier := m_identifier s; m_stateInfo := m_stateInfo s;
     m_rxBuffer := m_rxBuffer s; m_initialized := m_initialized s;
     m_heartbeat := m_heartbeat s; m_command := m_command s; responses := v;
     removed := removed s |}.

Definition with_removed (v : bool) (s : CArmAdapter) : CArmAdapter :=
  {| m_identifier := m_identifier s; m_stateInfo := m_stateInfo s;
     m_rxBuffer := m_rxBuffer s; m_initialized := m_initialized s;
     m_heartbeat := m_heartbeat s; m_command := m_command s; responses := responses s;
     removed := v |}.

(** [CArmAdapter::CArmAdapter] followed by [CArmAdapter::Start] at time
    [now]; the registration table is filled by the factory. *)
Definition Start (identifier : string) (stateInfo : gmap string nat) (now : Z) : CArmAdapter :=
  {| m_identifier := identifier; m_stateInfo := stateInfo; m_rxBuffer := ∅;
     m_initialized := false;
     m_heartbeat := {| expiry := (now + seconds 5)%Z; waiting := true |};
     m_command := {| expiry := 0%Z; waiting := false |};
     responses := []; removed := false |}.

(** [CArmAdapter::Heartbeat]: [expires_from_now] moves the expiry and
    returns the number of waits it cancelled; the wait is renewed only
    when there was one. *)
Definition Heartbeat (now : Z) (s : CArmAdapter) : CArmAdapter :=
  if waiting (m_heartbeat s) then
    with_heartbeat {| expiry := (now + seconds 5)%Z; waiting := true |} s
  else
    with_heartbeat {| expiry := (now + seconds 5)%Z; waiting := false |} s.

(** The passage of time up to [now]: an outstanding heartbeat wait whose
    expiry has come runs [CArmAdapter::Timeout] without error, which
    removes the adapter. *)
Definition elapse (now : Z) (s : CArmAdapter) : CArmAdapter :=
  if waiting (m_heartbeat s) && (expiry (m_heartbeat s) <=? now)%Z then
    with_removed true
      (with_heartbeat {| expiry := expiry (m_heartbeat s); waiting := false |} s)
  else s.

(** How the parsing loop of [ReadStatePacket] ends. *)
Inductive parsed : Type :=
| Complete (temp : gmap nat SignalValue)  (* extraction failed: end of loop *)
| UnknownDevice
| DuplicateDevice
| BadCast.                                (* lexical_cast threw *)

(** [while (out >> name >> signal >> strval) { ... }] over the words of the
    packet. *)
Fixpoint parse_states (identifier : string) (stateInfo : gmap string nat)
    (ws : list string) (temp : gmap nat SignalValue) : parsed :=
  match ws with
  | name :: signal :: strval :: rest =>
      let name := identifier ++ ":" ++ name in
      match stateInfo !! name with
      | None => UnknownDevice
      | Some index =>
          match lexical_cast strval with
          | None => BadCast
          | Some value =>
              match temp !! index with
              | Some _ => DuplicateDevice
              | None => parse_states identifier stateInfo rest (<[index := value]> temp)
              end
          end
      end
  | _ => Complete temp
  end.

(** [CArmAdapter::ReadStatePacket] at time [now]: the state after the
    call and the text returned, [None] when the call is left by the
    exception of a failed cast. *)
Definition ReadStatePacket (s : CArmAdapter) (now : Z) (packet : string)
    : CArmAdapter * option string :=
  match parse_states (m_identifier s) (m_stateInfo s) (words packet) ∅ with
  | UnknownDevice => (s, Some ("UnknownDevice" ++ eom))
  | DuplicateDevice => (s, Some ("DuplicateDevice" ++ eom))
  | BadCast => (s, None)
  | Complete temp =>
      let s := with_rxBuffer
                 (fold_left (fun rx it => <[it.1 := it.2]> rx) (map_to_list temp) (m_rxBuffer s))
                 s in
      let s := if negb (m_initialized s) then
                 with_command {| expiry := (now + seconds 2)%Z; waiting := true |}
                   (with_initialized true s)
               else s in
      (s, Some ("Received" ++ eom))
  end.

(** [packet >> header]: the first word, the empty string when there is
    none. *)
Definition header_of (packet : string) : string :=
  match words packet with
  | h :: _ => h
  | [] => ""
  end.

(** [CArmAdapter::HandleMessage] at time [now].  [ReadStatePacket] is
    given [packet.str()], the whole text received. *)
Definition HandleMessage (s : CArmAdapter) (now : Z) (connection : IServer) : CArmAdapter :=
  match ReceiveData connection with
  | None => s
  | Some packet =>
      let s := Heartbeat now s in
      let header := header_of packet in
      let '(s, response) :=
        if String.eqb header "DeviceStates" then ReadStatePacket s now packet
        else if String.eqb header "PoliteDisconnect" then
          (s, Some ("PoliteDisconnect: Accepted" ++ eom))
        else (s, Some ("UnknownHeader" ++ eom)) in
      match response with
      | None => s
      | Some text =>
          if SendData_ok connection then
            Heartbeat now (with_responses (responses s ++ [text]) s)
          else s
      end
  end.

(** The reply to the last call, if one was sent. *)
Definition reply_of (before after : CArmAdapter) : option string :=
  if Nat.ltb (length (responses before)) (length (responses after))
  then last (responses after) else None.

End Adapter.

Arguments m_identifier {SignalValue} _.
Arguments m_stateInfo {SignalValue} _.
Arguments m_rxBuffer {SignalValue} _.
Arguments m_initialized {SignalValue} _.
Arguments m_heartbeat {SignalValue} _.
Arguments m_command {SignalValue} _.
Arguments responses {SignalValue} _.
Arguments removed {SignalValue} _.
Arguments with_rxBuffer {SignalValue} _ _.
Arguments with_initialized {SignalValue} _ _.
Arguments with_heartbeat {SignalValue} _ _.
Arguments with_command {SignalValue} _ _.
Arguments with_responses {SignalValue} _ _.
Arguments with_removed {SignalValue} _ _.
Arguments Complete {SignalValue} _.
Arguments UnknownDevice {SignalValue}.
Arguments DuplicateDevice {SignalValue}.
Arguments BadCast {SignalValue}.
Arguments Heartbeat {SignalValue} _ _.
Arguments elapse {SignalValue} _ _.
Arguments parse_states {SignalValue} _ _ _ _ _.
Arguments ReadStatePacket {SignalValue} _ _ _ _.
Arguments HandleMessage {SignalValue} _ _ _ _.
Arguments reply_of {SignalValue} _ _.

(** *** The replies as the specification has them *)

(** A device-state line: name, signal, value text. *)
Abbreviation line := (string * string * string)%type.

(** The complete lines of a word sequence; words left over at the end do
    not make a line. *)
Fixpoint lines_of (ws : list string) : list line :=
  match ws with
  | name :: signal :: strval :: rest => (name, signal, strval) :: lines_of rest
  | _ => []
  end.

(** The buffer slot registered for the device of a line in the session
    [identifier]. *)
Definition slot_of (identifier : string) (stateInfo : gmap string nat) (l : line) : option nat :=
  stateInfo !! (identifier ++ ":" ++ l.1.1).

(** What can be wrong with a line, given the lines before it. *)
Inductive offence : Type := Unregistered | Uncastable | Repeated.

Definition offence_of {SignalValue : Type} (lexical_cast : string -> option SignalValue)
    (identifier : string) (stateInfo : gmap string nat) (before : list line) (l : line)
    : option offence :=
  match slot_of identifier stateInfo l with
  | None => Some Unregistered
  | Some i =>
      match lexical_cast l.2 with
      | None => Some Uncastable
      | Some _ =>
          if bool_decide (Some i ∈ map (slot_of identifier stateInfo) before)
          then Some Repeated else None
      end
  end.

(** The first offence in a sequence of lines, read in order. *)
Fixpoint first_offence {SignalValue : Type} (lexical_cast : string -> option SignalValue)
    (identifier : string) (stateInfo : gmap string nat) (before ls : list line)
    : option offence :=
  match ls with
  | [] => None
  | l :: rest =>
      match offence_of lexical_cast identifier stateInfo before l with
      | Some e => Some e
      | None => first_offence lexical_cast identifier stateInfo (before ++ [l]) rest
      end
  end.

(** The reply that goes with the first offence: none when a value does
    not cast, because the exception of the cast leaves the handler. *)
Definition spec_reply (o : option offence) : option string :=
  match o with
  | None => Some ("Received" ++ eom)
  | Some Unregistered => Some ("UnknownDevice" ++ eom)
  | Some Repeated => Some ("DuplicateDevice" ++ eom)
  | Some Uncastable => None
  end.

(** The device-state lines of a packet as the specification has them:
    the words after the opening token, three at a time. *)
Definition spec_lines (packet : string) : list line := lines_of (tail (words packet)).

(** The reply to a DeviceStates packet as the specification has it
    (adapter wire format): by the lines after the opening token. *)
Definition spec_state_reply {SignalValue : Type}
    (lexical_cast : string -> option SignalValue) (identifier : string)
    (stateInfo : gmap string nat) (packet : string) : option string :=
  spec_reply (first_offence lexical_cast identifier stateInfo [] (spec_lines packet)).

(** *** Fixtures *)

(** A cast on which the examples run: the texts of decimal naturals. *)
Definition digit (c : ascii) : option N :=
  let n := N_of_ascii c in
  if (48 <=? n)%N && (n <=? 57)%N then Some (n - 48)%N else None.

Fixpoint digits (text : string) (acc : N) : option N :=
  match text with
  | EmptyString => Some acc
  | String c rest =>
      match digit c with
      | Some d => digits rest (acc * 10 + d)%N
      | None => None
      end
  end.

Definition cast_N (text : string) : option N :=
  match text with
  | EmptyString => None
  | _ => digits text 0%N
  end.

(** The session "ident" with the devices "foo" and "bar", started at
    time 0. *)
Definition board : CArmAdapter N :=
  Start N "ident" {["ident:foo" := 0%nat; "ident:bar" := 1%nat]} 0.

(** A connection that delivers [text] and accepts the reply. *)
Definition delivering (text : string) : IServer :=
  {| ReceiveData := Some text; SendData_ok := true |}.

(** The adapter session of the specification's scenario 3, after the
    mapping of "ident:foo" to index 0 has been registered; the cast takes
    every text, so that of "12.3" too. *)
Definition cast_text (text : string) : option string := Some text.

Definition registered : CArmAdapter string :=
  Start string "ident" {["ident:foo" := 0%nat]} 0.

Definition scenario3 : string := "DeviceStates foo voltage 12.3" ++ eom.

End Arm.

(** ** Clock synchronizer (CClockSynchronizer.cpp) *)
Module Clock.

Local Open Scope Q_scope.

Definition MAX_REGRESSION_ENTRIES : nat := 200.
Definition SYNCHRONIZER_LAMBDA : Q := 0.99999.
Definition QUERY_INTERVAL : Z := 10000.

(** [MapIndex], a pair of uuids; [TimeTuple], a pair of instants. *)
Abbreviation MapIndex := (string * string)%type.
Abbreviation TimeTuple := (Z * Z)%type.

(** How a [const] query can end. *)
Inductive result (A : Type) : Type :=
| Ok (a : A)
| Throw (what : string)
| UB.
Arguments Ok {A} a.
Arguments Throw {A} what.
Arguments UB {A}.

(** Arithmetic on [unsigned int]. *)
Definition wrap32 (z : Z) : Z := (z mod 2 ^ 32)%Z.

Record TableEntry : Type := {
  te_uuid : string;
  offset_secs : Z;
  offset_fracs : Z;
  te_skew : Q;
  te_weight : Q
}.

(** [unsynchronized_sendtime] is the instant that [time_from_string]
    reads from the field, [None] when it throws on the text. *)
Record ExchangeResponseMessage : Type := {
  response : Z;
  unsynchronized_sendtime : option Z;
  table_entry : list TableEntry
}.

Inductive ClockSynchronizerMessage : Type :=
| EXCHANGE_MESSAGE (query : Z)
| EXCHANGE_RESPONSE_MESSAGE (m : ExchangeResponseMessage).

(** A [ModuleMessage]: [None] when its type is not
    [CLOCK_SYNCHRONIZER_MESSAGE]. *)
Abbreviation ModuleMessage := (option ClockSynchronizerMessage).

(** The members of [CClockSynchronizer]; [ClockSkew] is the value last
    given to [SetClockSkew]; [sent] are the messages handed to [Send] with
    the uuid of the peer (newest last). *)
Record CClockSynchronizer : Type := {
  m_uuid : string;
  m_kcounter : Z;
  m_offsets : gmap MapIndex Z;
  m_skews : gmap MapIndex Q;
  m_weights : gmap MapIndex (Q * Z);
  m_lastresponse : gmap MapIndex Z;
  m_queries : gmap MapIndex (Z * Z);
  m_responses : gmap MapIndex (list TimeTuple);
  m_myoffset : Z;
  m_myskew : Q;
  ClockSkew : Z;
  sent : list (string * ClockSynchronizerMessage)
}.

Definition with_kcounter (v : Z) (s : CClockSynchronizer) : CClockSynchronizer :=
  {| m_uuid := m_uuid s; m_kcounter := v; m_offsets := m_offsets s; m_skews := m_skews s;
     m_weights := m_weights s; m_lastresponse := m_lastresponse s; m_queries := m_queries s;
     m_responses := m_responses s; m_myoffset := m_myoffset s; m_myskew := m_myskew s;
     ClockSkew := ClockSkew s; sent := sent s |}.

Definition with_offsets (v : gmap MapIndex Z) (s : CClockSynchronizer) : CClockSynchronizer :=
  {| m_uuid := m_uuid s; m_kcounter := m_kcounter s; m_offsets := v; m_skews := m_skews s;
     m_weights := m_weights s; m_lastresponse := m_lastresponse s; m_queries := m_queries s;
     m_responses := m_responses s; m_myoffset := m_myoffset s; m_myskew := m_myskew s;
     ClockSkew := ClockSkew s; sent := sent s |}.

Definition with_skews (v : gmap MapIndex Q) (s : CClockSynchronizer) : CClockSynchronizer :=
  {| m_uuid := m_uuid s; m_kcounter := m_kcounter s; m_offsets := m_offsets s; m_skews := v;
     m_weights := m_weights s; m_lastresponse := m_lastresponse s; m_queries := m_queries s;
     m_responses := m_responses s; m_myoffset := m_myoffset s; m_myskew := m_myskew s;
     ClockSkew := ClockSkew s; sent := sent s |}.

Definition with_weights (v : gmap MapIndex (Q * Z)) (s : CClockSynchronizer)
    : CClockSynchronizer :=
  {| m_uuid := m_uuid s; m_kcounter := m_kcounter s; m_offsets := m_offsets s;
     m_skews := m_skews s; m_weights := v; m_lastresponse := m_lastresponse s;
     m_queries := m_queries s; m_responses := m_responses s; m_myoffset := m_myoffset s;
     m_myskew := m_myskew s; ClockSkew := ClockSkew s; sent := sent s |}.

Definition with_lastresponse (v : gmap MapIndex Z) (s : CClockSynchronizer)
    : CClockSynchronizer :=
  {| m_uuid := m_uuid s; m_kcounter := m_kcounter s; m_offsets := m_offsets s;
     m_skews := m_skews s; m_weights := m_weights s; m_lastresponse := v;
     m_queries := m_queries s; m_responses := m_responses s; m_myoffset := m_myoffset s;
     m_myskew := m_myskew s; ClockSkew := ClockSkew s; sent := sent s |}.

Definition with_queries (v : gmap MapIndex (Z * Z)) (s : CClockSynchronizer)
    : CClockSynchronizer :=
  {| m_uuid := m_uuid s; m_kcounter := m_kcounter s; m_offsets := m_offsets s;
     m_skews := m_skews s; m_weights := m_weights s; m_lastresponse := m_lastresponse s;
     m_queries := v; m_responses := m_responses s; m_myoffset := m_myoffset s;
     m_myskew := m_myskew s; ClockSkew := ClockSkew s; sent := sent s |}.

Definition with_responses (v : gmap MapIndex (list TimeTuple)) (s : CClockSynchronizer)
    : CClockSynchronizer :=
  {| m_uuid := m_uuid s; m_kcounter := m_kcounter s; m_offsets := m_offsets s;
     m_skews := m_skews s; m_weights := m_weights s; m_lastresponse := m_lastresponse s;
     m_queries := m_queries s; m_responses := v; m_myoffset := m_myoffset s;
     m_myskew := m_myskew s; ClockSkew := ClockSkew s; sent := sent s |}.

Definition with_published (off : Z) (skew : Q) (s : CClockSynchronizer) : CClockSynchronizer :=
  {| m_uuid := m_uuid s; m_kcounter := m_kcounter s; m_offsets := m_offsets s;
     m_skews := m_skews s; m_weights := m_weights s; m_lastresponse := m_lastresponse s;
     m_queries := m_queries s; m_responses := m_responses s; m_myoffset := off;
     m_myskew := skew; ClockSkew := off; sent := sent s |}.

Definition with_sent (v : list (string * ClockSynchronizerMessage)) (s : CClockSynchronizer)
    : CClockSynchronizer :=
  {| m_uuid := m_uuid s; m_kcounter := m_kcounter s; m_offsets := m_offsets s;
     m_skews := m_skews s; m_weights := m_weights s; m_lastresponse := m_lastresponse s;
     m_queries := m_queries s; m_responses := m_responses s; m_myoffset := m_myoffset s;
     m_myskew := m_myskew s; ClockSkew := ClockSkew s; sent := v |}.

(** [CClockSynchronizer::TDToDouble]: [total_seconds()] and
    [fractional_seconds()] split the count of microseconds by truncating
    division. *)
Definition TDToDouble (td : Z) : Q :=
  inject_Z (Z.quot td 1000000) + (inject_Z (Z.rem td 1000000) * 1) / 1000000.

(** [modf]: the fractional part and the integral part. *)
Definition modf (x : Q) : Q * Q :=
  let whole := inject_Z (Qtrunc x) in (x - whole, whole).

(** [CClockSynchronizer::DoubleToTD], on finite values within the range
    of the integer arguments of [boost::posix_time::seconds] and
    [microseconds]; the conversion of any other double has no defined
    result in C++ and is outside this definition. *)
Definition DoubleToTD (td : Q) : Z :=
  let '(tmp, seconds) := modf td in
  let tmp := tmp * 1000000 in
  let '(_, fractional) := modf tmp in
  (Qtrunc seconds * 1000000 + Qtrunc fractional)%Z.

(** [CClockSynchronizer::SetWeight] at time [now] *)
Definition SetWeight (now : Z) (i : MapIndex) (w : Q) (s : CClockSynchronizer)
    : CClockSynchronizer :=
  let s := with_weights (<[i := (w, now)]> (m_weights s)) s in
  with_lastresponse (<[i := m_kcounter s]> (m_lastresponse s)) s.

(** [CClockSynchronizer::GetWeight] *)
Definition GetWeight (s : CClockSynchronizer) (i : MapIndex) : result Q :=
  if bool_decide (i = (m_uuid s, m_uuid s)) then Ok 1
  else
    match m_weights s !! i with
    | None => Throw "Can't find that index in the weights table"
    | Some (w, _) =>
        match m_lastresponse s !! i with
        | None => UB
        | Some last =>
            Ok (w * Qpower SYNCHRONIZER_LAMBDA (wrap32 (m_kcounter s - last)))
        end
    end.

(** [m_skews[i]] as an rvalue: a missing entry is created with value 0. *)
Definition skews_at (i : MapIndex) (s : CClockSynchronizer) : Q * CClockSynchronizer :=
  match m_skews s !! i with
  | Some v => (v, s)
  | None => (0, with_skews (<[i := 0]> (m_skews s)) s)
  end.

(** [CClockSynchronizer::CClockSynchronizer] at time [now].  [SetWeight] runs
    before [m_kcounter] is assigned, so the round it records for the self
    pair is whatever the member held: [junk]. *)
Definition ctor (uuid : string) (now : Z) (junk : Z) : CClockSynchronizer :=
  let ii := (uuid, uuid) in
  {| m_uuid := uuid; m_kcounter := 0;
     m_offsets := {[ii := 0%Z]}; m_skews := {[ii := 0]};
     m_weights := {[ii := (1, now)]}; m_lastresponse := {[ii := junk]};
     m_queries := ∅; m_responses := ∅; m_myoffset := 0; m_myskew := 0;
     ClockSkew := 0; sent := [] |}.

(** "make sure the self referential entries stay sane" *)
Definition self_sane (now : Z) (s : CClockSynchronizer) : CClockSynchronizer :=
  let ii := (m_uuid s, m_uuid s) in
  let s := with_offsets (<[ii := 0%Z]> (m_offsets s)) s in
  let s := SetWeight now ii 1 s in
  with_skews (<[ii := 0]> (m_skews s)) s.

(** The first loop over the response list: the three sums. *)
Definition sums (base : Z) (rlist : list TimeTuple) : Z * Z * Z :=
  let '(sumx, sumy, sumlag, _) :=
    fold_left
      (fun '(sumx, sumy, sumlag, even) (t : TimeTuple) =>
         let sumx := (sumx + (t.1 - base))%Z in
         let sumy := (sumy + (t.2 - base))%Z in
         if negb even then (sumx, sumy, (sumlag - (t.2 - base))%Z, true)
         else (sumx, sumy, (sumlag + (t.2 - base))%Z, false))
      rlist (0%Z, 0%Z, 0%Z, false) in
  (sumx, sumy, sumlag).

(** The regression of [HandleExchangeResponse] on a response list with
    base [now]: the offset and the skew it commits. *)
Definition regression (now : Z) (rlist : list TimeTuple) : Z * Q :=
  let base := now in
  let '(sumx, sumy, sumlag) := sums base rlist in
  let n := inject_Z (Z.of_nat (length rlist)) in
  let lag := TDToDouble sumlag / n in
  let dxbar := TDToDouble sumx / n in
  let dybar := TDToDouble sumy / n in
  let xbar := DoubleToTD dxbar in
  let ybar := DoubleToTD dybar in
  let '(tmp3, tmp4) :=
    fold_left
      (fun '(tmp3, tmp4) (t : TimeTuple) =>
         let tmp1 := TDToDouble ((t.1 - base) - xbar) in
         let tmp2 := TDToDouble ((t.2 - base) - ybar) in
         (tmp3 + tmp1 * tmp2, tmp4 + tmp1 * tmp1))
      rlist (0, 0) in
  let fij := if negb (Qeq_bool tmp4 0) then tmp3 / tmp4 else 1 in
  let alpha := dybar - fij * dxbar in
  let alpha := if Qle_bool alpha 0 then alpha + lag else alpha - lag in
  ((- DoubleToTD alpha)%Z, fij - 1).

(** In the loop over the table of a response: an unknown neighbour gets
    an entry with offset 0, weight 0 and skew 0. *)
Definition table_init (now : Z) (il : MapIndex) (s : CClockSynchronizer)
    : CClockSynchronizer :=
  match m_offsets s !! il with
  | None =>
      let s := with_offsets (<[il := 0%Z]> (m_offsets s)) s in
      let s := SetWeight now il 0 s in
      with_skews (<[il := 0]> (m_skews s)) s
  | Some _ => s
  end.

(** In the same loop: the entry of the neighbour is replaced by the one
    derived through the sender. *)
Definition table_take (now : Z) (il ij : MapIndex) (cjl : Z) (wjl fjl : Q)
    (s : CClockSynchronizer) : CClockSynchronizer :=
  let s := with_offsets
             (<[il := (default 0%Z (m_offsets s !! ij) + cjl)%Z]> (m_offsets s)) s in
  let s := SetWeight now il wjl s in
  with_skews (<[il := default 0 (m_skews s !! ij) + fjl]> (m_skews s)) s.

(** The loop of [HandleExchangeResponse] over the table of the
    response. *)
Fixpoint table_loop (now : Z) (sender : string) (entries : list TableEntry)
    (s : CClockSynchronizer) : outcome CClockSynchronizer :=
  match entries with
  | [] => Done s
  | te :: rest =>
      let neighbor := te_uuid te in
      if String.eqb neighbor sender || String.eqb neighbor (m_uuid s) then
        table_loop now sender rest s
      else
        let ij := (m_uuid s, sender) in
        let cjl := (offset_secs te * 1000000 + offset_fracs te)%Z in
        let wjl := te_weight te - 0.1 in
        let fjl := te_skew te in
        let il := (m_uuid s, neighbor) in
        let s := table_init now il s in
        match GetWeight s il with
        | Throw what => Raised s what
        | UB => Undefined
        | Ok w =>
            let s := if Qltb w wjl then table_take now il ij cjl wjl fjl s else s in
            table_loop now sender rest s
        end
  end.

(** [CClockSynchronizer::HandleExchangeResponse] at time [now]; [peer] is
    the uuid of the sender. *)
Definition HandleExchangeResponse (s : CClockSynchronizer) (now : Z)
    (msg : ExchangeResponseMessage) (peer : string) : outcome CClockSynchronizer :=
  let sender := peer in
  let ij := (m_uuid s, sender) in
  match unsynchronized_sendtime msg with
  | None => Raised s "time_from_string"
  | Some response_time =>
      let k := response msg in
      match m_queries s !! ij with
      | None => Done s
      | Some (qk, challenge) =>
          if negb (qk =? k)%Z then Done s
          else
            let s := with_queries (delete ij (m_queries s)) s in
            let rlist := default [] (m_responses s !! ij) in
            let rlist := (rlist ++ [(response_time, challenge)])%list in
            let rlist := (rlist ++ [(response_time, now)])%list in
            let rlist :=
              if Nat.ltb (MAX_REGRESSION_ENTRIES * 2) (length rlist) then drop 2 rlist
              else rlist in
            let s := with_responses (<[ij := rlist]> (m_responses s)) s in
            let '(off, skew) := regression now rlist in
            let s := with_offsets (<[ij := off]> (m_offsets s)) s in
            let s := SetWeight now ij 1 s in
            let s := with_skews (<[ij := skew]> (m_skews s)) s in
            table_loop now sender (table_entry msg) s
      end
  end.

(** The circular shift of [Exchange]: the peers after this node, then
    those before it. *)
Definition rotation (self : string) (peers : list string) : list string :=
  let '(tmplist, tmplist2, _) :=
    fold_left
      (fun '(tmplist, tmplist2, flop) peer =>
         if String.eqb peer self then (tmplist, tmplist2, true)
         else if negb flop then (tmplist, (tmplist2 ++ [peer])%list, flop)
         else ((tmplist ++ [peer])%list, tmplist2, flop))
      peers (@nil string, @nil string, false) in
  (tmplist ++ tmplist2)%list.

(** The loop of [Exchange] over the offset table: the three weighted
    sums. *)
Fixpoint weigh_loop (entries : list (MapIndex * Z)) (tmp : Q * Q * Q)
    (s : CClockSynchronizer) : outcome (CClockSynchronizer * (Q * Q * Q)) :=
  match entries with
  | [] => Done (s, tmp)
  | (i, off) :: rest =>
      match GetWeight s i with
      | Throw what => Raised (s, tmp) what
      | UB => Undefined
      | Ok w =>
          let '(tmp1, tmp2, tmp3) := tmp in
          let tmp1 := tmp1 + w * TDToDouble off in
          let tmp2 := tmp2 + w in
          let '(sk, s) := skews_at i s in
          let tmp3 := tmp3 + w * sk in
          weigh_loop rest (tmp1, tmp2, tmp3) s
      end
  end.

(** [CClockSynchronizer::Exchange] at time [now]; [err] says whether the
    timer reported an error, [peers] are the uuids of the global peer
    list in its order.  The offset table is walked in the order of
    [map_to_list].  Every [Send] of the round is taken to return: what it is
    given is recorded in [sent]. *)
Definition Exchange (s : CClockSynchronizer) (now : Z) (err : bool) (peers : list string)
    : outcome CClockSynchronizer :=
  if err then Done s
  else
    let s :=
      fold_left
        (fun acc peer =>
           let acc := with_sent (sent acc ++ [(peer, EXCHANGE_MESSAGE (m_kcounter acc))]) acc in
           with_queries (<[(m_uuid acc, peer) := (m_kcounter acc, now)]> (m_queries acc)) acc)
        (rotation (m_uuid s) peers) s in
    let s := with_kcounter (wrap32 (m_kcounter s + 1)) s in
    let s := self_sane now s in
    match weigh_loop (map_to_list (m_offsets s)) (0, 0, 0) s with
    | Undefined => Undefined
    | Raised (s, _) what => Raised s what
    | Done (s, (tmp1, tmp2, tmp3)) =>
        let s :=
          if negb (Qeq_bool tmp2 0) then
            with_published (DoubleToTD (tmp1 / tmp2)) (tmp3 / tmp2) s
          else s in
        Done (self_sane now s)
    end.

(** The loop of [CreateExchangeResponse] over the offset table. *)
Fixpoint entries_loop (entries : list (MapIndex * Z)) (acc : list TableEntry)
    (s : CClockSynchronizer) : outcome (CClockSynchronizer * list TableEntry) :=
  match entries with
  | [] => Done (s, acc)
  | (i, off) :: rest =>
      let '(sk, s) := skews_at i s in
      match GetWeight s i with
      | Throw what => Raised (s, acc) what
      | UB => Undefined
      | Ok w =>
          entries_loop rest
            (acc ++ [{| te_uuid := i.2; offset_secs := Z.quot off 1000000;
                        offset_fracs := Z.rem off 1000000; te_skew := sk; te_weight := w |}])
            s
      end
  end.

(** [CClockSynchronizer::HandleExchange] with
    [CClockSynchronizer::CreateExchangeResponse] at time [now] *)
Definition HandleExchange (s : CClockSynchronizer) (now : Z) (query : Z) (peer : string)
    : outcome CClockSynchronizer :=
  match entries_loop (map_to_list (m_offsets s)) [] s with
  | Undefined => Undefined
  | Raised (s, _) what => Raised s what
  | Done (s, table) =>
      let erm := {| response := query; unsynchronized_sendtime := Some now;
                    table_entry := table |} in
      Done (with_sent (sent s ++ [(peer, EXCHANGE_RESPONSE_MESSAGE erm)]) s)
  end.

(** [CClockSynchronizer::HandleIncomingMessage] *)
Definition HandleIncomingMessage (s : CClockSynchronizer) (now : Z) (msg : ModuleMessage)
    (peer : string) : outcome CClockSynchronizer :=
  match msg with
  | None => Done s
  | Some (EXCHANGE_MESSAGE query) => HandleExchange s now query peer
  | Some (EXCHANGE_RESPONSE_MESSAGE m) => HandleExchangeResponse s now m peer
  end.

(** What can happen to a synchronizer: the exchange timer fires, or a
    message comes in. *)
Inductive event : Type :=
| Fire (now : Z) (err : bool) (peers : list string)
| Incoming (now : Z) (msg : ModuleMessage) (peer : string).

Definition step (s : CClockSynchronizer) (e : event) : outcome CClockSynchronizer :=
  match e with
  | Fire now err peers => Exchange s now err peers
  | Incoming now msg peer => HandleIncomingMessage s now msg peer
  end.

(** The states a synchronizer can be observed in: as constructed, and
    after any entry point has returned or has been left by an exception. *)
Inductive reachable : CClockSynchronizer -> Prop :=
| reach_ctor uuid now junk : reachable (ctor uuid now junk)
| reach_done s e s' : reachable s -> step s e = Done s' -> reachable s'
| reach_raised s e s' what : reachable s -> step s e = Raised s' what -> reachable s'.

(** *** The invariant of the tables *)

(** The pair of this node with itself. *)
Definition self_pair (s : CClockSynchronizer) : MapIndex := (m_uuid s, m_uuid s).

(** The self pair has offset 0, skew 0 and stored weight 1. *)
Definition self_entries_sane (s : CClockSynchronizer) : Prop :=
  m_offsets s !! self_pair s = Some 0%Z
  /\ m_skews s !! self_pair s = Some 0
  /\ fst <$> (m_weights s !! self_pair s) = Some 1.

(** Every response history has an even length of at most
    [2 * MAX_REGRESSION_ENTRIES]. *)
Definition responses_bounded (s : CClockSynchronizer) : Prop :=
  forall (key : MapIndex) (l : list TimeTuple),
    m_responses s !! key = Some l ->
    Nat.Even (length l) /\ (length l <= 2 * MAX_REGRESSION_ENTRIES)%nat.

(** What holds of the tables of the node with uuid [u] at every observable
    point; no query to the node itself is ever outstanding. *)
Definition sane (u : string) (s : CClockSynchronizer) : Prop :=
  m_uuid s = u
  /\ self_entries_sane s
  /\ m_queries s !! (u, u) = None
  /\ responses_bounded s.

(** The history that an accepted response leaves for its sender: two
    samples are appended, and the two oldest are dropped when that makes
    more than [2 * MAX_REGRESSION_ENTRIES]. *)
Definition spec_history (old : list TimeTuple) (response_time challenge now : Z)
    : list TimeTuple :=
  let grown := (old ++ [(response_time, challenge); (response_time, now)])%list in
  if Nat.ltb (2 * MAX_REGRESSION_ENTRIES) (length grown) then drop 2 grown else grown.

(** The histories after a call of [HandleExchangeResponse] as the
    specification has them: a response that answers the outstanding query
    of its sender, by its number, is recorded by [spec_history] for that
    sender; any other response, and any call on an unreadable send time,
    changes no history. *)
Definition spec_responses (s : CClockSynchronizer) (now : Z) (msg : ExchangeResponseMessage)
    (peer : string) : gmap MapIndex (list TimeTuple) :=
  match unsynchronized_sendtime msg, m_queries s !! (m_uuid s, peer) with
  | Some response_time, Some (qk, challenge) =>
      if (qk =? response msg)%Z then
        <[(m_uuid s, peer) :=
            spec_history (default [] (m_responses s !! (m_uuid s, peer)))
              response_time challenge now]> (m_responses s)
      else m_responses s
  | _, _ => m_responses s
  end.

(** *** Fixtures *)

(** Node "A" as constructed at time 0. *)
Definition fresh : CClockSynchronizer := ctor "A" 0 77.

(** The first round at 10 s with the peers "A" and "B", and the response
    of "B" to it, received 2 ms later, carrying an entry for "C". *)
Definition round0 : event := Fire 10000000 false ["A"; "B"].

Definition response0 : event :=
  Incoming 10002000
    (Some (EXCHANGE_RESPONSE_MESSAGE
             {| response := 0; unsynchronized_sendtime := Some 10501000%Z;
                table_entry := [{| te_uuid := "C"; offset_secs := 1; offset_fracs := 500;
                                   te_skew := 0; te_weight := 1 |}] |}))
    "B".

Definition after_round0 : CClockSynchronizer :=
  match step fresh round0 with Done s => s | _ => fresh end.

Definition after_response0 : CClockSynchronizer :=
  match step after_round0 response0 with Done s => s | _ => fresh end.

(** The second round at 20 s and the response of "B" to it. *)
Definition round1 : event := Fire 20000000 false ["A"; "B"].

Definition response1_message : ExchangeResponseMessage :=
  {| response := 1; unsynchronized_sendtime := Some 20501000%Z; table_entry := [] |}.

Definition after_round1 : CClockSynchronizer :=
  match step after_response0 round1 with Done s => s | _ => fresh end.

Definition after_response1 : CClockSynchronizer :=
  match HandleExchangeResponse after_round1 20002000 response1_message "B" with
  | Done s => s
  | _ => fresh
  end.

(** The state after the second round with a full history for "B": two
    old samples followed by 398 others. *)
Definition crowded : CClockSynchronizer :=
  with_responses
    (<[("A", "B") := ([(1, 2); (3, 4)]%Z ++ replicate 398 (5, 6)%Z)%list]>
       (m_responses after_round1))
    after_round1.

End Clock.

(** ** Dispatch solver: topology loading and start-up (DispatchAlgo.cpp) *)
Module DDAStart.

Local Open Scope Q_scope.

(** The members that [LoadTopology] and [DESDScheduledMethod] write. *)
Record Topology : Type := {
  m_adjlist : gmap string (gset string);
  m_strans : gmap string string;
  m_localsymbol : string;
  m_localadj : gset string;
  m_adjnum : Z;
  epsil : Q
}.

(** The members as the constructor leaves them; [epsil] is not
    initialised there and is given by the caller. *)
Definition unloaded (epsil0 : Q) : Topology :=
  {| m_adjlist := ∅; m_strans := ∅; m_localsymbol := ""; m_localadj := ∅;
     m_adjnum := 0; epsil := epsil0 |}.

(** The neighbours recorded for a vertex, none when it has no entry. *)
Definition neighbours (adj : gmap string (gset string)) (v : string) : gset string :=
  default ∅ (adj !! v).

(** [m_adjlist[v1].insert(v2); m_adjlist[v2].insert(v1);] after both
    entries have been created when missing. *)
Definition add_edge (v1 v2 : string) (adj : gmap string (gset string))
    : gmap string (gset string) :=
  let adj := <[v1 := {[v2]} ∪ neighbours adj v1]> adj in
  <[v2 := {[v1]} ∪ neighbours adj v2]> adj.

(** The token loop of [LoadTopology] over the words of the file, for the
    node with uuid [uuid]. *)
Fixpoint read_tokens (uuid : string) (ws : list string) (t : Topology) : outcome Topology :=
  match ws with
  | [] => Done t
  | token :: rest =>
      if String.eqb token "edge" then
        match rest with
        | v_symbol1 :: v_symbol2 :: rest =>
            read_tokens uuid rest
              {| m_adjlist := add_edge v_symbol1 v_symbol2 (m_adjlist t);
                 m_strans := m_strans t; m_localsymbol := m_localsymbol t;
                 m_localadj := m_localadj t; m_adjnum := m_adjnum t; epsil := epsil t |}
        | _ => Raised t "Failed to Reading Edge Topology Entry."
        end
      else if String.eqb token "sst" then
        match rest with
        | vsymbol :: id :: rest =>
            read_tokens uuid rest
              {| m_adjlist := m_adjlist t;
                 m_strans := <[vsymbol := id]> (m_strans t);
                 m_localsymbol := if String.eqb id uuid then vsymbol else m_localsymbol t;
                 m_localadj := m_localadj t; m_adjnum := m_adjnum t; epsil := epsil t |}
        | _ => Raised t "Failed Reading Vertex Topology Entry."
        end
      else Raised t "Physical Topology: Input Topology File is Malformed."
  end.

(** The loop of [LoadTopology] over the adjacency map: the adjacency of
    the local symbol and the largest degree. *)
Definition scan_degrees (t : Topology) : gset string * nat :=
  fold_left
    (fun '(localadj, maxSize) (mp : string * gset string) =>
       let localadj := if String.eqb mp.1 (m_localsymbol t) then mp.2 else localadj in
       let maxSize := if Nat.leb maxSize (size mp.2) then size mp.2 else maxSize in
       (localadj, maxSize))
    (map_to_list (m_adjlist t)) (m_localadj t, 0%nat).

(** What the topology configuration offers: no path, a path that does
    not open, or the text of the file. *)
Inductive TopologyFile : Type :=
| NoPath
| Unreadable
| Contents (text : string).

(** [DDAAgent::LoadTopology] for the node with uuid [uuid]. *)
Definition LoadTopology (uuid : string) (file : TopologyFile) (t : Topology)
    : outcome Topology :=
  match file with
  | NoPath => Done t
  | Unreadable => Raised t "Couldn't open physical topology file."
  | Contents text =>
      match read_tokens uuid (Arm.words text) t with
      | Done t =>
          let '(localadj, maxSize) := scan_degrees t in
          Done {| m_adjlist := m_adjlist t; m_strans := m_strans t;
                  m_localsymbol := m_localsymbol t; m_localadj := localadj;
                  m_adjnum := Z.of_nat (size localadj);
                  epsil := 1 / inject_Z (Z.of_nat maxSize + 1) |}
      | other => other
      end
  end.

(** The part of [DDAAgent::DESDScheduledMethod] after [LoadTopology]:
    the two ratios.  [m_adjlist.find(m_localsymbol)->second] has no defined
    result when the local symbol has no entry. *)
Definition ratios (t : Topology) : option (Q * Q) :=
  match m_adjlist t !! m_localsymbol t with
  | None => None
  | Some adjset =>
      let m_adjratio := epsil t in
      let m_localratio := 1 - inject_Z (Z.of_nat (size adjset)) * epsil t in
      Some (m_localratio, m_adjratio)
  end.

(** The grammar of the file: a sequence of edge and vertex entries. *)
Inductive entries : list string -> Prop :=
| entries_nil : entries []
| entries_edge v1 v2 rest : entries rest -> entries ("edge" :: v1 :: v2 :: rest)
| entries_sst v id rest : entries rest -> entries ("sst" :: v :: id :: rest).

(** The edges that the token loop has read when it ends: those of the
    complete entries before the end of the words or the first word that
    starts no entry. *)
Fixpoint edges_read (ws : list string) : list (string * string) :=
  match ws with
  | [] => []
  | token :: rest =>
      if String.eqb token "edge" then
        match rest with
        | v_symbol1 :: v_symbol2 :: rest => (v_symbol1, v_symbol2) :: edges_read rest
        | _ => []
        end
      else if String.eqb token "sst" then
        match rest with
        | _ :: _ :: rest => edges_read rest
        | _ => []
        end
      else []
  end.

(** The edges read from what the configuration offers. *)
Definition edges_of (file : TopologyFile) : list (string * string) :=
  match file with
  | Contents text => edges_read (Arm.words text)
  | _ => []
  end.

(** An adjacency map is symmetric. *)
Definition symmetric (adj : gmap string (gset string)) : Prop :=
  forall u v, v ∈ neighbours adj u <-> u ∈ neighbours adj v.

(** The state of an [outcome], when there is one. *)
Definition reached {S : Type} (o : outcome S) : option S :=
  match o with
  | Done s | Raised s _ => Some s
  | Undefined => None
  end.

(** A three-node chain "1" - "2" - "3" as seen by the node of "2". *)
Definition chain_file : TopologyFile :=
  Contents "edge 1 2 edge 2 3 sst 1 uuid-1 sst 2 uuid-2 sst 3 uuid-3".

End DDAStart.

(** ** Dispatch solver: a round of messages *)
Module DDARound.
Import DDA.
Local Open Scope Q_scope.

(** The messages of one round handled in the order of arrival. *)
Definition handle_all (s : DDAAgent) (msgs : list DesdStateMessage) : DDAAgent :=
  fold_left HandleUpdate msgs s.

(** A message that [HandleUpdate] takes in: of the current iteration and
    from an adjacent symbol. *)
Definition taken_in (s : DDAAgent) (msg : DesdStateMessage) : Prop :=
  iteration msg = m_iteration s /\ symbol msg ∈ m_localadj s.

(** The peers that [sendtoAdjList] reaches: the uuids of the adjacent
    symbols that have one. *)
Definition targets (s : DDAAgent) : list string :=
  omap (fun symbolid => m_strans s !! symbolid) (elements (m_localadj s)).

(** Whether a message is the one that closes the round: it is taken in
    and it brings the neighbour counter to zero. *)
Definition closing (s : DDAAgent) (msg : DesdStateMessage) : bool :=
  (iteration msg =? m_iteration s)%Z
  && bool_decide (symbol msg ∈ m_localadj s)
  && (m_adjnum s - 1 =? 0)%Z.

(** The update of the power by the role of the local symbol. *)
Definition role_update (s : DDAAgent) : DDAAgent :=
  if is_desd_symbol (m_localsymbol s) then desd_update s
  else if String.eqb (m_localsymbol s) "1" then grid_update s
  else s.

(** What no stage of a round but the counter reload, the iteration step
    and the broadcast touches. *)
Definition same_frame (s s' : DDAAgent) : Prop :=
  m_iteration s' = m_iteration s /\ m_localsymbol s' = m_localsymbol s
  /\ m_localadj s' = m_localadj s /\ DDA.m_strans s' = DDA.m_strans s
  /\ m_adjnum s' = m_adjnum s /\ DDA.sent s' = DDA.sent s.

(** The state of a closing round just before the broadcast: power and
    consensus updated, counter reloaded, iteration stepped. *)
Definition stepped (s : DDAAgent) : DDAAgent :=
  let s := deltaPLambdaUpdate (role_update (with_adjnum 0 s)) in
  let s := with_adjnum (Z.of_nat (size (m_localadj s))) s in
  with_iteration (m_iteration s + 1)%Z s.

(** The last loop of [HandleUpdate]: both sums are set to zero. *)
Definition clear_sums (s : DDAAgent) : DDAAgent :=
  for3 (fun i s =>
    let s := with_adjdeltaP (set (m_adjdeltaP s) i 0) s in
    with_adjlambda (set (m_adjlambda s) i 0) s) s.

End DDARound.

(** ** Load balancer: the periodic tick and the wire (LoadBalanceAccommodatingPMCU.cpp) *)
Module LBTick.
Import LB.
Local Open Scope Q_scope.

Definition with_Status (v : EStatus) (s : lbAgent) : lbAgent :=
  {| uuid := uuid s; m_Leader := m_Leader s; m_Status := v; m_PStar := m_PStar s;
     m_DemandVal := m_DemandVal s; m_AllPeers := m_AllPeers s; m_HiNodes := m_HiNodes s;
     m_LoNodes := m_LoNodes s; m_NoNodes := m_NoNodes s;
     m_phyDevManager := m_phyDevManager s; outbox := outbox s; log := log s |}.

Definition with_DemandVal (v : Q) (s : lbAgent) : lbAgent :=
  {| uuid := uuid s; m_Leader := m_Leader s; m_Status := m_Status s; m_PStar := m_PStar s;
     m_DemandVal := v; m_AllPeers := m_AllPeers s; m_HiNodes := m_HiNodes s;
     m_LoNodes := m_LoNodes s; m_NoNodes := m_NoNodes s;
     m_phyDevManager := m_phyDevManager s; outbox := outbox s; log := log s |}.

(** The net values that [LoadTable] reads from the device manager and
    compares: generation, load and grid flow. *)
Record Readings : Type := { m_Gen : Q; m_Load : Q; m_Grid : Q }.

(** [lbAgent::LoadTable] on the readings [r]; [NORMAL_TOLERANCE] is
    declared outside this file.  The printing of the table is left out.
    The two thresholds are compared exactly, where the source compares
    rounded doubles: which status comes out can differ at the edge of the
    band, and the properties below are stated for whichever status comes
    out. *)
Definition LoadTable (NORMAL_TOLERANCE : Q) (r : Readings) (s : lbAgent) : lbAgent :=
  let s :=
    if Qltb (m_Load r) (m_Gen r - m_Grid r - NORMAL_TOLERANCE) then with_Status SUPPLY s
    else if Qgtb (m_Load r) (m_Gen r - m_Grid r + NORMAL_TOLERANCE) then
      with_DemandVal (m_Load r - m_Gen r) (with_Status DEMAND s)
    else with_Status NORM s in
  if bool_decide (uuid s ∈ m_AllPeers s) then
    let self_ := uuid s in
    let s := with_LoNodes (m_LoNodes s ∖ {[self_]}) s in
    let s := with_HiNodes (m_HiNodes s ∖ {[self_]}) s in
    let s := with_NoNodes (m_NoNodes s ∖ {[self_]}) s in
    match m_Status s with
    | SUPPLY => with_LoNodes ({[self_]} ∪ m_LoNodes s) s
    | NORM => with_NoNodes ({[self_]} ∪ m_NoNodes s) s
    | DEMAND => with_HiNodes ({[self_]} ∪ m_HiNodes s) s
    end
  else s.

(** [lbAgent::LoadManage()]; the restart of the timer is left out. *)
Definition LoadManage (NORMAL_TOLERANCE : Q) (r : Readings) (s : lbAgent) : lbAgent :=
  let m_prevStatus := m_Status s in
  let s := LoadTable NORMAL_TOLERANCE r s in
  if status_eqb DEMAND (m_Status s) then SendMsg "demand" (m_AllPeers s) s
  else if status_eqb DEMAND m_prevStatus && status_eqb NORM (m_Status s) then
    SendMsg "normal" (m_AllPeers s) s
  else if status_eqb SUPPLY (m_Status s) then SendDraftRequest s
  else s.

(** The message that a peer reads when the node [from] has sent it an lb
    message: [render] is the text that the stream makes of a value. *)
Definition on_the_wire (render : Q -> string) (from : string) (m : Outgoing) : CMessage :=
  match m with
  | OutLb kind value =>
      {| src := from; any := None; any_peers := None; lb := Some kind;
         lb_source := Some from; lb_value := option_map render value;
         cs_gateway := None; cs_intransit := None |}
  | OutScRequest =>
      {| src := from; any := None; any_peers := None; lb := None;
         lb_source := None; lb_value := None; cs_gateway := None; cs_intransit := None |}
  end.

(** The peer tables are in order: this node is a known peer, every
    classified peer is known, and no peer is in two classes. *)
Definition tables_in_order (s : lbAgent) : Prop :=
  uuid s ∈ m_AllPeers s
  /\ m_HiNodes s ∪ m_LoNodes s ∪ m_NoNodes s ⊆ m_AllPeers s
  /\ m_HiNodes s ## m_LoNodes s /\ m_HiNodes s ## m_NoNodes s /\ m_LoNodes s ## m_NoNodes s.

(** The class in which a status puts a node. *)
Definition class_of (st : EStatus) (s : lbAgent) : gset string :=
  match st with
  | SUPPLY => m_LoNodes s
  | NORM => m_NoNodes s
  | DEMAND => m_HiNodes s
  end.

(** Holds of the state an outcome has reached, if any. *)
Definition holds_after (P : lbAgent -> Prop) (o : outcome lbAgent) : Prop :=
  match o with
  | Done s | Raised s _ => P s
  | Undefined => True
  end.

(** The messages a handler or a tick has added to the outbox. *)
Definition added (before after : lbAgent) (new : list (string * Outgoing)) : Prop :=
  outbox after = (outbox before ++ new)%list.

(** Two states that differ in the outbox and the log at most. *)
Definition same_node (s s' : lbAgent) : Prop :=
  uuid s' = uuid s /\ m_Leader s' = m_Leader s /\ m_Status s' = m_Status s
  /\ m_PStar s' = m_PStar s /\ m_DemandVal s' = m_DemandVal s
  /\ m_AllPeers s' = m_AllPeers s /\ m_HiNodes s' = m_HiNodes s
  /\ m_LoNodes s' = m_LoNodes s /\ m_NoNodes s' = m_NoNodes s
  /\ m_phyDevManager s' = m_phyDevManager s.

(** Two states with the same identity, status, setpoint, demand and
    device commands: what the node does to its plant. *)
Definition same_plant (s s' : lbAgent) : Prop :=
  uuid s' = uuid s /\ m_Status s' = m_Status s /\ m_PStar s' = m_PStar s
  /\ m_DemandVal s' = m_DemandVal s /\ m_phyDevManager s' = m_phyDevManager s.

(** [msg] is an lb message of the kind [kind] sent by [from]. *)
Definition lb_from (msg : CMessage) (from kind : string) : Prop :=
  src msg = from /\ any msg <> Some "PeerList" /\ lb msg = Some kind.

(** The states of a running agent: made by the constructor, then driven
    by messages (handled to the end, or left by an exception) and by the
    load timer. *)
Inductive running (NORMAL_TOLERANCE : Q) : lbAgent -> Prop :=
| running_ctor (uuid_ : string) (status0 : EStatus) (demand0 : Q)
    (phy : CPhysicalDeviceManager) (s : lbAgent) :
    lbAgent_ctor uuid_ status0 demand0 phy = Done s -> running NORMAL_TOLERANCE s
| running_read (s : lbAgent) (msg : CMessage) (s' : lbAgent) :
    running NORMAL_TOLERANCE s -> HandleRead s msg = Done s' -> running NORMAL_TOLERANCE s'
| running_raised (s : lbAgent) (msg : CMessage) (s' : lbAgent) (what : string) :
    running NORMAL_TOLERANCE s -> HandleRead s msg = Raised s' what ->
    running NORMAL_TOLERANCE s'
| running_tick (s : lbAgent) (r : Readings) :
    running NORMAL_TOLERANCE s -> running NORMAL_TOLERANCE (LoadManage NORMAL_TOLERANCE r s).

(** What a handler may do with the outbox: add nothing, or one message
    to [to]. *)
Definition replied (to : string) (s s' : lbAgent) : Prop :=
  exists new, added s s' new /\ (new = [] \/ exists m, new = [(to, m)]).

(** The node "A" as the constructor makes it, with status NORM. *)
Definition started : lbAgent :=
  {| uuid := "A"; m_Leader := "A"; m_Status := NORM; m_PStar := 0; m_DemandVal := 0;
     m_AllPeers := {["A"]}; m_HiNodes := ∅; m_LoNodes := ∅; m_NoNodes := ∅;
     m_phyDevManager := [Set_ desd1 "onOffSwitch" 0; Set_ dg1 "onOffSwitch" 1; sst1];
     outbox := [];
     log := [(Notice, "DESD turned on "); (Notice, "DG turned on ")] |}.

(** The DEMAND node "B" with a demand of 2, knowing the node "A". *)
Definition demander : lbAgent :=
  {| uuid := "B"; m_Leader := "A"; m_Status := DEMAND; m_PStar := 0; m_DemandVal := 2;
     m_AllPeers := {["A"; "B"]}; m_HiNodes := {["B"]}; m_LoNodes := ∅;
     m_NoNodes := {["A"]}; m_phyDevManager := [desd1; dg1; sst1]; outbox := []; log := [] |}.

(** Readings of a node that consumes more than it generates. *)
Definition short_of_power : Readings := {| m_Gen := 1; m_Load := 4; m_Grid := 0 |}.

End LBTick.

(** ** Plug-and-play adapter: the receive buffer, the session and the
    command packet (CArmAdapter.cpp) *)
Module ArmTx.
Import Arm.

(** The value that the lines of a packet report for a buffer slot: the
    cast of the value of the first line whose device has the slot. *)
Definition reported {SignalValue : Type} (lexical_cast : string -> option SignalValue)
    (identifier : string) (stateInfo : gmap string nat) (ls : list line) (i : nat)
    : option SignalValue :=
  match List.find (fun l => bool_decide (slot_of identifier stateInfo l = Some i)) ls with
  | Some l => lexical_cast l.2
  | None => None
  end.

(** [std::string::find_last_of] for one character: the scan carries the
    position [i] and the last position found; [None] is [npos]. *)
Fixpoint find_last_from (c : ascii) (text : string) (i : nat) (found : option nat)
    : option nat :=
  match text with
  | EmptyString => found
  | String d rest => find_last_from c rest (S i) (if Ascii.eqb d c then Some i else found)
  end.

Definition find_last_of (c : ascii) (text : string) : option nat :=
  find_last_from c text 0 None.

(** [std::string::substr(pos)], for [pos] up to the length. *)
Definition substr (pos : nat) (text : string) : string :=
  String.substring pos (String.length text - pos) text.

(** "remove the hostname identifier": [devname.substr(find_last_of(":") + 1)];
    with no colon the position is [npos], and [npos + 1] is 0. *)
Definition local_name (devname : string) : string :=
  match find_last_of ":" devname with
  | Some index => substr (index + 1) devname
  | None => substr 0 devname
  end.

(** A text without a colon. *)
Fixpoint no_colon (w : string) : bool :=
  match w with
  | EmptyString => true
  | String c rest => negb (Ascii.eqb c ":") && no_colon rest
  end.

(** A text that [stream >> word] reads back as one word: not empty and
    free of white space. *)
Fixpoint no_space (w : string) : bool :=
  match w with
  | EmptyString => true
  | String c rest => negb (isspace c) && no_space rest
  end.

Definition is_word (w : string) : bool :=
  negb (String.eqb w "") && no_space w.

Section Commands.

(** [m_txBuffer] and the text that [packet << value] makes of a value are
    declared outside this file: the buffer is read by [operator[]]. *)
Variable SignalValue : Type.
Variable show : SignalValue -> string.

(** One entry of [m_commandInfo], in iteration order: device name and
    signal, and the slot of the transmit buffer. *)
Definition CommandEntry : Type := ((string * string) * nat)%type.

(** The line that the loop of [SendCommandPacket] writes for an entry. *)
Definition command_line (m_txBuffer : nat -> SignalValue) (it : CommandEntry) : string :=
  let devname := it.1.1 in
  let signal := it.1.2 in
  let devname := local_name devname in
  let value := m_txBuffer it.2 in
  devname ++ " " ++ signal ++ " " ++ show value ++ CRLF.

Definition command_packet (m_commandInfo : list CommandEntry)
    (m_txBuffer : nat -> SignalValue) : string :=
  fold_left (fun packet it => packet ++ command_line m_txBuffer it) m_commandInfo "" ++ CRLF.

(** [CArmAdapter::SendCommandPacket] at time [now]; [sent_ok] is whether
    [SendData] succeeds (its exception is caught and skipped). *)
Definition SendCommandPacket (m_commandInfo : list CommandEntry)
    (m_txBuffer : nat -> SignalValue) (now : Z) (sent_ok : bool)
    (s : CArmAdapter SignalValue) : CArmAdapter SignalValue :=
  let s := if sent_ok then
             Heartbeat now
               (with_responses
                  (responses s ++ [command_packet m_commandInfo m_txBuffer])%list s)
           else s in
  with_command {| expiry := (now + seconds 2)%Z; waiting := true |} s.

(** The three words of the line of an entry. *)
Definition command_words (m_txBuffer : nat -> SignalValue) (it : CommandEntry) : list string :=
  [local_name it.1.1; it.1.2; show (m_txBuffer it.2)].

End Commands.

Arguments command_line {SignalValue} _ _ _.
Arguments command_packet {SignalValue} _ _ _.
Arguments SendCommandPacket {SignalValue} _ _ _ _ _ _.
Arguments command_words {SignalValue} _ _ _.

(** The text of a natural number in unary, as a stand-in for the
    printing of a value in the examples. *)
Definition tally (n : N) : string := String.concat "" (repeat "1" (N.to_nat n + 1)).

End ArmTx.

(** ** Clock synchronizer: rounds, replies and exceptions (CClockSynchronizer.cpp) *)
Module ClockRun.
Import Clock.

(** Every pair with an offset has a weight and the round of its last
    response: what [GetWeight] looks up for the pairs of the offset
    table. *)
Definition aligned (s : CClockSynchronizer) : Prop :=
  forall i, is_Some (m_offsets s !! i) ->
            is_Some (m_weights s !! i) /\ is_Some (m_lastresponse s !! i).

(** Two states that differ in the skew table at most. *)
Definition same_but_skews (s s' : CClockSynchronizer) : Prop :=
  m_uuid s' = m_uuid s /\ m_kcounter s' = m_kcounter s /\ m_offsets s' = m_offsets s
  /\ m_weights s' = m_weights s /\ m_lastresponse s' = m_lastresponse s
  /\ m_queries s' = m_queries s /\ m_responses s' = m_responses s
  /\ m_myoffset s' = m_myoffset s /\ m_myskew s' = m_myskew s
  /\ ClockSkew s' = ClockSkew s /\ Clock.sent s' = Clock.sent s.

(** An exchange response whose send time [time_from_string] rejects. *)
Definition malformed (e : event) : Prop :=
  match e with
  | Incoming _ (Some (EXCHANGE_RESPONSE_MESSAGE m)) _ => unsynchronized_sendtime m = None
  | _ => False
  end.

(** The challenges of a round: the messages sent and the query records
    made for the peers [targets] in round [k] at time [now]. *)
Definition challenges (k : Z) (targets : list string)
    : list (string * ClockSynchronizerMessage) :=
  map (fun peer => (peer, EXCHANGE_MESSAGE k)) targets.

Definition challenged (u : string) (k now : Z) (targets : list string)
    (queries : gmap MapIndex (Z * Z)) (key : MapIndex) : option (Z * Z) :=
  if bool_decide (key.1 = u /\ key.2 ∈ targets) then Some (k, now) else queries !! key.

End ClockRun.

(** * Properties *)

(** ** Dispatch solver *)
Section DispatchProperties.
Import DDA.
Local Open Scope Q_scope.

Lemma for3_unfold {S : Type} (body : idx -> S -> S) (s : S) :
  for3 body s = body I2 (body I1 (body I0 s)).
Proof. reflexivity. Qed.

(** While more than one neighbour is outstanding, a message of the
    current iteration from an adjacent symbol is added to both
    accumulators. *)
Lemma HandleUpdate_accumulates (s : DDAAgent) (msg : DesdStateMessage) :
  iteration msg = m_iteration s ->
  symbol msg ∈ m_localadj s ->
  m_adjnum s <> 1%Z ->
  m_adjdeltaP (HandleUpdate s msg)
    = Arr3 (a0 (m_adjdeltaP s) + deltapstep1 msg) (a1 (m_adjdeltaP s) + deltapstep2 msg)
           (a2 (m_adjdeltaP s) + deltapstep3 msg)
  /\ m_adjlambda (HandleUpdate s msg)
    = Arr3 (a0 (m_adjlambda s) + lambdastep1 msg) (a1 (m_adjlambda s) + lambdastep2 msg)
           (a2 (m_adjlambda s) + lambdastep3 msg)
  /\ m_adjnum (HandleUpdate s msg) = (m_adjnum s - 1)%Z.
Proof.
  intros Hit Hadj Hnum. unfold HandleUpdate.
  rewrite Hit, Z.eqb_refl, bool_decide_eq_true_2 by exact Hadj.
  cbn [m_adjnum with_adjnum].
  destruct (Z.eqb_spec (m_adjnum s - 1) 0) as [E | _]; [lia |].
  cbn. auto.
Qed.

(** The message that brings the counter to zero is not looked at beyond
    its iteration and symbol: any two such messages leave the same
    state. *)
Lemma HandleUpdate_last_message_ignored (s : DDAAgent) (m1 m2 : DesdStateMessage) :
  m_adjnum s = 1%Z ->
  iteration m1 = iteration m2 ->
  symbol m1 = symbol m2 ->
  HandleUpdate s m1 = HandleUpdate s m2.
Proof.
  intros Hnum Hit Hsym. unfold HandleUpdate. rewrite Hit, Hsym.
  destruct (iteration m2 =? m_iteration s)%Z; [| reflexivity].
  destruct (bool_decide (symbol m2 ∈ m_localadj s)); [| reflexivity].
  cbn [m_adjnum with_adjnum]. rewrite Hnum. reflexivity.
Qed.

(** C1 (the code at the failing input).  Node "2" has two neighbours.  The
    state of "1" (residual 4) is accumulated, the state of "3" (residual 8)
    brings the counter to zero and is not: the consensus update runs on the
    sum 4 and yields the residual 1/2*0 + 1/4*4 = 1, where accumulating
    before the test, as the specification words it, gives 1/4*12 = 3. *)
Theorem HandleUpdate_drops_closing_contribution :
  let s1 := HandleUpdate node2 (state_of "1" 0 4 0) in
  let s2 := HandleUpdate s1 (state_of "3" 0 8 0) in
  arr3_eq (m_adjdeltaP s1) (Arr3 4 4 4)
  /\ m_adjnum s1 = 1%Z
  /\ m_iteration s2 = 1%Z
  /\ arr3_eq (m_inideltaP s2) (Arr3 1 1 1)
  /\ arr3_eq
       (m_inideltaP (spec_HandleUpdate (spec_HandleUpdate node2 (state_of "1" 0 4 0))
                                       (state_of "3" 0 8 0)))
       (Arr3 3 3 3).
Proof. vm_compute. repeat split; reflexivity. Qed.

(** The handler keeps no record of who reported: a second state of the
    same neighbour in the same iteration is counted like the state of
    another one, and here closes the round of node "2". *)
Lemma HandleUpdate_counts_repeated_symbol :
  let s1 := HandleUpdate node2 (state_of "1" 0 4 0) in
  let s2 := HandleUpdate s1 (state_of "1" 0 4 0) in
  m_adjnum s1 = 1%Z /\ m_iteration s2 = 1%Z /\ arr3_eq (m_inideltaP s2) (Arr3 1 1 1).
Proof. vm_compute. repeat split; reflexivity. Qed.

(** The values that [deltaPLambdaUpdate] commits, slot by slot. *)
Lemma deltaPLambdaUpdate_next (s : DDAAgent) (i : idx) :
  get (m_nextdeltaP (deltaPLambdaUpdate s)) i = get (m_inideltaP (deltaPLambdaUpdate s)) i
  /\ get (m_nextlambda (deltaPLambdaUpdate s)) i = get (m_inilambda (deltaPLambdaUpdate s)) i.
Proof.
  unfold deltaPLambdaUpdate.
  destruct (Z.rem (m_iteration s) inner_iter =? 0)%Z; destruct i; split; reflexivity.
Qed.

(** C2 (counterexample).  In iteration 1 with local ratio 1/2, residual 1
    and previous next-residual 0, the code commits 1 + 1 - 0 = 2 and the
    price 1 + 1/2 = 3/2; the claimed formulas give 1/2 + 1 - 0 = 3/2 and
    1/2 + 1/2 = 1. *)
Lemma deltaPLambdaUpdate_uncoupled_not_as_claimed :
  Z.rem (m_iteration node2_inner) inner_iter <> 0%Z
  /\ ~ get (m_inideltaP (deltaPLambdaUpdate node2_inner)) I0 == spec_deltaP_next node2_inner I0
  /\ ~ get (m_inilambda (deltaPLambdaUpdate node2_inner)) I0 == spec_lambda_next node2_inner I0
  /\ get (m_inideltaP (deltaPLambdaUpdate node2_inner)) I0 == 2
  /\ spec_deltaP_next node2_inner I0 == 1.5.
Proof. vm_compute. repeat split; discriminate. Qed.

(** C2 (amended).  In an iteration that is a multiple of [inner_iter] the
    committed residual is
    [localratio*deltaP + adjratio*adjdeltaP + deltaP - nextdeltaP] and the
    committed price is [localratio*lambda + adjratio*adjdeltaP + eta*deltaP];
    in every other iteration they are [deltaP + deltaP - nextdeltaP] and
    [lambda + eta*deltaP]: neither the neighbour term nor the local ratio
    is applied.  [eta] is 1/2. *)
Theorem deltaPLambdaUpdate_formulas (s : DDAAgent) (i : idx) :
  get (m_inideltaP (deltaPLambdaUpdate s)) i
    = (if (Z.rem (m_iteration s) inner_iter =? 0)%Z
       then m_localratio s * get (m_inideltaP s) i + m_adjratio s * get (m_adjdeltaP s) i
            + get (m_inideltaP s) i - get (m_nextdeltaP s) i
       else get (m_inideltaP s) i + get (m_inideltaP s) i - get (m_nextdeltaP s) i)
  /\ get (m_inilambda (deltaPLambdaUpdate s)) i
    = (if (Z.rem (m_iteration s) inner_iter =? 0)%Z
       then m_localratio s * get (m_inilambda s) i + m_adjratio s * get (m_adjdeltaP s) i
            + eta * get (m_inideltaP s) i
       else get (m_inilambda s) i + eta * get (m_inideltaP s) i)
  /\ eta == 1 # 2.
Proof.
  unfold deltaPLambdaUpdate.
  destruct (Z.rem (m_iteration s) inner_iter =? 0)%Z; destruct i;
    (split; [reflexivity | split; [reflexivity | reflexivity]]).
Qed.

(** Unfolding of the record plumbing, without touching the arithmetic. *)
Ltac dda_reduce :=
  cbv beta iota zeta delta
    [desd_power desd_residuals desd_duals for3 fold_left get set
     with_iteration with_adjnum with_inideltaP with_inilambda with_nextdeltaP
     with_nextlambda with_adjdeltaP with_adjlambda with_deltaP1 with_deltaP2
     with_inimu with_inixi with_nextmu with_nextxi with_inipower with_nextpower
     with_sent
     m_iteration m_localsymbol m_localadj m_strans m_adjnum m_localratio m_adjratio
     m_inideltaP m_inilambda m_nextdeltaP m_nextlambda m_adjdeltaP m_adjlambda
     m_deltaP1 m_deltaP2 m_inimu m_inixi m_nextmu m_nextxi m_inipower m_nextpower
     DDA.sent a0 a1 a2 cumulative_energy].

(** The power stage commits what it computed and leaves the duals
    alone. *)
Lemma desd_power_commits (s : DDAAgent) :
  m_inipower (desd_power s) = m_nextpower (desd_power s)
  /\ m_inimu (desd_power s) = m_inimu s /\ m_inixi (desd_power s) = m_inixi s.
Proof. destruct s. dda_reduce. repeat split. Qed.

(** The residual stage, slot by slot, and what it leaves alone. *)
Lemma desd_residuals_spec (s : DDAAgent) :
  (forall i, get (m_deltaP1 (desd_residuals s)) i
             = get E_init i - get E_full i - cumulative_energy (m_nextpower s) i)
  /\ (forall i, get (m_deltaP2 (desd_residuals s)) i
                = cumulative_energy (m_nextpower s) i - get E_init i)
  /\ m_inipower (desd_residuals s) = m_inipower s
  /\ m_nextpower (desd_residuals s) = m_nextpower s
  /\ m_inimu (desd_residuals s) = m_inimu s /\ m_inixi (desd_residuals s) = m_inixi s.
Proof.
  destruct s. repeat split; try (intros []; dda_reduce; reflexivity).
Qed.

(** The dual stage, slot by slot, and what it leaves alone. *)
Lemma desd_duals_spec (s : DDAAgent) :
  (forall i, get (m_inimu (desd_duals s)) i
             = let t := Qtrunc (get (m_inimu s) i + eta * get (m_deltaP1 s) i) in
               if (t >? 0)%Z then inject_Z t else 0)
  /\ (forall i, get (m_inixi (desd_duals s)) i
                = let t := Qtrunc (get (m_inixi s) i + eta * get (m_deltaP2 s) i) in
                  if (t >? 0)%Z then inject_Z t else 0)
  /\ m_inipower (desd_duals s) = m_inipower s
  /\ m_nextpower (desd_duals s) = m_nextpower s
  /\ m_deltaP1 (desd_duals s) = m_deltaP1 s /\ m_deltaP2 (desd_duals s) = m_deltaP2 s.
Proof.
  destruct s. repeat split; try (intros []; dda_reduce; reflexivity).
Qed.

(** The residuals of the storage branch are recomputed from the committed
    power as the specification has them. *)
Lemma desd_update_residuals (s : DDAAgent) (i : idx) :
  let s' := desd_update s in
  m_inipower s' = m_nextpower s'
  /\ get (m_deltaP1 s') i = get E_init i - get E_full i - cumulative_energy (m_inipower s') i
  /\ get (m_deltaP2 s') i = cumulative_energy (m_inipower s') i - get E_init i.
Proof.
  cbv zeta. unfold desd_update.
  destruct (desd_duals_spec (desd_residuals (desd_power s))) as (_ & _ & Hp & Hn & H1 & H2).
  destruct (desd_residuals_spec (desd_power s)) as (R1 & R2 & Rp & Rn & _ & _).
  destruct (desd_power_commits s) as (Pc & _ & _).
  rewrite Hp, Hn, H1, H2, Rp, Rn, R1, R2, Pc. repeat split.
Qed.

(** The dual variables of the storage branch are projected after the sum
    has passed through an [int]: the fraction is cut off before the
    comparison with zero. *)
Lemma desd_update_projection (s : DDAAgent) (i : idx) :
  let s' := desd_update s in
  let tmu := Qtrunc (get (m_inimu s) i + eta * get (m_deltaP1 s') i) in
  let txi := Qtrunc (get (m_inixi s) i + eta * get (m_deltaP2 s') i) in
  get (m_inimu s') i = (if (tmu >? 0)%Z then inject_Z tmu else 0)
  /\ get (m_inixi s') i = (if (txi >? 0)%Z then inject_Z txi else 0).
Proof.
  cbv zeta. unfold desd_update.
  destruct (desd_duals_spec (desd_residuals (desd_power s))) as (Hmu & Hxi & _ & _ & H1 & H2).
  destruct (desd_residuals_spec (desd_power s)) as (_ & _ & _ & _ & Rmu & Rxi).
  destruct (desd_power_commits s) as (_ & Pmu & Pxi).
  rewrite Hmu, Hxi, H1, H2, Rmu, Rxi, Pmu, Pxi. split; reflexivity.
Qed.

(** C3 (the code at the failing input).  Storage node "4" commits the power
    -5 in all three slots, so the first residuals are 71, 141.5 and 220.5.
    With the duals at 0 the projection over the reals gives 35.5, 70.75 and
    110.25; the code stores 35, 70 and 110. *)
Theorem HandleUpdate_desd_projection_truncates :
  let s' := HandleUpdate desd4 (state_of "3" 0 0 0) in
  arr3_eq (m_inipower s') (Arr3 (-5) (-5) (-5))
  /\ arr3_eq (m_deltaP1 s') (Arr3 71 141.5 220.5)
  /\ arr3_eq (m_deltaP2 s') (Arr3 (-76) (-151.5) (-225.5))
  /\ arr3_eq (m_inimu s') (Arr3 35 70 110)
  /\ arr3_eq (Arr3 (spec_project (a0 (m_inimu desd4)) (a0 (m_deltaP1 s')))
                   (spec_project (a1 (m_inimu desd4)) (a1 (m_deltaP1 s')))
                   (spec_project (a2 (m_inimu desd4)) (a2 (m_deltaP1 s'))))
             (Arr3 35.5 70.75 110.25).
Proof. vm_compute. repeat split; reflexivity. Qed.

End DispatchProperties.

(** ** Load balancer *)
Section LoadBalanceProperties.
Import LB.
Local Open Scope Q_scope.




Lemma get_peer_add_peer (u : string) (s : lbAgent) :
  get_peer u (add_peer u s) = Some u.
Proof.
  unfold get_peer, add_peer. cbn.
  rewrite bool_decide_eq_true_2; [reflexivity | set_solver].
Qed.

Lemma get_peer_Some (u p : string) (s : lbAgent) : get_peer u s = Some p -> p = u.
Proof. unfold get_peer. destruct (bool_decide _); congruence. Qed.

(** A message from another node finds or creates the entry of its sender;
    this touches the peer sets only. *)
Lemma sender_entry_other (s : lbAgent) (line_ : string) :
  line_ <> uuid s ->
  exists s0,
    sender_entry s line_ = (s0, Some line_)
    /\ m_phyDevManager s0 = m_phyDevManager s /\ m_PStar s0 = m_PStar s
    /\ m_Status s0 = m_Status s /\ outbox s0 = outbox s /\ log s0 = log s
    /\ uuid s0 = uuid s.
Proof.
  intros Hne. unfold sender_entry.
  rewrite (proj2 (String.eqb_neq _ _) Hne). cbn [negb].
  destruct (get_peer line_ s) as [p |] eqn:E.
  - apply get_peer_Some in E. subst p. exists s. repeat split.
  - exists (add_peer line_ s). cbv zeta. rewrite get_peer_add_peer. repeat split.
Qed.

(** C4 (counterexample).  The SUPPLY node "A" with an SST receives the
    accept of "B": the handler returns, no level is commanded on the SST and
    [m_PStar] is still 0, where stepping the setpoint as claimed commands
    the level 1. *)
Lemma HandleRead_accept_sets_nothing :
  m_Status supplier = SUPPLY
  /\ match HandleRead supplier accept_from_B with
     | Done s' => commanded SST "level" s' = None /\ m_PStar s' = m_PStar supplier
     | _ => False
     end
  /\ match spec_on_accept supplier with
     | Done s' => commanded SST "level" s' = Some 1
     | _ => False
     end.
Proof. vm_compute. repeat split; reflexivity. Qed.

(** C4 (amended).  On an "accept" from another peer the accommodating
    variant is passive: whatever the status, no command is staged on any
    device, [m_PStar] and the status are unchanged and nothing is sent.  In
    status SUPPLY the migration is only logged as a warning; in any other
    status the accept is logged as unexpected. *)
Theorem HandleRead_accept_is_passive (s : lbAgent) (msg : CMessage) (v : string) :
  src msg <> uuid s ->
  any msg <> Some "PeerList" ->
  lb msg = Some "accept" ->
  lb_value msg = Some v ->
  exists s',
    HandleRead s msg = Done s'
    /\ m_phyDevManager s' = m_phyDevManager s
    /\ m_PStar s' = m_PStar s
    /\ m_Status s' = m_Status s
    /\ outbox s' = outbox s
    /\ log s' = (log s
                 ++ [(Notice, (" Draft Accept message received from: " ++ src msg)%string);
                     (Warn, if status_eqb SUPPLY (m_Status s)
                            then ("Migrating power on request from: " ++ src msg)%string
                            else "Unexpected Accept message")])%list.
Proof.
  intros Hsrc Hany Hlb Hval.
  assert (Hpl : String.eqb (default "NOEXCEPTION" (any msg)) "PeerList" = false).
  { apply String.eqb_neq. destruct (any msg) as [a |]; cbn; congruence. }
  destruct (sender_entry_other s (src msg) Hsrc)
    as (s0 & Hentry & Hphy & Hps & Hst & Hout & Hlog & Hu).
  unfold HandleRead. rewrite Hentry, Hpl, Hlb.
  change (String.eqb (default "NOEXCEPTION" (Some "accept")) "NOEXCEPTION") with false.
  change (default "" (Some "accept")) with "accept".
  cbv iota.
  change (on_lb s0 (Some (src msg)) msg "accept")
    with (guard s0 (Some (src msg)) (on_accept s0 msg)
            (Done (logline Warn "Invalid Message Type" s0))).
  unfold guard. rewrite Hu, (proj2 (String.eqb_neq _ _) Hsrc). cbn [negb].
  unfold on_accept. rewrite Hval. cbv zeta.
  change (m_Status (logline Notice
            (" Draft Accept message received from: " ++ src msg) s0))
    with (m_Status s0).
  rewrite Hst.
  destruct (status_eqb SUPPLY (m_Status s)); eexists; (split; [reflexivity |]);
    unfold logline; cbn [m_phyDevManager m_PStar m_Status outbox log with_log];
    rewrite Hlog, <- app_assoc; repeat split; assumption.
Qed.

(** C4 (witness): the accept of "B" at the SUPPLY node "A". *)
Lemma HandleRead_accept_is_passive_witness :
  exists s',
    HandleRead supplier accept_from_B = Done s'
    /\ m_phyDevManager s' = m_phyDevManager supplier
    /\ m_PStar s' = m_PStar supplier
    /\ m_Status s' = m_Status supplier
    /\ outbox s' = outbox supplier
    /\ log s' = (log supplier
                 ++ [(Notice, (" Draft Accept message received from: " ++ src accept_from_B)%string);
                     (Warn, if status_eqb SUPPLY (m_Status supplier)
                            then ("Migrating power on request from: " ++ src accept_from_B)%string
                            else "Unexpected Accept message")])%list.
Proof.
  apply (HandleRead_accept_is_passive supplier accept_from_B "2").
  - discriminate.
  - discriminate.
  - reflexivity.
  - reflexivity.
Defined.






End LoadBalanceProperties.

(** ** Plug-and-play adapter *)
Section AdapterProperties.
Import Arm.

Context {SignalValue : Type} (lexical_cast : string -> option SignalValue).

(** Induction over a word sequence three words at a time. *)
Lemma words_ind3 (P : list string -> Prop) :
  P [] ->
  (forall a, P [a]) ->
  (forall a b, P [a; b]) ->
  (forall a b c rest, P rest -> P (a :: b :: c :: rest)) ->
  forall ws, P ws.
Proof.
  intros H0 H1 H2 H3.
  assert (H : forall ws, P ws /\ (forall a, P (a :: ws)) /\ (forall a b, P (a :: b :: ws))).
  { induction ws as [| c rest (IH0 & IH1 & IH2)].
    - repeat split; auto.
    - repeat split; auto. }
  intros ws. apply H.
Qed.

(** The loop of [ReadStatePacket] ends by the first offence of the
    lines; [temp] holds exactly the slots of the lines already read. *)
Lemma parse_states_first_offence (identifier : string) (stateInfo : gmap string nat)
    (ws : list string) :
  forall (before : list line) (temp : gmap nat SignalValue),
    (forall i, is_Some (temp !! i) <-> Some i ∈ map (slot_of identifier stateInfo) before) ->
    match parse_states lexical_cast identifier stateInfo ws temp with
    | Complete _ =>
        first_offence lexical_cast identifier stateInfo before (lines_of ws) = None
    | UnknownDevice =>
        first_offence lexical_cast identifier stateInfo before (lines_of ws) = Some Unregistered
    | DuplicateDevice =>
        first_offence lexical_cast identifier stateInfo before (lines_of ws) = Some Repeated
    | BadCast =>
        first_offence lexical_cast identifier stateInfo before (lines_of ws) = Some Uncastable
    end.
Proof.
  induction ws as [| a | a b | name signal strval rest IH] using words_ind3;
    intros before temp Htemp; try reflexivity.
  cbn [parse_states lines_of first_offence]. unfold offence_of, slot_of. cbn [fst snd].
  destruct (stateInfo !! (identifier ++ ":" ++ name)) as [index |] eqn:Hslot; [| reflexivity].
  destruct (lexical_cast strval) as [value |]; [| reflexivity].
  destruct (temp !! index) as [old |] eqn:Hold.
  - rewrite bool_decide_eq_true_2; [reflexivity |].
    apply Htemp. rewrite Hold. eauto.
  - rewrite bool_decide_eq_false_2.
    2:{ intros Hin. apply Htemp in Hin. rewrite Hold in Hin. destruct Hin; discriminate. }
    apply IH. intros i. rewrite map_app, elem_of_app. cbn [map]. unfold slot_of at 2.
    cbn [fst snd]. rewrite Hslot, list_elem_of_singleton, <- Htemp.
    destruct (decide (index = i)) as [-> | Hne].
    + rewrite lookup_insert_eq. split; eauto.
    + rewrite lookup_insert_ne by exact Hne. split; [tauto |].
      intros [H | H]; [exact H | congruence].
Qed.

(** The heartbeat timer after [ReadStatePacket] is the one before. *)
Lemma ReadStatePacket_heartbeat (s : CArmAdapter SignalValue) (now : Z) (packet : string) :
  m_heartbeat (ReadStatePacket lexical_cast s now packet).1 = m_heartbeat s
  /\ responses (ReadStatePacket lexical_cast s now packet).1 = responses s
  /\ removed (ReadStatePacket lexical_cast s now packet).1 = removed s.
Proof.
  unfold ReadStatePacket.
  destruct (parse_states _ _ _ _ _); cbn; try (repeat split; reflexivity).
  destruct (m_initialized s); repeat split; reflexivity.
Qed.

(** [ReadStatePacket] reads the words of its argument three at a time,
    ignores words left over at the end, and answers by the first line, in
    order, that offends; [HandleMessage] answers "UnknownHeader" to a
    packet whose first word is neither "DeviceStates" nor
    "PoliteDisconnect". *)
Lemma ReadStatePacket_answers_first_offence
    (s : CArmAdapter SignalValue) (now : Z) (packet : string) :
  (ReadStatePacket lexical_cast s now packet).2
    = spec_reply (first_offence lexical_cast (m_identifier s) (m_stateInfo s) []
                    (lines_of (words packet)))
  /\ (header_of packet <> "DeviceStates" ->
      header_of packet <> "PoliteDisconnect" ->
      responses (HandleMessage lexical_cast s now (delivering packet))
        = (responses s ++ [("UnknownHeader" ++ eom)%string])%list).
Proof.
  split.
  - pose proof (parse_states_first_offence (m_identifier s) (m_stateInfo s) (words packet)
                  [] ∅) as H.
    unfold ReadStatePacket.
    destruct (parse_states _ _ _ _ _); rewrite H; try reflexivity;
      intros i; rewrite lookup_empty; cbn; split;
      try (intros [x Hx]; discriminate); intros Hin; inversion Hin.
  - intros H1 H2. unfold HandleMessage, delivering. cbn [ReceiveData SendData_ok].
    rewrite (proj2 (String.eqb_neq _ _) H1), (proj2 (String.eqb_neq _ _) H2).
    unfold Heartbeat. cbn [m_heartbeat with_heartbeat responses with_responses].
    destruct (waiting (m_heartbeat s)); reflexivity.
Qed.

(** [HandleMessage] hands the whole text to [ReadStatePacket], opening
    token included: the first line read is made of the token
    "DeviceStates" and the two words after it, so a packet with at least
    one line is answered "UnknownDevice", and nothing of it is stored,
    unless a device named "DeviceStates" is registered. *)
Lemma HandleMessage_state_packet_first_line
    (s : CArmAdapter SignalValue) (now : Z) (text : string) (a b : string)
    (rest : list string) :
  words text = "DeviceStates" :: a :: b :: rest ->
  m_stateInfo s !! (m_identifier s ++ ":" ++ "DeviceStates") = None ->
  responses (HandleMessage lexical_cast s now (delivering text))
  = (responses s ++ [("UnknownDevice" ++ eom)%string])%list
  /\ m_rxBuffer (HandleMessage lexical_cast s now (delivering text)) = m_rxBuffer s
  /\ m_initialized (HandleMessage lexical_cast s now (delivering text)) = m_initialized s.
Proof.
  intros Hw Hs. unfold HandleMessage, delivering. cbn [ReceiveData SendData_ok].
  unfold header_of. rewrite Hw. rewrite String.eqb_refl.
  unfold ReadStatePacket. rewrite Hw. cbn [parse_states].
  replace (m_identifier (Heartbeat now s)) with (m_identifier s)
    by (unfold Heartbeat; destruct (waiting (m_heartbeat s)); reflexivity).
  replace (m_stateInfo (Heartbeat now s)) with (m_stateInfo s)
    by (unfold Heartbeat; destruct (waiting (m_heartbeat s)); reflexivity).
  rewrite Hs. unfold Heartbeat.
  cbn [m_heartbeat with_heartbeat responses with_responses waiting].
  destruct (waiting (m_heartbeat s)); cbn; repeat split.
Qed.

(** C7 (amended).  Every packet that [ReceiveData] delivers, well formed
    or not, sets a pending heartbeat timer to five seconds from its
    arrival before its first word is looked at, so the adapter is not
    removed during these five seconds; only when [ReceiveData] itself fails
    does the call leave the adapter, and with it the timer, as it was. *)
Theorem HandleMessage_resets_heartbeat
    (s : CArmAdapter SignalValue) (now : Z) (text : string) (ok : bool) :
  waiting (m_heartbeat s) = true ->
  removed s = false ->
  let s' := HandleMessage lexical_cast s now {| ReceiveData := Some text; SendData_ok := ok |} in
  m_heartbeat s' = {| expiry := (now + seconds 5)%Z; waiting := true |}
  /\ (forall later, (later < now + seconds 5)%Z -> removed (elapse later s') = false)
  /\ HandleMessage lexical_cast s now {| ReceiveData := None; SendData_ok := ok |} = s.
Proof.
  intros Hw Hr s'.
  assert (Hs' : m_heartbeat s' = {| expiry := (now + seconds 5)%Z; waiting := true |}
                /\ removed s' = false).
  { unfold s', HandleMessage. cbn [ReceiveData SendData_ok].
    set (s1 := Heartbeat now s).
    assert (H1 : m_heartbeat s1 = {| expiry := (now + seconds 5)%Z; waiting := true |}
                 /\ removed s1 = false).
    { unfold s1, Heartbeat. rewrite Hw. cbn. auto. }
    destruct H1 as [H1 H1r].
    assert (Hfin : forall (s2 : CArmAdapter SignalValue) (response : option string),
               m_heartbeat s2 = {| expiry := (now + seconds 5)%Z; waiting := true |} ->
               removed s2 = false ->
               m_heartbeat
                 (match response with
                  | Some text0 =>
                      if ok then Heartbeat now (with_responses (responses s2 ++ [text0])%list s2)
                      else s2
                  | None => s2
                  end) = {| expiry := (now + seconds 5)%Z; waiting := true |}
               /\ removed
                    (match response with
                     | Some text0 =>
                         if ok then Heartbeat now (with_responses (responses s2 ++ [text0])%list s2)
                         else s2
                     | None => s2
                     end) = false).
    { intros s2 [t |] E2 R2; [| auto]. destruct ok; [| auto].
      unfold Heartbeat. cbn [m_heartbeat with_responses]. rewrite E2. cbn. auto. }
    destruct (String.eqb (header_of text) "DeviceStates").
    - destruct (ReadStatePacket lexical_cast s1 now text) as [s2 response] eqn:E.
      pose proof (ReadStatePacket_heartbeat s1 now text) as (Hh & _ & Hrm).
      rewrite E in Hh, Hrm. cbn [fst] in Hh, Hrm.
      apply (Hfin s2 response); congruence.
    - destruct (String.eqb (header_of text) "PoliteDisconnect");
        apply (Hfin s1 (Some _)); assumption. }
  destruct Hs' as [Hh Hrm]. split; [exact Hh |]. split; [| reflexivity].
  intros later Hlater. unfold elapse. rewrite Hh. cbn [waiting expiry andb].
  destruct (Z.leb_spec (now + seconds 5) later); [lia | exact Hrm].
Qed.

(** C10.  A packet without any device-state line, that is with no word
    or with the header word only, is valid: [ReadStatePacket] returns
    "Received" and writes nothing into the receive buffer; when the session
    was not initialized it becomes so and the command timer is set to two
    seconds from now, otherwise the timer is as it was.  Through
    [HandleMessage] the bare header is answered "Received". *)
Theorem ReadStatePacket_no_lines
    (s : CArmAdapter SignalValue) (now : Z) (packet : string) :
  (length (words packet) <= 1)%nat ->
  let s' := (ReadStatePacket lexical_cast s now packet).1 in
  (ReadStatePacket lexical_cast s now packet).2 = Some ("Received" ++ eom)
  /\ m_rxBuffer s' = m_rxBuffer s
  /\ m_initialized s' = true
  /\ m_command s' = (if m_initialized s then m_command s
                     else {| expiry := (now + seconds 2)%Z; waiting := true |})
  /\ (words packet = ["DeviceStates"] ->
      responses (HandleMessage lexical_cast s now (delivering packet))
        = (responses s ++ [("Received" ++ eom)%string])%list).
Proof.
  intros Hlen.
  assert (Hparse : forall identifier stateInfo,
             parse_states lexical_cast identifier stateInfo (words packet) ∅ = Complete ∅).
  { intros. destruct (words packet) as [| a [| b rest]]; cbn in Hlen; try lia; reflexivity. }
  assert (Hrun : forall s0 : CArmAdapter SignalValue,
             ReadStatePacket lexical_cast s0 now packet
             = ((if negb (m_initialized s0)
                 then with_command {| expiry := (now + seconds 2)%Z; waiting := true |}
                        (with_initialized true (with_rxBuffer (m_rxBuffer s0) s0))
                 else with_rxBuffer (m_rxBuffer s0) s0),
                Some ("Received" ++ eom))).
  { intros s0. unfold ReadStatePacket. rewrite Hparse, map_to_list_empty. reflexivity. }
  cbv zeta. rewrite Hrun. cbn [fst snd].
  split; [reflexivity |].
  split; [destruct (m_initialized s); reflexivity |].
  split; [destruct (m_initialized s) eqn:E; cbn; [exact E | reflexivity] |].
  split; [destruct (m_initialized s); reflexivity |].
  intros Hwords. unfold HandleMessage, delivering. cbn [ReceiveData SendData_ok].
  unfold header_of. rewrite Hwords. cbn [String.eqb Ascii.eqb Bool.eqb].
  change (String.eqb "DeviceStates" "DeviceStates") with true. cbv iota.
  rewrite Hrun. unfold Heartbeat.
  destruct s as [id info rx init [e w] cmd resp rem]; destruct init, w; reflexivity.
Qed.

End AdapterProperties.

(** C6 (failing input).  The adapter scenario of the specification: on
    the session "ident" with "ident:foo" registered at index 0, the packet
    "DeviceStates foo voltage 12.3" names a registered device only, and by
    the lines after its opening token the reply is "Received".
    [HandleMessage] answers "UnknownDevice" and stores nothing in the
    receive buffer: it passes the whole text, opening token included, to
    [ReadStatePacket], whose first line is then ("DeviceStates", "foo",
    "voltage"). *)
Lemma HandleMessage_reads_header_as_device :
  Arm.spec_lines Arm.scenario3 = [("foo", "voltage", "12.3")]
  /\ Arm.slot_of "ident" (Arm.m_stateInfo Arm.registered) ("foo", "voltage", "12.3")
     = Some 0%nat
  /\ Arm.spec_state_reply Arm.cast_text "ident" (Arm.m_stateInfo Arm.registered) Arm.scenario3
     = Some ("Received" ++ Arm.eom)
  /\ Arm.reply_of Arm.registered
       (Arm.HandleMessage Arm.cast_text Arm.registered 1 (Arm.delivering Arm.scenario3))
     = Some ("UnknownDevice" ++ Arm.eom)
  /\ Arm.m_rxBuffer
       (Arm.HandleMessage Arm.cast_text Arm.registered 1 (Arm.delivering Arm.scenario3))
     = ∅
  /\ Arm.lines_of (Arm.words Arm.scenario3) = [("DeviceStates", "foo", "voltage")].
Proof. vm_compute. repeat split. Qed.

(** C7 (counterexample).  The session started at time 0 expires at 5 s.
    A packet with the unknown header "Bogus" arrives at 4 s: the timer is
    moved to 9 s, and at 6 s the adapter is still there, where without the
    packet it is removed. *)
Lemma HandleMessage_malformed_packet_resets_heartbeat :
  let bogus := Arm.delivering ("Bogus" ++ Arm.eom) in
  let s' := Arm.HandleMessage Arm.cast_N Arm.board (Arm.seconds 4) bogus in
  Arm.m_heartbeat Arm.board = {| Arm.expiry := Arm.seconds 5; Arm.waiting := true |}
  /\ Arm.reply_of Arm.board s' = Some ("UnknownHeader" ++ Arm.eom)
  /\ Arm.m_heartbeat s' = {| Arm.expiry := Arm.seconds 9; Arm.waiting := true |}
  /\ Arm.removed (Arm.elapse (Arm.seconds 6) s') = false
  /\ Arm.removed (Arm.elapse (Arm.seconds 6) Arm.board) = true.
Proof. vm_compute. repeat split; reflexivity. Qed.

(** C7 (witness): the same packet on the same session. *)
Lemma HandleMessage_resets_heartbeat_witness :
  let s' := Arm.HandleMessage Arm.cast_N Arm.board (Arm.seconds 4)
              {| Arm.ReceiveData := Some ("Bogus" ++ Arm.eom); Arm.SendData_ok := true |} in
  Arm.m_heartbeat s' = {| Arm.expiry := (Arm.seconds 4 + Arm.seconds 5)%Z; Arm.waiting := true |}
  /\ (forall later, (later < Arm.seconds 4 + Arm.seconds 5)%Z ->
        Arm.removed (Arm.elapse later s') = false)
  /\ Arm.HandleMessage Arm.cast_N Arm.board (Arm.seconds 4)
       {| Arm.ReceiveData := None; Arm.SendData_ok := true |} = Arm.board.
Proof.
  apply (HandleMessage_resets_heartbeat Arm.cast_N Arm.board (Arm.seconds 4)
           ("Bogus" ++ Arm.eom) true); reflexivity.
Defined.

(** C10 (witness): the bare header on the fresh session "ident" at 1 s. *)
Lemma ReadStatePacket_no_lines_witness :
  let packet := "DeviceStates" ++ Arm.eom in
  let s' := (Arm.ReadStatePacket Arm.cast_N Arm.board (Arm.seconds 1) packet).1 in
  (length (Arm.words packet) <= 1)%nat
  /\ (Arm.ReadStatePacket Arm.cast_N Arm.board (Arm.seconds 1) packet).2
     = Some ("Received" ++ Arm.eom)
  /\ Arm.m_rxBuffer s' = Arm.m_rxBuffer Arm.board
  /\ Arm.m_initialized s' = true
  /\ Arm.m_command s' = {| Arm.expiry := (Arm.seconds 1 + Arm.seconds 2)%Z; Arm.waiting := true |}
  /\ Arm.responses (Arm.HandleMessage Arm.cast_N Arm.board (Arm.seconds 1) (Arm.delivering packet))
     = (Arm.responses Arm.board ++ [("Received" ++ Arm.eom)%string])%list.
Proof.
  cbv zeta.
  assert (Hlen : (length (Arm.words ("DeviceStates" ++ Arm.eom)) <= 1)%nat)
    by (vm_compute; lia).
  destruct (ReadStatePacket_no_lines Arm.cast_N Arm.board (Arm.seconds 1)
              ("DeviceStates" ++ Arm.eom) Hlen) as (H1 & H2 & H3 & H4 & H5).
  split; [exact Hlen |]. split; [exact H1 |]. split; [exact H2 |].
  split; [exact H3 |]. split; [exact H4 |]. apply H5. reflexivity.
Defined.

(** ** Clock synchronizer *)
Section ClockProperties.
Import Clock.
Local Open Scope Q_scope.

(** Reduction of the record plumbing only. *)
Ltac clock_simpl :=
  cbn [m_uuid m_kcounter m_offsets m_skews m_weights m_lastresponse m_queries
       m_responses m_myoffset m_myskew ClockSkew Clock.sent
       with_kcounter with_offsets with_skews with_weights with_lastresponse
       with_queries with_responses with_published Clock.with_sent fst snd] in *.

(** [GetWeight] answers 1 for the self pair whatever the tables and the
    round counter hold: no decay is applied to it. *)
Lemma GetWeight_self (s : CClockSynchronizer) : GetWeight s (self_pair s) = Ok 1.
Proof. unfold GetWeight, self_pair. rewrite bool_decide_eq_true_2; reflexivity. Qed.

Lemma ctor_sane (uuid : string) (now junk : Z) : sane uuid (ctor uuid now junk).
Proof.
  unfold sane, self_entries_sane, responses_bounded, self_pair, ctor. clock_simpl.
  repeat split; try (rewrite lookup_singleton_eq; reflexivity);
    try (rewrite lookup_empty in *; discriminate); apply lookup_empty.
Qed.

(** A change of the tables away from the self pair, with histories that
    stay bounded, keeps the tables sane. *)
Lemma sane_frame (u : string) (s s' : CClockSynchronizer) :
  sane u s ->
  m_uuid s' = m_uuid s ->
  m_offsets s' !! (u, u) = m_offsets s !! (u, u) ->
  m_skews s' !! (u, u) = m_skews s !! (u, u) ->
  fst <$> (m_weights s' !! (u, u)) = fst <$> (m_weights s !! (u, u)) ->
  m_queries s' !! (u, u) = None ->
  responses_bounded s' ->
  sane u s'.
Proof.
  intros (Hu & (Ho & Hs & Hw) & Hq & Hr) Hu' Ho' Hs' Hw' Hq' Hr'.
  unfold sane, self_entries_sane, self_pair in *. rewrite Hu', Hu in *.
  rewrite Ho', Hs', Hw'. split; [reflexivity |]. split; [auto |]. split; assumption.
Qed.

(** [SetWeight] away from the self pair. *)
Lemma SetWeight_frame (u : string) (now : Z) (i : MapIndex) (w : Q) (s : CClockSynchronizer) :
  i <> (u, u) ->
  sane u s -> sane u (SetWeight now i w s).
Proof.
  intros Hi Hs. apply (sane_frame u s); try exact Hs; unfold SetWeight; clock_simpl;
    try reflexivity.
  - rewrite lookup_insert_ne by exact Hi. reflexivity.
  - apply Hs.
  - apply Hs.
Qed.

(** Writing 0, 1, 0 for the self pair makes its entries sane again. *)
Lemma self_sane_sane (u : string) (now : Z) (s : CClockSynchronizer) :
  m_uuid s = u ->
  m_queries s !! (u, u) = None ->
  responses_bounded s ->
  sane u (self_sane now s).
Proof.
  intros Hu Hq Hr. unfold sane, self_entries_sane, self_pair, self_sane, SetWeight.
  clock_simpl. rewrite Hu. rewrite !lookup_insert_eq.
  split; [reflexivity |]. split; [auto |]. split; assumption.
Qed.

(** Reading a skew creates at most an entry with value 0. *)
Lemma skews_at_sane (u : string) (i : MapIndex) (s : CClockSynchronizer) :
  sane u s -> sane u (skews_at i s).2.
Proof.
  intros Hs. unfold skews_at. destruct (m_skews s !! i) eqn:E; [exact Hs |].
  cbn [snd]. apply (sane_frame u s); try exact Hs; clock_simpl; try reflexivity;
    try apply Hs.
  destruct (decide (i = (u, u))) as [-> | Hne].
  - destruct Hs as (Hu & (_ & Hsk & _) & _). unfold self_pair in Hsk. rewrite Hu in Hsk.
    congruence.
  - rewrite lookup_insert_ne by exact Hne. reflexivity.
Qed.

(** The table of a response never touches the self pair: its entries for
    this node are skipped. *)
Lemma table_loop_sane (u : string) (now : Z) (sender : string) (entries : list TableEntry) :
  forall s,
    sane u s ->
    match table_loop now sender entries s with
    | Done s' | Raised s' _ => sane u s'
    | Undefined => True
    end.
Proof.
  induction entries as [| te rest IH]; intros s Hs; cbn [table_loop]; [exact Hs |].
  destruct (String.eqb (te_uuid te) sender || String.eqb (te_uuid te) (m_uuid s)) eqn:Eskip;
    [apply IH; exact Hs |].
  apply orb_false_iff in Eskip. destruct Eskip as [_ Eself].
  apply String.eqb_neq in Eself.
  assert (Hu : m_uuid s = u) by apply Hs.
  assert (Hil : (m_uuid s, te_uuid te) <> (u, u)) by (rewrite Hu; congruence).
  cbv zeta.
  set (il := (m_uuid s, te_uuid te)) in *.
  assert (Hs1 : sane u (table_init now il s)).
  { unfold table_init. destruct (m_offsets s !! il); [exact Hs |].
    apply (sane_frame u s); try exact Hs; unfold SetWeight; clock_simpl; try reflexivity;
      try (rewrite lookup_insert_ne by exact Hil; reflexivity); apply Hs. }
  destruct (GetWeight (table_init now il s) il) as [w | what |]; [| exact Hs1 | exact I].
  apply IH. destruct (Qltb w (te_weight te - 0.1)); [| exact Hs1].
  apply (sane_frame u (table_init now il s)); try exact Hs1;
    unfold table_take, SetWeight; clock_simpl; try reflexivity;
    try (rewrite lookup_insert_ne by exact Hil; reflexivity); apply Hs1.
Qed.

(** The table of a response leaves the histories alone. *)
Lemma table_loop_responses (now : Z) (sender : string) (entries : list TableEntry) :
  forall s,
    match table_loop now sender entries s with
    | Done s' | Raised s' _ => m_responses s' = m_responses s /\ m_uuid s' = m_uuid s
    | Undefined => True
    end.
Proof.
  induction entries as [| te rest IH]; intros s; cbn [table_loop]; [split; reflexivity |].
  destruct (String.eqb (te_uuid te) sender || String.eqb (te_uuid te) (m_uuid s));
    [apply IH |].
  cbv zeta. set (il := (m_uuid s, te_uuid te)).
  assert (H1 : m_responses (table_init now il s) = m_responses s
               /\ m_uuid (table_init now il s) = m_uuid s).
  { unfold table_init. destruct (m_offsets s !! il); split; reflexivity. }
  destruct (GetWeight (table_init now il s) il) as [w | what |]; [| exact H1 | exact I].
  destruct H1 as [H1 H1u].
  destruct (Qltb w (te_weight te - 0.1)).
  - match goal with |- match table_loop _ _ _ ?x with _ => _ end => specialize (IH x) end.
    destruct (table_loop now sender rest _); try exact I;
      (split; [rewrite (proj1 IH) | rewrite (proj2 IH)]); assumption.
  - specialize (IH (table_init now il s)).
    destruct (table_loop now sender rest _); try exact I;
      (split; [rewrite (proj1 IH) | rewrite (proj2 IH)]); assumption.
Qed.

(** An even history of at most 400 samples stays so when a response is
    recorded. *)
Lemma spec_history_bounded (old : list TimeTuple) (response_time challenge now : Z) :
  Nat.Even (length old) ->
  (length old <= 2 * MAX_REGRESSION_ENTRIES)%nat ->
  Nat.Even (length (spec_history old response_time challenge now))
  /\ (length (spec_history old response_time challenge now) <= 2 * MAX_REGRESSION_ENTRIES)%nat.
Proof.
  intros [m Hm] Hle. unfold spec_history. cbv zeta.
  destruct (Nat.ltb_spec (2 * MAX_REGRESSION_ENTRIES)
              (length (old ++ [(response_time, challenge); (response_time, now)]))) as [H | H].
  - rewrite length_drop, length_app in *. cbn [length] in *.
    split; [exists m; lia | lia].
  - rewrite length_app in *. cbn [length] in *.
    split; [exists (S m); lia | lia].
Qed.

(** [HandleExchangeResponse] on a response that is accepted: the time
    reads, and the sequence number is that of the outstanding query. *)
Lemma HandleExchangeResponse_accepted (s : CClockSynchronizer) (now : Z)
    (msg : ExchangeResponseMessage) (peer : string) (response_time challenge : Z) :
  unsynchronized_sendtime msg = Some response_time ->
  m_queries s !! (m_uuid s, peer) = Some (response msg, challenge) ->
  match HandleExchangeResponse s now msg peer with
  | Done s' | Raised s' _ =>
      m_responses s'
      = <[(m_uuid s, peer) :=
            spec_history (default [] (m_responses s !! (m_uuid s, peer)))
              response_time challenge now]> (m_responses s)
  | Undefined => True
  end.
Proof.
  intros Ht Hq. unfold HandleExchangeResponse. rewrite Ht, Hq, Z.eqb_refl. cbn [negb].
  cbv zeta.
  destruct (regression now _) as [off skew].
  match goal with |- match table_loop _ _ _ ?x with _ => _ end =>
    pose proof (table_loop_responses now peer (table_entry msg) x) as H
  end.
  destruct (table_loop now peer (table_entry msg) _); try exact I;
    rewrite (proj1 H); unfold SetWeight; clock_simpl; unfold spec_history;
    rewrite <- app_assoc; reflexivity.
Qed.

(** [HandleExchangeResponse] on a response that is dropped: no query is
    outstanding for the sender, or its sequence number is another one. *)
Lemma HandleExchangeResponse_dropped (s : CClockSynchronizer) (now : Z)
    (msg : ExchangeResponseMessage) (peer : string) :
  (forall challenge, m_queries s !! (m_uuid s, peer) <> Some (response msg, challenge)) ->
  HandleExchangeResponse s now msg peer = Done s
  \/ HandleExchangeResponse s now msg peer = Raised s "time_from_string".
Proof.
  intros Hq. unfold HandleExchangeResponse.
  destruct (unsynchronized_sendtime msg); [left | right; reflexivity].
  destruct (m_queries s !! (m_uuid s, peer)) as [[qk challenge] |] eqn:E; [| reflexivity].
  destruct (Z.eqb_spec qk (response msg)) as [-> | Hne]; [| reflexivity].
  exfalso. exact (Hq challenge eq_refl).
Qed.

Lemma HandleExchangeResponse_sane (u : string) (s : CClockSynchronizer) (now : Z)
    (msg : ExchangeResponseMessage) (peer : string) :
  sane u s ->
  match HandleExchangeResponse s now msg peer with
  | Done s' | Raised s' _ => sane u s'
  | Undefined => True
  end.
Proof.
  intros Hs. unfold HandleExchangeResponse.
  destruct (unsynchronized_sendtime msg) as [response_time |]; [| exact Hs].
  destruct (m_queries s !! (m_uuid s, peer)) as [[qk challenge] |] eqn:Eq; [| exact Hs].
  destruct (negb (qk =? response msg)%Z); [exact Hs |].
  cbv zeta. destruct (regression now _) as [off skew].
  apply table_loop_sane.
  assert (Hu : m_uuid s = u) by apply Hs.
  assert (Hij : (m_uuid s, peer) <> (u, u)).
  { intros E. rewrite E in Eq. destruct Hs as (_ & _ & Hq & _). congruence. }
  apply (sane_frame u s); try exact Hs; unfold SetWeight; clock_simpl; try reflexivity;
    try (rewrite lookup_insert_ne by exact Hij; reflexivity).
  - rewrite lookup_delete_ne by exact Hij. apply Hs.
  - intros key l. clock_simpl.
    destruct (decide ((m_uuid s, peer) = key)) as [<- | Hne].
    + rewrite lookup_insert_eq. intros [= <-].
      pose proof (spec_history_bounded (default [] (m_responses s !! (m_uuid s, peer)))
                    response_time challenge now) as Hb.
      unfold spec_history in Hb. cbv zeta in Hb.
      rewrite <- app_assoc. cbn [app]. apply Hb.
      * destruct (m_responses s !! (m_uuid s, peer)) as [l |] eqn:El; cbn [default].
        -- destruct Hs as (_ & _ & _ & Hr). exact (proj1 (Hr _ _ El)).
        -- exists 0%nat. reflexivity.
      * destruct (m_responses s !! (m_uuid s, peer)) as [l |] eqn:El; cbn [default].
        -- destruct Hs as (_ & _ & _ & Hr). exact (proj2 (Hr _ _ El)).
        -- cbn. lia.
    + rewrite lookup_insert_ne by exact Hne. destruct Hs as (_ & _ & _ & Hr). apply Hr.
Qed.

(** The rotation of [Exchange] never contains this node. *)
Lemma rotation_not_self (self : string) (peers : list string) :
  Forall (fun p => p <> self) (rotation self peers).
Proof.
  unfold rotation.
  assert (H : forall (a b : list string) (flop : bool),
             Forall (fun p => p <> self) a -> Forall (fun p => p <> self) b ->
             Forall (fun p => p <> self)
               (let '(tmplist, tmplist2, _) :=
                  fold_left
                    (fun '(tmplist, tmplist2, flop) peer =>
                       if String.eqb peer self then (tmplist, tmplist2, true)
                       else if negb flop then (tmplist, (tmplist2 ++ [peer])%list, flop)
                       else ((tmplist ++ [peer])%list, tmplist2, flop))
                    peers (a, b, flop) in
                (tmplist ++ tmplist2)%list)).
  { induction peers as [| p rest IH]; intros a b flop Ha Hb; cbn [fold_left].
    - apply Forall_app; split; assumption.
    - destruct (String.eqb_spec p self) as [E | E]; [apply IH; assumption |].
      destruct flop; cbn [negb]; apply IH; try assumption;
        apply Forall_app; split; try assumption; repeat constructor; exact E. }
  apply H; constructor.
Qed.

(** Sending the round to peers other than this node leaves the tables
    sane. *)
Lemma exchange_sends_sane (u : string) (now : Z) (targets : list string) :
  Forall (fun p => p <> u) targets ->
  forall s,
    sane u s ->
    sane u (fold_left
              (fun acc peer =>
                 let acc := Clock.with_sent
                              (Clock.sent acc ++ [(peer, EXCHANGE_MESSAGE (m_kcounter acc))]) acc in
                 with_queries (<[(m_uuid acc, peer) := (m_kcounter acc, now)]> (m_queries acc))
                   acc)
              targets s).
Proof.
  induction 1 as [| p rest Hp _ IH]; intros s Hs; cbn [fold_left]; [exact Hs |].
  apply IH. assert (Hu : m_uuid s = u) by apply Hs.
  apply (sane_frame u s); try exact Hs; clock_simpl; try reflexivity.
  - rewrite lookup_insert_ne by (rewrite Hu; congruence). apply Hs.
  - apply Hs.
Qed.

Lemma weigh_loop_sane (u : string) (entries : list (MapIndex * Z)) :
  forall tmp s,
    sane u s ->
    match weigh_loop entries tmp s with
    | Done (s', _) | Raised (s', _) _ => sane u s'
    | Undefined => True
    end.
Proof.
  induction entries as [| [i off] rest IH]; intros tmp s Hs; cbn [weigh_loop]; [exact Hs |].
  destruct (GetWeight s i) as [w | what |]; [| exact Hs | exact I].
  destruct tmp as [[tmp1 tmp2] tmp3].
  pose proof (skews_at_sane u i s Hs) as Hsk.
  destruct (skews_at i s) as [sk s1]. apply IH. exact Hsk.
Qed.

Lemma Exchange_sane (u : string) (s : CClockSynchronizer) (now : Z) (err : bool)
    (peers : list string) :
  sane u s ->
  match Exchange s now err peers with
  | Done s' | Raised s' _ => sane u s'
  | Undefined => True
  end.
Proof.
  intros Hs. unfold Exchange. destruct err; [exact Hs |]. cbv zeta.
  assert (Hu : m_uuid s = u) by apply Hs.
  pose proof (exchange_sends_sane u now (rotation (m_uuid s) peers)) as Hsend.
  rewrite Hu in Hsend at 1. specialize (Hsend (rotation_not_self u peers) s Hs).
  set (s1 := fold_left _ (rotation (m_uuid s) peers) s) in *.
  assert (Hs2 : sane u (self_sane now (with_kcounter (wrap32 (m_kcounter s1 + 1)) s1))).
  { apply self_sane_sane; clock_simpl; apply Hsend. }
  set (s2 := self_sane now (with_kcounter (wrap32 (m_kcounter s1 + 1)) s1)) in *.
  pose proof (weigh_loop_sane u (map_to_list (m_offsets s2)) (0, 0, 0) s2 Hs2) as Hw.
  destruct (weigh_loop (map_to_list (m_offsets s2)) (0, 0, 0) s2)
    as [[s3 [[tmp1 tmp2] tmp3]] | [s3 tmp] what |]; [| exact Hw | exact I].
  apply self_sane_sane;
    destruct (negb (Qeq_bool tmp2 0)); clock_simpl; apply Hw.
Qed.

Lemma entries_loop_sane (u : string) (entries : list (MapIndex * Z)) :
  forall acc s,
    sane u s ->
    match entries_loop entries acc s with
    | Done (s', _) | Raised (s', _) _ => sane u s'
    | Undefined => True
    end.
Proof.
  induction entries as [| [i off] rest IH]; intros acc s Hs; cbn [entries_loop]; [exact Hs |].
  pose proof (skews_at_sane u i s Hs) as Hsk.
  destruct (skews_at i s) as [sk s1]. cbn [snd] in Hsk.
  destruct (GetWeight s1 i) as [w | what |]; [| exact Hsk | exact I].
  apply IH. exact Hsk.
Qed.

Lemma HandleExchange_sane (u : string) (s : CClockSynchronizer) (now query : Z)
    (peer : string) :
  sane u s ->
  match HandleExchange s now query peer with
  | Done s' | Raised s' _ => sane u s'
  | Undefined => True
  end.
Proof.
  intros Hs. unfold HandleExchange.
  pose proof (entries_loop_sane u (map_to_list (m_offsets s)) [] s Hs) as H.
  destruct (entries_loop (map_to_list (m_offsets s)) [] s)
    as [[s1 table] | [s1 table] what |]; [| exact H | exact I].
  apply (sane_frame u s1); try exact H; clock_simpl; try reflexivity; apply H.
Qed.

Lemma step_sane (u : string) (s : CClockSynchronizer) (e : event) :
  sane u s ->
  match step s e with
  | Done s' | Raised s' _ => sane u s'
  | Undefined => True
  end.
Proof.
  intros Hs. destruct e as [now err peers | now [[query | m] |] peer]; cbn [step].
  - apply Exchange_sane. exact Hs.
  - apply HandleExchange_sane. exact Hs.
  - apply HandleExchangeResponse_sane. exact Hs.
  - exact Hs.
Qed.

(** Every observable state of a synchronizer has sane tables. *)
Lemma reachable_sane (s : CClockSynchronizer) : reachable s -> sane (m_uuid s) s.
Proof.
  induction 1 as [uuid now junk | s e s' Hr IH Hstep | s e s' what Hr IH Hstep].
  - apply ctor_sane.
  - pose proof (step_sane (m_uuid s) s e IH) as H. rewrite Hstep in H.
    assert (Hu : m_uuid s' = m_uuid s) by apply H. rewrite Hu. exact H.
  - pose proof (step_sane (m_uuid s) s e IH) as H. rewrite Hstep in H.
    assert (Hu : m_uuid s' = m_uuid s) by apply H. rewrite Hu. exact H.
Qed.

(** C8.  In every observable state of a synchronizer, and so after every
    call of [HandleExchangeResponse], the response history of every peer
    has an even length of at most 400.  A call that returns or is left by
    an exception leaves the histories exactly as follows: when the send
    time reads and the response carries the number of the outstanding query
    of its sender, the history of the sender is the old one with exactly
    two samples appended, first (response time, challenge time) then
    (response time, now), less its two oldest samples when that makes more
    than 400, and every other history is as before; in every other case all
    histories are as before. *)
Theorem responses_even_and_bounded (s : CClockSynchronizer) :
  (reachable s ->
   (forall p l, m_responses s !! (m_uuid s, p) = Some l ->
                Nat.Even (length l) /\ (length l <= 400)%nat)
   /\ forall now msg peer s',
        (HandleExchangeResponse s now msg peer = Done s'
         \/ exists what, HandleExchangeResponse s now msg peer = Raised s' what) ->
        forall p l, m_responses s' !! (m_uuid s', p) = Some l ->
                    Nat.Even (length l) /\ (length l <= 400)%nat)
  /\ forall now msg peer s',
       (HandleExchangeResponse s now msg peer = Done s'
        \/ exists what, HandleExchangeResponse s now msg peer = Raised s' what) ->
       m_responses s' = spec_responses s now msg peer.
Proof.
  split.
  - intros Hr. pose proof (reachable_sane s Hr) as Hs. split.
    + intros p l Hl. destruct Hs as (_ & _ & _ & Hb). exact (Hb _ _ Hl).
    + intros now msg peer s' Hcall.
      pose proof (HandleExchangeResponse_sane (m_uuid s) s now msg peer Hs) as H.
      intros p l Hl.
      destruct Hcall as [E | [what E]]; rewrite E in H;
        destruct H as (_ & _ & _ & Hb); exact (Hb _ _ Hl).
  - intros now msg peer s' Hcall. unfold spec_responses.
    destruct (unsynchronized_sendtime msg) as [response_time |] eqn:Et.
    + destruct (m_queries s !! (m_uuid s, peer)) as [[qk challenge] |] eqn:Eq.
      * destruct (Z.eqb_spec qk (response msg)) as [-> | Hne].
        -- pose proof (HandleExchangeResponse_accepted s now msg peer _ _ Et Eq) as H.
           destruct Hcall as [E | [what E]]; rewrite E in H; exact H.
        -- destruct (HandleExchangeResponse_dropped s now msg peer) as [E' | E'].
           { intros c. rewrite Eq. congruence. }
           all: destruct Hcall as [E | [what E]]; congruence.
      * destruct (HandleExchangeResponse_dropped s now msg peer) as [E' | E'].
        { intros c. rewrite Eq. discriminate. }
        all: destruct Hcall as [E | [what E]]; congruence.
    + unfold HandleExchangeResponse in Hcall. rewrite Et in Hcall.
      destruct Hcall as [E | [what E]]; congruence.
Qed.

(** C9.  In every observable state of a synchronizer (as constructed,
    after every exchange round and after every handled message, returned
    or left by an exception) the self pair has offset 0, skew 0 and stored
    weight 1, and [GetWeight] answers exactly 1 for it, whatever the round
    counter: no decay is applied. *)
Theorem self_pair_stays_sane (s : CClockSynchronizer) :
  reachable s ->
  m_offsets s !! (m_uuid s, m_uuid s) = Some 0%Z
  /\ m_skews s !! (m_uuid s, m_uuid s) = Some 0
  /\ fst <$> (m_weights s !! (m_uuid s, m_uuid s)) = Some 1
  /\ forall k, GetWeight (with_kcounter k s) (m_uuid s, m_uuid s) = Ok 1.
Proof.
  intros Hr. destruct (reachable_sane s Hr) as (_ & (Ho & Hs & Hw) & _).
  repeat split; try assumption.
  intros k. apply (GetWeight_self (with_kcounter k s)).
Qed.

End ClockProperties.

Lemma after_response0_reachable : Clock.reachable Clock.after_response0.
Proof.
  apply (Clock.reach_done Clock.after_round0 Clock.response0); [| vm_compute; reflexivity].
  apply (Clock.reach_done Clock.fresh Clock.round0); [| vm_compute; reflexivity].
  apply Clock.reach_ctor.
Defined.

Lemma after_round1_reachable : Clock.reachable Clock.after_round1.
Proof.
  apply (Clock.reach_done Clock.after_response0 Clock.round1); [| vm_compute; reflexivity].
  exact after_response0_reachable.
Defined.

(** C9 (witness): the same state. *)
Lemma self_pair_stays_sane_witness :
  Clock.m_offsets Clock.after_response0 !! ("A", "A") = Some 0%Z
  /\ Clock.m_skews Clock.after_response0 !! ("A", "A") = Some 0%Q
  /\ fst <$> (Clock.m_weights Clock.after_response0 !! ("A", "A")) = Some 1%Q
  /\ forall k, Clock.GetWeight (Clock.with_kcounter k Clock.after_response0) ("A", "A")
               = Clock.Ok 1%Q.
Proof.
  exact (self_pair_stays_sane Clock.after_response0 after_response0_reachable).
Defined.

(** ** Dispatch solver: topology loading and start-up *)
Section TopologyProperties.
Import DDAStart.
Local Open Scope Q_scope.

Lemma neighbours_add_edge (a b : string) (adj : gmap string (gset string)) (u v : string) :
  v ∈ neighbours (add_edge a b adj) u
  <-> v ∈ neighbours adj u \/ (u = a /\ v = b) \/ (u = b /\ v = a).
Proof.
  unfold add_edge, neighbours. cbv zeta.
  destruct (decide (b = u)) as [-> | Hb].
  - rewrite lookup_insert_eq. cbn [default].
    destruct (decide (a = u)) as [-> | Ha].
    + rewrite lookup_insert_eq. cbn [default]. set_solver.
    + rewrite lookup_insert_ne by exact Ha. set_solver.
  - rewrite lookup_insert_ne by exact Hb.
    destruct (decide (a = u)) as [-> | Ha].
    + rewrite lookup_insert_eq. cbn [default]. set_solver.
    + rewrite lookup_insert_ne by exact Ha. set_solver.
Qed.

(** The adjacency map after the token loop: what it held before and, in
    both directions, the edges read. *)
Lemma read_tokens_edges (uuid : string) (ws : list string) :
  forall t t',
    reached (read_tokens uuid ws t) = Some t' ->
    forall u v,
      v ∈ neighbours (m_adjlist t') u
      <-> v ∈ neighbours (m_adjlist t) u
          \/ (u, v) ∈ edges_read ws \/ (v, u) ∈ edges_read ws.
Proof.
  assert (Hnone : forall (t : Topology) u v,
             v ∈ neighbours (m_adjlist t) u
             <-> v ∈ neighbours (m_adjlist t) u
                 \/ (u, v) ∈ @nil (string * string) \/ (v, u) ∈ @nil (string * string)).
  { intros t u v. split; [auto |]. intros [H | [H | H]]; [exact H | inversion H | inversion H]. }
  induction ws as [| a | a b | a b c rest IH] using words_ind3; intros t t'.
  - cbn. intros [= <-]. apply Hnone.
  - cbn. destruct (String.eqb a "edge"); [| destruct (String.eqb a "sst")];
      cbn; intros [= <-]; apply Hnone.
  - cbn. destruct (String.eqb a "edge"); [| destruct (String.eqb a "sst")];
      cbn; intros [= <-]; apply Hnone.
  - cbn [read_tokens edges_read].
    destruct (String.eqb a "edge").
    + intros H u v. rewrite (IH _ _ H u v). cbn [m_adjlist].
      rewrite neighbours_add_edge, !elem_of_cons.
      split.
      * intros [[H1 | [[-> ->] | [-> ->]]] | [H1 | H1]]; auto.
      * intros [H1 | [[[= -> ->] | H1] | [[= -> ->] | H1]]]; auto 6.
    + destruct (String.eqb a "sst").
      * intros H u v. rewrite (IH _ _ H u v). reflexivity.
      * cbn. intros [= <-]. apply Hnone.
Qed.

(** X1.  Whatever the file holds and however the loading ends, every edge
    that [LoadTopology] has read is recorded from both ends, and nothing
    else is: v is a neighbour of u in the adjacency map it leaves exactly
    when it was one before, or the edge u v or the edge v u is among the
    edges read.  So a symmetric map, such as the empty one of a fresh agent,
    stays symmetric. *)
Theorem LoadTopology_symmetric (uuid : string) (file : TopologyFile) (t t' : Topology) :
  reached (LoadTopology uuid file t) = Some t' ->
  (forall u v,
      v ∈ neighbours (m_adjlist t') u
      <-> v ∈ neighbours (m_adjlist t) u
          \/ (u, v) ∈ edges_of file \/ (v, u) ∈ edges_of file)
  /\ (symmetric (m_adjlist t) -> symmetric (m_adjlist t')).
Proof.
  intros Hr.
  assert (H : forall u v,
             v ∈ neighbours (m_adjlist t') u
             <-> v ∈ neighbours (m_adjlist t) u
                 \/ (u, v) ∈ edges_of file \/ (v, u) ∈ edges_of file).
  { revert Hr. unfold LoadTopology, edges_of. destruct file as [| | text].
    - cbn. intros [= <-] u v. split; [auto |].
      intros [H | [H | H]]; [exact H | inversion H | inversion H].
    - cbn. intros [= <-] u v. split; [auto |].
      intros [H | [H | H]]; [exact H | inversion H | inversion H].
    - pose proof (read_tokens_edges uuid (Arm.words text) t) as H.
      destruct (read_tokens uuid (Arm.words text) t) as [t1 | t1 what |].
      + destruct (scan_degrees t1) as [localadj maxSize]. cbn. intros [= <-]. cbn [m_adjlist].
        apply H. reflexivity.
      + cbn. intros [= <-]. apply H. reflexivity.
      + discriminate. }
  split; [exact H |].
  intros Hs u v. rewrite (H u v), (H v u), (Hs u v). tauto.
Qed.

(** X1 (witness): the chain "1" - "2" - "3" loaded by the node of "2":
    "1" and "3" are the neighbours of "2", and "2" is a neighbour of
    each. *)
Lemma LoadTopology_symmetric_witness :
  exists t', reached (LoadTopology "uuid-2" chain_file (unloaded 0)) = Some t'
             /\ "1" ∈ neighbours (m_adjlist t') "2" /\ "2" ∈ neighbours (m_adjlist t') "1"
             /\ "3" ∈ neighbours (m_adjlist t') "2" /\ "2" ∈ neighbours (m_adjlist t') "3"
             /\ ("3" ∈ neighbours (m_adjlist t') "1" -> False).
Proof.
  destruct (reached (LoadTopology "uuid-2" chain_file (unloaded 0))) as [t' |] eqn:E;
    [| vm_compute in E; discriminate].
  exists t'. split; [reflexivity |].
  destruct (LoadTopology_symmetric "uuid-2" chain_file (unloaded 0) t' E) as [H _].
  assert (Hed : edges_of chain_file = [("1", "2"); ("2", "3")]) by (vm_compute; reflexivity).
  rewrite Hed in H.
  repeat split.
  - apply H. right. right. apply list_elem_of_here.
  - apply H. right. left. apply list_elem_of_here.
  - apply H. right. left. apply list_elem_of_further, list_elem_of_here.
  - apply H. right. right. apply list_elem_of_further, list_elem_of_here.
  - intros H3. apply H in H3. destruct H3 as [H3 | [H3 | H3]].
    + unfold neighbours, unloaded in H3. cbn in H3. rewrite lookup_empty in H3. cbn in H3.
      set_solver.
    + apply elem_of_cons in H3 as [H3 | H3]; [discriminate |].
      apply list_elem_of_singleton in H3. discriminate.
    + apply elem_of_cons in H3 as [H3 | H3]; [discriminate |].
      apply list_elem_of_singleton in H3. discriminate.
Defined.

(** X2.  The token loop of [LoadTopology] returns normally exactly on a
    sequence of complete "edge" and "sst" entries; any other word where an
    entry should start, and an entry cut short by the end of the file, end
    it by an exception. *)
Theorem read_tokens_accepts_entries (uuid : string) (ws : list string) (t : Topology) :
  (exists t', read_tokens uuid ws t = Done t') <-> entries ws.
Proof.
  revert t. induction ws as [| a | a b | a b c rest IH] using words_ind3; intros t.
  - split; [constructor | eexists; reflexivity].
  - split.
    + cbn. intros [t' H]. destruct (String.eqb a "edge"); [| destruct (String.eqb a "sst")];
        discriminate.
    + inversion 1.
  - split.
    + cbn. intros [t' H]. destruct (String.eqb a "edge"); [| destruct (String.eqb a "sst")];
        discriminate.
    + inversion 1.
  - cbn [read_tokens]. destruct (String.eqb_spec a "edge") as [-> | He].
    + rewrite IH. split; [constructor; assumption | inversion 1; assumption].
    + destruct (String.eqb_spec a "sst") as [-> | Hs].
      * rewrite IH. split; [constructor; assumption | inversion 1; assumption].
      * split; [intros [t' H]; discriminate | inversion 1; congruence].
Qed.

(** X2 (witness): a file of two entries, and one that stops inside an
    edge. *)
Lemma read_tokens_accepts_entries_witness :
  (exists t', read_tokens "uuid-2" ["edge"; "1"; "2"; "sst"; "2"; "uuid-2"] (unloaded 0) = Done t')
  /\ ~ entries ["edge"; "1"].
Proof.
  split.
  - apply (read_tokens_accepts_entries "uuid-2"). repeat constructor.
  - intros H. apply (read_tokens_accepts_entries "uuid-2" _ (unloaded 0)) in H.
    destruct H as [t' H]. discriminate.
Defined.

(** The scan over a list of entries with distinct keys. *)
Lemma scan_fold_spec (sym : string) (l : list (string * gset string)) :
  NoDup l.*1 ->
  forall (la : gset string) (M : nat),
    let r := fold_left
               (fun '(localadj, maxSize) (mp : string * gset string) =>
                  let localadj := if String.eqb mp.1 sym then mp.2 else localadj in
                  let maxSize := if Nat.leb maxSize (size mp.2) then size mp.2 else maxSize in
                  (localadj, maxSize))
               l (la, M) in
    (M <= r.2)%nat
    /\ (forall v s, (v, s) ∈ l -> (size s <= r.2)%nat)
    /\ (forall s, (sym, s) ∈ l -> r.1 = s)
    /\ (sym ∉ l.*1 -> r.1 = la).
Proof.
  induction l as [| [v0 s0] rest IH]; intros Hnd la M; cbn [fold_left].
  - cbn. repeat split; try lia; intros; try set_solver.
  - apply NoDup_cons in Hnd. cbn [fmap list_fmap fst] in Hnd. destruct Hnd as [Hv0 Hnd].
    specialize (IH Hnd (if String.eqb v0 sym then s0 else la)
                  (if Nat.leb M (size s0) then size s0 else M)).
    cbn [fst snd] in *. cbv zeta in *. destruct IH as (IH1 & IH2 & IH3 & IH4).
    assert (HM : (M <= (if Nat.leb M (size s0) then size s0 else M))%nat
                 /\ (size s0 <= (if Nat.leb M (size s0) then size s0 else M))%nat).
    { destruct (Nat.leb_spec M (size s0)); lia. }
    split; [lia |]. split; [| split].
    + intros v s Hvs. apply elem_of_cons in Hvs. destruct Hvs as [[= -> ->] | Hvs].
      * lia.
      * apply (IH2 v s). exact Hvs.
    + intros s Hs. apply elem_of_cons in Hs. destruct Hs as [[= <- ->] | Hs].
      * rewrite IH4; [rewrite String.eqb_refl; reflexivity | exact Hv0].
      * apply IH3; exact Hs.
    + intros Hnot. cbn [fmap list_fmap fst] in Hnot. apply not_elem_of_cons in Hnot.
      destruct Hnot as [Hne Hnot]. rewrite (IH4 Hnot).
      destruct (String.eqb_spec v0 sym); [congruence | reflexivity].
Qed.

(** The largest size found by the scan is the start value or the size of
    an entry. *)
Lemma scan_fold_attained (sym : string) (l : list (string * gset string)) :
  forall (la : gset string) (M : nat),
    let r := fold_left
               (fun '(localadj, maxSize) (mp : string * gset string) =>
                  let localadj := if String.eqb mp.1 sym then mp.2 else localadj in
                  let maxSize := if Nat.leb maxSize (size mp.2) then size mp.2 else maxSize in
                  (localadj, maxSize))
               l (la, M) in
    r.2 = M \/ exists v s, (v, s) ∈ l /\ size s = r.2.
Proof.
  induction l as [| [v0 s0] rest IH]; intros la M; cbn [fold_left].
  - left. reflexivity.
  - specialize (IH (if String.eqb v0 sym then s0 else la)
                  (if Nat.leb M (size s0) then size s0 else M)).
    cbn [fst snd] in *. cbv zeta in *. destruct IH as [IH | (v & s1 & Hin & Hsz)].
    + rewrite IH. destruct (Nat.leb M (size s0)); [| left; reflexivity].
      right. exists v0, s0. split; [apply list_elem_of_here | reflexivity].
    + right. exists v, s1. split; [apply list_elem_of_further; exact Hin | exact Hsz].
Qed.

(** The scan of the adjacency map finds the largest degree, 0 for an
    empty map, and the adjacency of the local symbol. *)
Lemma scan_degrees_spec (t : Topology) :
  (forall v s, m_adjlist t !! v = Some s -> (size s <= (scan_degrees t).2)%nat)
  /\ (forall s, m_adjlist t !! m_localsymbol t = Some s -> (scan_degrees t).1 = s)
  /\ ((scan_degrees t).2 = 0%nat
      \/ exists v s, m_adjlist t !! v = Some s /\ size s = (scan_degrees t).2)
  /\ (m_adjlist t !! m_localsymbol t = None -> (scan_degrees t).1 = m_localadj t).
Proof.
  pose proof (scan_fold_spec (m_localsymbol t) (map_to_list (m_adjlist t))
                (NoDup_fst_map_to_list (m_adjlist t)) (m_localadj t) 0%nat) as H.
  pose proof (scan_fold_attained (m_localsymbol t) (map_to_list (m_adjlist t))
                (m_localadj t) 0%nat) as Hat.
  cbv zeta in H, Hat. destruct H as (_ & H2 & H3 & H4). unfold scan_degrees.
  split; [| split; [| split]].
  - intros v s Hvs. apply (H2 v s). apply elem_of_map_to_list. exact Hvs.
  - intros s Hs. apply (H3 s). apply elem_of_map_to_list. exact Hs.
  - destruct Hat as [Hat | (v & s1 & Hin & Hsz)]; [left; exact Hat |].
    right. exists v, s1. split; [apply elem_of_map_to_list; exact Hin | exact Hsz].
  - intros Hn. apply H4. intros Hin. apply list_elem_of_fmap in Hin as ([v s1] & Hv & Hin).
    apply elem_of_map_to_list in Hin. cbn in Hv. subst v. congruence.
Qed.

(** X3.  After a load from a file that returns, [epsil] is one over the
    largest degree of the adjacency map plus one (one, for an empty map),
    the neighbour counter is the size of the local adjacency, and the local
    adjacency is the entry of the local symbol when it has one and is left
    alone otherwise.  With an entry, the ratios that [DESDScheduledMethod]
    derives are [epsil] for a neighbour and one less the degree of the node
    times [epsil] for the node itself; as the degree is at most the largest
    one, both are positive. *)
Theorem LoadTopology_scales_by_largest_degree (uuid : string) (text : string)
    (t t' : Topology) :
  LoadTopology uuid (Contents text) t = Done t' ->
  exists maxSize : nat,
    epsil t' = 1 / inject_Z (Z.of_nat maxSize + 1)
    /\ (forall v s, m_adjlist t' !! v = Some s -> (size s <= maxSize)%nat)
    /\ (maxSize = 0%nat \/ exists v s, m_adjlist t' !! v = Some s /\ size s = maxSize)
    /\ m_adjnum t' = Z.of_nat (size (m_localadj t'))
    /\ match m_adjlist t' !! m_localsymbol t' with
       | None => m_localadj t' = m_localadj t /\ ratios t' = None
       | Some adjset =>
           m_localadj t' = adjset
           /\ (size adjset <= maxSize)%nat
           /\ ratios t'
              = Some (1 - inject_Z (Z.of_nat (size adjset)) * epsil t', epsil t')
           /\ 0 < epsil t'
           /\ 0 < 1 - inject_Z (Z.of_nat (size adjset)) * epsil t'
       end.
Proof.
  unfold LoadTopology. destruct (read_tokens uuid (Arm.words text) t) as [t1 | |] eqn:Er;
    try discriminate.
  pose proof (scan_degrees_spec t1) as (Hmax & Hloc & Hat & Hnone).
  assert (Hla : m_localadj t1 = m_localadj t).
  { clear - Er. revert t t1 Er.
    induction (Arm.words text) as [| a | a b | a b c rest IH] using words_ind3;
      intros t t1.
    - cbn. intros [= <-]. reflexivity.
    - cbn. destruct (String.eqb a "edge"); [| destruct (String.eqb a "sst")]; discriminate.
    - cbn. destruct (String.eqb a "edge"); [| destruct (String.eqb a "sst")]; discriminate.
    - cbn [read_tokens]. destruct (String.eqb a "edge").
      + intros H. rewrite (IH _ _ H). reflexivity.
      + destruct (String.eqb a "sst"); [| discriminate].
        intros H. rewrite (IH _ _ H). reflexivity. }
  destruct (scan_degrees t1) as [localadj maxSize]. cbn [fst snd] in *.
  intros [= <-]. exists maxSize. unfold ratios.
  cbn [epsil m_adjlist m_adjnum m_localadj m_localsymbol].
  split; [reflexivity |]. split; [exact Hmax |]. split; [exact Hat |].
  split; [reflexivity |].
  destruct (m_adjlist t1 !! m_localsymbol t1) as [adjset |] eqn:E.
  - rewrite (Hloc adjset eq_refl). specialize (Hmax _ _ E).
    split; [reflexivity |]. split; [exact Hmax |]. split; [reflexivity |].
    set (d := size adjset) in *.
    assert (Hpos : 0 < inject_Z (Z.of_nat maxSize + 1)).
    { change 0 with (inject_Z 0). rewrite <- Zlt_Qlt. lia. }
    assert (He : 0 < 1 / inject_Z (Z.of_nat maxSize + 1)).
    { apply Qlt_shift_div_l; [exact Hpos |]. rewrite Qmult_0_l. reflexivity. }
    assert (Hd : inject_Z (Z.of_nat d) * (1 / inject_Z (Z.of_nat maxSize + 1)) < 1).
    { unfold Qdiv. rewrite Qmult_1_l.
      apply Qlt_shift_div_r; [exact Hpos |]. rewrite Qmult_1_l. rewrite <- Zlt_Qlt. lia. }
    split; [exact He |].
    apply Qlt_minus_iff in Hd. unfold Qminus. exact Hd.
  - split; [| reflexivity]. rewrite (Hnone eq_refl). exact Hla.
Qed.

(** X3 (witness): the node of "2" in the chain has two neighbours and
    the largest degree is two. *)
Lemma LoadTopology_scales_by_largest_degree_witness :
  exists t' maxSize,
    LoadTopology "uuid-2" chain_file (unloaded 0) = Done t'
    /\ epsil t' = 1 / inject_Z (Z.of_nat maxSize + 1)
    /\ (forall v s, m_adjlist t' !! v = Some s -> (size s <= maxSize)%nat)
    /\ (maxSize = 0%nat \/ exists v s, m_adjlist t' !! v = Some s /\ size s = maxSize)
    /\ m_adjnum t' = Z.of_nat (size (m_localadj t')).
Proof.
  destruct (LoadTopology "uuid-2" chain_file (unloaded 0)) as [t' | |] eqn:E;
    try (vm_compute in E; discriminate).
  destruct (LoadTopology_scales_by_largest_degree "uuid-2" _ (unloaded 0) t' E)
    as (maxSize & H1 & H2 & H3 & H4 & _).
  exists t', maxSize. split; [reflexivity |].
  split; [exact H1 |]. split; [exact H2 |]. split; [exact H3 | exact H4].
Defined.

End TopologyProperties.

(** ** Dispatch solver: a round of messages *)
Section RoundProperties.
Import DDA DDARound.
Local Open Scope Q_scope.

(** Unfolding of the record plumbing of every stage of a round. *)
Ltac round_reduce :=
  cbv beta iota zeta delta
    [desd_update desd_power desd_residuals desd_duals grid_update role_update clear_sums
     for3 fold_left get set
     with_iteration with_adjnum with_inideltaP with_inilambda with_nextdeltaP
     with_nextlambda with_adjdeltaP with_adjlambda with_deltaP1 with_deltaP2
     with_inimu with_inixi with_nextmu with_nextxi with_inipower with_nextpower
     DDA.with_sent
     m_iteration m_localsymbol m_localadj DDA.m_strans m_adjnum m_localratio m_adjratio
     m_inideltaP m_inilambda m_nextdeltaP m_nextlambda m_adjdeltaP m_adjlambda
     m_deltaP1 m_deltaP2 m_inimu m_inixi m_nextmu m_nextxi m_inipower m_nextpower
     DDA.sent a0 a1 a2].

Lemma role_update_frame (s : DDAAgent) : same_frame s (role_update s).
Proof.
  unfold same_frame, role_update.
  destruct (is_desd_symbol (m_localsymbol s)); [| destruct (String.eqb (m_localsymbol s) "1")];
    destruct s; round_reduce; repeat split.
Qed.

Lemma deltaPLambdaUpdate_frame (s : DDAAgent) :
  same_frame s (deltaPLambdaUpdate s)
  /\ m_inipower (deltaPLambdaUpdate s) = m_inipower s
  /\ m_inimu (deltaPLambdaUpdate s) = m_inimu s
  /\ m_inixi (deltaPLambdaUpdate s) = m_inixi s.
Proof.
  unfold same_frame, deltaPLambdaUpdate.
  destruct (Z.rem (m_iteration s) inner_iter =? 0)%Z; destruct s; round_reduce; repeat split.
Qed.

(** [sendtoAdjList] appends one copy of the packed state per reachable
    neighbour and changes nothing else. *)
Lemma sendtoAdjList_sends (s : DDAAgent) :
  sendtoAdjList s
  = DDA.with_sent (DDA.sent s ++ map (fun id => (id, pack s)) (targets s)) s.
Proof.
  unfold sendtoAdjList, targets. generalize (pack s) as msg. intros msg.
  generalize (elements (m_localadj s)) as l. intros l. revert s.
  induction l as [| a rest IH]; intros s; cbn [fold_left omap map].
  - destruct s. cbn. rewrite app_nil_r. reflexivity.
  - destruct (DDA.m_strans s !! a) as [id |] eqn:E.
    + rewrite IH. cbn [list_omap]. rewrite E. cbn [map].
      change (DDA.m_strans (DDA.with_sent (DDA.sent s ++ [(id, msg)]) s)) with (DDA.m_strans s).
      change (DDA.sent (DDA.with_sent (DDA.sent s ++ [(id, msg)]) s))
        with (DDA.sent s ++ [(id, msg)])%list.
      rewrite <- app_assoc. reflexivity.
    + rewrite IH. cbn [list_omap]. rewrite E. reflexivity.
Qed.

(** The closing message runs the role update, the consensus update, the
    reload of the counter, the step of the iteration, the broadcast below
    the limit, and clears the sums. *)
Lemma HandleUpdate_closing (s : DDAAgent) (msg : DesdStateMessage) :
  closing s msg = true ->
  HandleUpdate s msg = clear_sums (finish_round (role_update (with_adjnum 0 s))).
Proof.
  unfold closing. intros H. apply andb_true_iff in H. destruct H as [H H3].
  apply andb_true_iff in H. destruct H as [H1 H2].
  unfold HandleUpdate. rewrite H1, H2. cbn [m_adjnum with_adjnum]. rewrite H3. cbn [negb].
  apply Z.eqb_eq in H3. rewrite H3. unfold role_update.
  change (m_localsymbol (with_adjnum 0 s)) with (m_localsymbol s).
  destruct (is_desd_symbol (m_localsymbol s)); [reflexivity |].
  destruct (String.eqb (m_localsymbol s) "1"); reflexivity.
Qed.

(** A message that does not close the round leaves everything but the
    counter and the two sums alone; one that is not taken in leaves
    everything alone. *)
Lemma HandleUpdate_not_closing (s : DDAAgent) (msg : DesdStateMessage) :
  closing s msg = false ->
  same_frame (with_adjnum (m_adjnum (HandleUpdate s msg)) s) (HandleUpdate s msg)
  /\ m_inipower (HandleUpdate s msg) = m_inipower s
  /\ m_inimu (HandleUpdate s msg) = m_inimu s
  /\ m_inixi (HandleUpdate s msg) = m_inixi s
  /\ m_inideltaP (HandleUpdate s msg) = m_inideltaP s
  /\ m_inilambda (HandleUpdate s msg) = m_inilambda s.
Proof.
  unfold closing, HandleUpdate, same_frame. intros H.
  destruct (iteration msg =? m_iteration s)%Z; [| repeat split].
  destruct (bool_decide (symbol msg ∈ m_localadj s)); [| repeat split].
  cbn [andb] in H. cbn [m_adjnum with_adjnum]. rewrite H. cbn [negb].
  repeat split.
Qed.

Lemma finish_round_stepped (s : DDAAgent) :
  finish_round (role_update (with_adjnum 0 s))
  = if (m_iteration (stepped s) <? 5000)%Z then sendtoAdjList (stepped s) else stepped s.
Proof. reflexivity. Qed.

(** The reload of the counter and the step of the iteration. *)
Lemma reload_and_step (x : DDAAgent) (n : Z) :
  let x' := with_iteration (m_iteration (with_adjnum n x) + 1)%Z (with_adjnum n x) in
  m_iteration x' = (m_iteration x + 1)%Z /\ m_adjnum x' = n
  /\ m_localadj x' = m_localadj x /\ m_localsymbol x' = m_localsymbol x
  /\ DDA.m_strans x' = DDA.m_strans x /\ DDA.sent x' = DDA.sent x
  /\ m_inipower x' = m_inipower x /\ m_inimu x' = m_inimu x /\ m_inixi x' = m_inixi x.
Proof. destruct x. cbv zeta. repeat split. Qed.

(** Just before the broadcast of a closing round. *)
Lemma stepped_spec (s : DDAAgent) :
  m_iteration (stepped s) = (m_iteration s + 1)%Z
  /\ m_adjnum (stepped s) = Z.of_nat (size (m_localadj s))
  /\ m_localadj (stepped s) = m_localadj s
  /\ m_localsymbol (stepped s) = m_localsymbol s
  /\ DDA.m_strans (stepped s) = DDA.m_strans s
  /\ DDA.sent (stepped s) = DDA.sent s
  /\ m_inipower (stepped s) = m_inipower (role_update (with_adjnum 0 s))
  /\ m_inimu (stepped s) = m_inimu (role_update (with_adjnum 0 s))
  /\ m_inixi (stepped s) = m_inixi (role_update (with_adjnum 0 s)).
Proof.
  pose proof (role_update_frame (with_adjnum 0 s)) as (R1 & R2 & R3 & R4 & R5 & R6).
  pose proof (deltaPLambdaUpdate_frame (role_update (with_adjnum 0 s)))
    as ((D1 & D2 & D3 & D4 & D5 & D6) & P1 & P2 & P3).
  pose proof (reload_and_step (deltaPLambdaUpdate (role_update (with_adjnum 0 s)))
                (Z.of_nat (size (m_localadj
                   (deltaPLambdaUpdate (role_update (with_adjnum 0 s)))))))
    as (B1 & B2 & B3 & B4 & B5 & B6 & B7 & B8 & B9).
  unfold stepped.
  rewrite B1, B2, B3, B4, B5, B6, B7, B8, B9, D1, D2, D3, D4, D6, R1, R2, R3, R4, R6,
    P1, P2, P3.
  destruct s. repeat split.
Qed.

(** The broadcast and the clearing of the sums keep what the round has
    committed. *)
Lemma after_stepped (s : DDAAgent) (x : DDAAgent) :
  x = clear_sums (stepped s) \/ x = clear_sums (sendtoAdjList (stepped s)) ->
  m_iteration x = m_iteration (stepped s) /\ m_adjnum x = m_adjnum (stepped s)
  /\ m_localadj x = m_localadj (stepped s) /\ m_localsymbol x = m_localsymbol (stepped s)
  /\ DDA.m_strans x = DDA.m_strans (stepped s)
  /\ m_inipower x = m_inipower (stepped s) /\ m_inimu x = m_inimu (stepped s)
  /\ m_inixi x = m_inixi (stepped s)
  /\ pack x = pack (stepped s)
  /\ m_adjdeltaP x = zero3 /\ m_adjlambda x = zero3.
Proof.
  intros [-> | ->]; [| rewrite sendtoAdjList_sends]; destruct (stepped s);
    unfold pack; round_reduce; repeat split.
Qed.

(** State of the round after the closing message. *)
Lemma closed_round (s : DDAAgent) (msg : DesdStateMessage) :
  closing s msg = true ->
  let s' := HandleUpdate s msg in
  m_iteration s' = (m_iteration s + 1)%Z
  /\ m_adjnum s' = Z.of_nat (size (m_localadj s))
  /\ m_localadj s' = m_localadj s
  /\ m_localsymbol s' = m_localsymbol s
  /\ DDA.m_strans s' = DDA.m_strans s
  /\ m_inipower s' = m_inipower (role_update (with_adjnum 0 s))
  /\ m_inimu s' = m_inimu (role_update (with_adjnum 0 s))
  /\ m_inixi s' = m_inixi (role_update (with_adjnum 0 s))
  /\ pack s' = pack (stepped s)
  /\ m_adjdeltaP s' = zero3 /\ m_adjlambda s' = zero3.
Proof.
  intros Hc. cbv zeta. rewrite (HandleUpdate_closing s msg Hc), finish_round_stepped.
  pose proof (stepped_spec s) as (S1 & S2 & S3 & S4 & S5 & S6 & S7 & S8 & S9).
  assert (H : clear_sums (if (m_iteration (stepped s) <? 5000)%Z
                          then sendtoAdjList (stepped s) else stepped s)
              = clear_sums (stepped s)
              \/ clear_sums (if (m_iteration (stepped s) <? 5000)%Z
                             then sendtoAdjList (stepped s) else stepped s)
                 = clear_sums (sendtoAdjList (stepped s))).
  { destruct (m_iteration (stepped s) <? 5000)%Z; auto. }
  destruct (after_stepped s _ H) as (A1 & A2 & A3 & A4 & A5 & A6 & A7 & A8 & A9 & A10 & A11).
  rewrite A1, A2, A3, A4, A5, A6, A7, A8, A9, S1, S2, S3, S4, S5, S7, S8, S9.
  repeat split; assumption.
Qed.

(** X4.  A round closes on the message of the last outstanding neighbour
    and not before: when the counter stands at n >= 1, n messages of the
    current iteration from adjacent symbols step the iteration by exactly
    one, reload the counter with the degree and leave both sums at zero,
    and after any smaller number of them the iteration has not moved. *)
Theorem round_closes_on_last_neighbour (msgs : list DesdStateMessage) :
  forall s : DDAAgent,
    (1 <= m_adjnum s)%Z ->
    length msgs = Z.to_nat (m_adjnum s) ->
    Forall (taken_in s) msgs ->
    m_iteration (handle_all s msgs) = (m_iteration s + 1)%Z
    /\ m_adjnum (handle_all s msgs) = Z.of_nat (size (m_localadj s))
    /\ m_adjdeltaP (handle_all s msgs) = zero3
    /\ m_adjlambda (handle_all s msgs) = zero3
    /\ forall k, (k < length msgs)%nat ->
                 m_iteration (handle_all s (take k msgs)) = m_iteration s.
Proof.
  induction msgs as [| m rest IH]; intros s Hn Hlen Htaken.
  - cbn in Hlen. lia.
  - apply Forall_cons in Htaken. destruct Htaken as [[Hit Hadj] Hrest].
    unfold handle_all in *. cbn [fold_left].
    destruct (Z.eq_dec (m_adjnum s) 1%Z) as [E1 | E1].
    + assert (rest = []) as ->.
      { rewrite E1 in Hlen. cbn in Hlen. destruct rest; [reflexivity | discriminate]. }
      cbn [fold_left].
      assert (Hc : closing s m = true).
      { unfold closing. rewrite Hit, Z.eqb_refl, bool_decide_eq_true_2, E1 by exact Hadj.
        reflexivity. }
      destruct (closed_round s m Hc) as (C1 & C2 & _ & _ & _ & _ & _ & _ & _ & C10 & C11).
      repeat split; try assumption.
      intros k Hk. cbn in Hk. assert (k = 0)%nat as -> by lia. reflexivity.
    + destruct (HandleUpdate_accumulates s m Hit Hadj E1) as (_ & _ & Hnum).
      assert (Hc : closing s m = false).
      { unfold closing. destruct (Z.eqb_spec (m_adjnum s - 1) 0) as [E | E]; [lia |].
        rewrite !andb_false_r. reflexivity. }
      destruct (HandleUpdate_not_closing s m Hc) as ((F1 & _ & F3 & _) & _).
      cbn [m_iteration m_localadj with_adjnum] in F1, F3.
      specialize (IH (HandleUpdate s m)).
      rewrite Hnum, F1, F3 in IH.
      destruct IH as (I1 & I2 & I3 & I4 & I5).
      * lia.
      * cbn [length] in Hlen. lia.
      * eapply Forall_impl; [exact Hrest |]. intros x [Hx1 Hx2]. split.
        -- rewrite F1. exact Hx1.
        -- rewrite F3. exact Hx2.
      * repeat split; try assumption.
        intros [| k] Hk; [reflexivity |]. cbn [take fold_left].
        apply I5. cbn [length] in Hk. lia.
Qed.

(** X4 (witness): node "2" with its two neighbours. *)
Lemma round_closes_on_last_neighbour_witness :
  m_iteration (handle_all node2 [state_of "1" 0 4 0; state_of "3" 0 8 0])
  = (m_iteration node2 + 1)%Z
  /\ m_adjnum (handle_all node2 [state_of "1" 0 4 0; state_of "3" 0 8 0])
     = Z.of_nat (size (m_localadj node2))
  /\ m_adjdeltaP (handle_all node2 [state_of "1" 0 4 0; state_of "3" 0 8 0]) = zero3
  /\ m_adjlambda (handle_all node2 [state_of "1" 0 4 0; state_of "3" 0 8 0]) = zero3
  /\ forall k, (k < length [state_of "1" 0 4 0; state_of "3" 0 8 0])%nat ->
               m_iteration (handle_all node2 (take k [state_of "1" 0 4 0; state_of "3" 0 8 0]))
               = m_iteration node2.
Proof.
  apply (round_closes_on_last_neighbour [state_of "1" 0 4 0; state_of "3" 0 8 0] node2).
  - vm_compute. discriminate.
  - reflexivity.
  - repeat constructor; vm_compute; reflexivity.
Defined.

(** X5.  [HandleUpdate] sends exactly when the message closes the round
    and the stepped iteration is below 5000: then every adjacent symbol
    that has a uuid gets one copy of the state the round has committed
    (new iteration, new residuals and prices); in every other case, and so
    for every message once the iteration has reached 4999, nothing is
    sent. *)
Theorem HandleUpdate_broadcasts (s : DDAAgent) (msg : DesdStateMessage) :
  DDA.sent (HandleUpdate s msg)
  = (if closing s msg && (m_iteration s + 1 <? 5000)%Z
     then (DDA.sent s ++ map (fun id => (id, pack (HandleUpdate s msg))) (targets s))%list
     else DDA.sent s)
  /\ (closing s msg = true -> iteration (pack (HandleUpdate s msg)) = (m_iteration s + 1)%Z).
Proof.
  destruct (closing s msg) eqn:Hc.
  - destruct (closed_round s msg Hc) as (C1 & _ & _ & _ & _ & _ & _ & _ & C9 & _).
    split; [| intros _; exact C1].
    rewrite C9. rewrite (HandleUpdate_closing s msg Hc), finish_round_stepped.
    pose proof (stepped_spec s) as (S1 & _ & S3 & _ & S5 & S6 & _).
    rewrite S1. cbn [andb].
    destruct (m_iteration s + 1 <? 5000)%Z.
    + rewrite sendtoAdjList_sends. unfold targets. rewrite S3, S5, S6.
      destruct (stepped s). reflexivity.
    + rewrite <- S6. destruct (stepped s). reflexivity.
  - split; [| discriminate]. cbn [andb].
    destruct (HandleUpdate_not_closing s msg Hc) as ((_ & _ & _ & _ & _ & F6) & _).
    exact F6.
Qed.

(** X5 (witness): the storage node "4" on the closing message of its one
    neighbour. *)
Lemma HandleUpdate_broadcasts_witness :
  iteration (pack (HandleUpdate desd4 (state_of "3" 0 0 0))) = (m_iteration desd4 + 1)%Z.
Proof.
  apply (proj2 (HandleUpdate_broadcasts desd4 (state_of "3" 0 0 0))).
  vm_compute. reflexivity.
Defined.

End RoundProperties.

(** ** Load balancer: the periodic tick and the handshake *)
Section TickProperties.
Import LB LBTick.
Local Open Scope Q_scope.

(** X8.  Whatever the readings are and whichever status [LoadTable]
    derives from them, it files the node under that status and under no
    other: a node that knows itself as a peer is afterwards in the peer set
    of its new status only, wherever it was filed before; the filing of
    every other peer is untouched; the demand value is rewritten only when
    the new status is DEMAND; and the peer list, the setpoint, the device
    commands and the outbox are as before.  A node that is not in its own
    peer list is filed nowhere. *)
Theorem LoadTable_files_self_under_status (tol : Q) (r : Readings) (s : lbAgent) :
  let s' := LoadTable tol r s in
  (uuid s ∈ m_AllPeers s -> forall st, uuid s ∈ class_of st s' <-> st = m_Status s')
  /\ (uuid s ∉ m_AllPeers s -> forall st, class_of st s' = class_of st s)
  /\ (forall p st, p <> uuid s -> p ∈ class_of st s' <-> p ∈ class_of st s)
  /\ (m_Status s' <> DEMAND -> m_DemandVal s' = m_DemandVal s)
  /\ uuid s' = uuid s /\ m_AllPeers s' = m_AllPeers s /\ m_PStar s' = m_PStar s
  /\ m_phyDevManager s' = m_phyDevManager s /\ outbox s' = outbox s.
Proof.
  cbv zeta. unfold LoadTable. cbv zeta.
  destruct (Qltb (m_Load r) (m_Gen r - m_Grid r - tol));
    [| destruct (Qgtb (m_Load r) (m_Gen r - m_Grid r + tol))];
    match goal with |- context [bool_decide ?P] => destruct (bool_decide P) eqn:Eb end;
    [apply bool_decide_eq_true in Eb | apply bool_decide_eq_false in Eb
    |apply bool_decide_eq_true in Eb | apply bool_decide_eq_false in Eb
    |apply bool_decide_eq_true in Eb | apply bool_decide_eq_false in Eb];
    cbn in Eb |- *;
    (split; [try (intros Hin; contradiction); intros _ st; destruct st; cbn;
             split; try (intros; congruence); try (intros _; set_solver); set_solver |]);
    (split; [try (intros Hn; contradiction); intros _ st; destruct st; reflexivity |]);
    (split; [intros p st Hp; destruct st; cbn; set_solver |]);
    (split; [try (intros H; exfalso; apply H; reflexivity); try (intros _; reflexivity) |]);
    repeat split.
Qed.

(** X8 (witness): the node "A" as constructed, on readings of a load of 4
    against a generation of 1. *)
Lemma LoadTable_files_self_under_status_witness :
  uuid started ∈ class_of DEMAND (LoadTable (1 # 2) short_of_power started)
  <-> DEMAND = m_Status (LoadTable (1 # 2) short_of_power started).
Proof.
  apply (proj1 (LoadTable_files_self_under_status (1 # 2) short_of_power started)).
  unfold started. cbn [uuid m_AllPeers]. apply elem_of_singleton_2. reflexivity.
Defined.

Lemma send_fold (msg : string) (l : list string) (s : lbAgent) :
  let f := fun acc peer_ =>
             if String.eqb peer_ (uuid acc) then acc else Send peer_ (OutLb msg None) acc in
  same_node s (fold_left f l s) /\ log (fold_left f l s) = log s
  /\ outbox (fold_left f l s)
     = (outbox s ++ ((fun p => (p, OutLb msg None)) <$> filter (fun p => p <> uuid s) l))%list.
Proof.
  cbv zeta. revert s. induction l as [| p l IH]; intros s.
  - cbn. rewrite app_nil_r. unfold same_node. repeat split.
  - cbn [fold_left]. destruct (String.eqb p (uuid s)) eqn:E.
    + apply String.eqb_eq in E. rewrite filter_cons_False by (intros H; apply H; exact E).
      apply IH.
    + apply String.eqb_neq in E. rewrite filter_cons_True by exact E.
      destruct (IH (Send p (OutLb msg None) s)) as (Hs & Hl & Ho).
      split; [| split].
      * unfold same_node in *. cbn in Hs. exact Hs.
      * rewrite Hl. reflexivity.
      * rewrite Ho. cbn. rewrite <- app_assoc. reflexivity.
Qed.

Lemma SendMsg_spec (msg : string) (P : gset string) (s : lbAgent) :
  same_node s (SendMsg msg P s)
  /\ added s (SendMsg msg P s)
       ((fun p => (p, OutLb msg None)) <$> filter (fun p => p <> uuid s) (elements P)).
Proof.
  unfold SendMsg, added. cbv zeta.
  set (s0 := logline Notice _ s).
  destruct (send_fold msg (elements P) s0) as (Hs & _ & Ho). split.
  - unfold same_node in *. cbn in Hs. exact Hs.
  - rewrite Ho. reflexivity.
Qed.

(** X9.  [SendMsg] sends the message once to every member of the peer
    set other than this node, to nobody else and never to this node itself,
    each time with no value attached; apart from the outbox and the log the
    state is unchanged. *)
Theorem SendMsg_reaches_every_other_peer (msg : string) (P : gset string) (s : lbAgent) :
  exists new,
    added s (SendMsg msg P s) new
    /\ same_node s (SendMsg msg P s)
    /\ NoDup new
    /\ forall p m, (p, m) ∈ new <-> p ∈ P /\ p <> uuid s /\ m = OutLb msg None.
Proof.
  destruct (SendMsg_spec msg P s) as (Hs & Ha).
  eexists. split; [exact Ha |]. split; [exact Hs |]. split.
  - apply NoDup_fmap_2.
    + intros a b H. congruence.
    + apply NoDup_filter. apply NoDup_elements.
  - intros p m. rewrite list_elem_of_fmap. split.
    + intros (q & [= -> ->] & Hq). apply list_elem_of_filter in Hq as [Hne Hin].
      apply elem_of_elements in Hin. auto.
    + intros (Hin & Hne & ->). exists p. split; [reflexivity |].
      apply list_elem_of_filter. split; [exact Hne |]. apply elem_of_elements. exact Hin.
Qed.

Lemma LoadTable_frame (tol : Q) (r : Readings) (s : lbAgent) :
  let s' := LoadTable tol r s in
  uuid s' = uuid s /\ m_AllPeers s' = m_AllPeers s /\ outbox s' = outbox s
  /\ m_phyDevManager s' = m_phyDevManager s /\ m_PStar s' = m_PStar s
  /\ (forall p, p <> uuid s -> (p ∈ m_HiNodes s' <-> p ∈ m_HiNodes s)
                             /\ (p ∈ m_LoNodes s' <-> p ∈ m_LoNodes s)
                             /\ (p ∈ m_NoNodes s' <-> p ∈ m_NoNodes s)).
Proof.
  cbv zeta. unfold LoadTable. cbv zeta.
  destruct (Qltb _ _); [| destruct (Qgtb _ _)];
    match goal with |- context [bool_decide ?P] => destruct (bool_decide P) end;
    cbn; repeat split; try set_solver.
Qed.

(** X10.  What a tick of the load timer sends is decided by the status
    that [LoadTable] has just computed: "demand" to every known peer on
    every tick in DEMAND; "normal" to every known peer on the tick that
    goes from DEMAND to NORM; "request" to the peers classified as DEMAND on
    every tick in SUPPLY; nothing otherwise, and never anything to the node
    itself. *)
Theorem LoadManage_announces (tol : Q) (r : Readings) (s : lbAgent) :
  let st := m_Status (LoadTable tol r s) in
  exists new,
    added s (LoadManage tol r s) new
    /\ forall p m,
        (p, m) ∈ new <->
        p <> uuid s
        /\ ((st = DEMAND /\ p ∈ m_AllPeers s /\ m = OutLb "demand" None)
            \/ (st = NORM /\ m_Status s = DEMAND /\ p ∈ m_AllPeers s
                /\ m = OutLb "normal" None)
            \/ (st = SUPPLY /\ p ∈ m_HiNodes s /\ m = OutLb "request" None)).
Proof.
  cbv zeta. unfold LoadManage. cbv zeta.
  destruct (LoadTable_frame tol r s) as (Hu & Hall & Hout & _ & _ & Hsets).
  cbv zeta in Hu, Hall, Hout, Hsets.
  set (t := LoadTable tol r s) in *.
  assert (Hmem : forall msg (P : gset string) p m,
             (p, m) ∈ ((fun p => (p, OutLb msg None)) <$> filter (fun p => p <> uuid t) (elements P))
             <-> p ∈ P /\ p <> uuid s /\ m = OutLb msg None).
  { intros msg P p m. rewrite list_elem_of_fmap. rewrite Hu. split.
    - intros (q & [= -> ->] & Hq). apply list_elem_of_filter in Hq as [Hne Hin].
      apply elem_of_elements in Hin. auto.
    - intros (Hin & Hne & ->). exists p. split; [reflexivity |].
      apply list_elem_of_filter. split; [exact Hne |]. apply elem_of_elements. exact Hin. }
  destruct (m_Status t) eqn:Et; cbn [status_eqb].
  - (* SUPPLY *)
    rewrite andb_false_r.
    unfold SendDraftRequest. rewrite Et. cbn [status_eqb].
    destruct (bool_decide (m_HiNodes t = ∅)) eqn:Eh.
    + apply bool_decide_eq_true in Eh. exists []. split.
      * unfold added. cbn [outbox logline with_log]. rewrite Hout, app_nil_r. reflexivity.
      * intros p m. split; [intros H; inversion H |].
        intros (Hne & [(H & _) | [(H & _) | (_ & Hin & _)]]); try discriminate.
        apply (proj1 (Hsets p Hne)) in Hin. set_solver.
    + destruct (SendMsg_spec "request" (m_HiNodes t) t) as (_ & Ha).
      eexists. split.
      * unfold added in *. rewrite Ha, Hout. reflexivity.
      * intros p m. rewrite Hmem. split.
        -- intros (Hin & Hne & ->). split; [exact Hne |]. right; right.
           split; [reflexivity |]. split; [| reflexivity].
           apply (proj1 (Hsets p Hne)). exact Hin.
        -- intros (Hne & [(H & _) | [(H & _) | (_ & Hin & ->)]]); try discriminate.
           split; [| split; [exact Hne | reflexivity]].
           apply (proj1 (Hsets p Hne)). exact Hin.
  - (* NORM *)
    destruct (m_Status s) eqn:Es; cbn [status_eqb andb].
    + exists []. split.
      * unfold added. rewrite Hout, app_nil_r. reflexivity.
      * intros p m. split; [intros H; inversion H |].
        intros (_ & [(H & _) | [(_ & H & _) | (H & _)]]); discriminate.
    + exists []. split.
      * unfold added. rewrite Hout, app_nil_r. reflexivity.
      * intros p m. split; [intros H; inversion H |].
        intros (_ & [(H & _) | [(_ & H & _) | (H & _)]]); discriminate.
    + destruct (SendMsg_spec "normal" (m_AllPeers t) t) as (_ & Ha).
      eexists. split.
      * unfold added in *. rewrite Ha, Hout. reflexivity.
      * intros p m. rewrite Hmem, Hall. split.
        -- intros (Hin & Hne & ->). split; [exact Hne |]. right; left. auto.
        -- intros (Hne & [(H & _) | [(_ & _ & Hin & ->) | (H & _)]]); try discriminate.
           auto.
  - (* DEMAND *)
    destruct (SendMsg_spec "demand" (m_AllPeers t) t) as (_ & Ha).
    eexists. split.
    + unfold added in *. rewrite Ha, Hout. reflexivity.
    + intros p m. rewrite Hmem, Hall. split.
      * intros (Hin & Hne & ->). split; [exact Hne |]. left. auto.
      * intros (Hne & [(_ & Hin & ->) | [(H & _) | (H & _)]]); try discriminate.
        auto.
Qed.

End TickProperties.

(** ** Load balancer: message handling *)
Section ReadProperties.
Import LB LBTick.
Local Open Scope Q_scope.

Lemma chain_step (P : outcome lbAgent -> Prop) (c : bool) (s : lbAgent)
    (peer_ : option string) (branch : string -> outcome lbAgent) (rest : outcome lbAgent) :
  (peer_ = None -> P Undefined) -> (forall p, peer_ = Some p -> P (branch p)) -> P rest ->
  P (if c then guard s peer_ branch rest else rest).
Proof.
  intros HU Hb Hr. destruct c; [| exact Hr]. unfold guard.
  destruct peer_ as [p |]; [| apply HU; reflexivity].
  destruct (negb (String.eqb p (uuid s))); [apply Hb; reflexivity | exact Hr].
Qed.

(** Every branch of the chain on the kind of message has a property as
    soon as each handler has it. *)
Lemma on_lb_cases (P : outcome lbAgent -> Prop) (s : lbAgent) (peer_ : option string)
    (msg : CMessage) (kind : string) :
  (peer_ = None -> P Undefined) ->
  P (Done (logline Warn "Invalid Message Type" s)) ->
  P (on_collected s msg) ->
  (forall p, peer_ = Some p -> P (on_accept s msg p)) ->
  (forall p, peer_ = Some p -> P (on_drafting s p)) ->
  (forall p, peer_ = Some p -> P (on_yesno s kind p)) ->
  (forall p, peer_ = Some p -> P (on_request s p)) ->
  (forall p text which, peer_ = Some p -> P (on_announce text which s msg p)) ->
  P (on_lb s peer_ msg kind).
Proof.
  intros HU Hinv Hcol Hacc Hdr Hyn Hreq Hann.
  unfold on_lb.
  set (br_invalid := Done _).
  set (br_collected := if String.eqb kind "CollectedState" then _ else _).
  set (br_accept := if String.eqb kind "accept" then _ else _).
  set (br_drafting := if String.eqb kind "drafting" then _ else _).
  set (br_yesno := if String.eqb kind "yes" || String.eqb kind "no" then _ else _).
  set (br_request := if String.eqb kind "request" then _ else _).
  set (br_supply := if String.eqb kind "supply" then _ else _).
  set (br_normal := if String.eqb kind "normal" then _ else _).
  cbv zeta.
  assert (H1 : P br_collected).
  { unfold br_collected. destruct (String.eqb kind "CollectedState"); assumption. }
  assert (H2 : P br_accept) by (apply chain_step; auto).
  assert (H3 : P br_drafting) by (apply chain_step; auto).
  assert (H4 : P br_yesno) by (apply chain_step; auto).
  assert (H5 : P br_request) by (apply chain_step; auto).
  assert (H6 : P br_supply) by (apply chain_step; auto).
  assert (H7 : P br_normal) by (apply chain_step; auto).
  apply chain_step; auto.
Qed.

Lemma sender_entry_cases (s : lbAgent) (line_ : string) :
  (line_ = uuid s /\ sender_entry s line_ = (s, None))
  \/ (line_ <> uuid s /\ (line_ ∈ m_AllPeers s) /\ sender_entry s line_ = (s, Some line_))
  \/ (line_ <> uuid s /\ (line_ ∉ m_AllPeers s)
      /\ sender_entry s line_ = (add_peer line_ s, Some line_)).
Proof.
  unfold sender_entry. destruct (String.eqb line_ (uuid s)) eqn:E.
  - apply String.eqb_eq in E. left. split; [exact E | reflexivity].
  - apply String.eqb_neq in E. right. cbn [negb].
    destruct (get_peer line_ s) as [p |] eqn:Eg.
    + left. pose proof (get_peer_Some _ _ _ Eg) as ->.
      unfold get_peer in Eg. destruct (bool_decide (line_ ∈ m_AllPeers s)) eqn:Eb;
        [| discriminate].
      apply bool_decide_eq_true in Eb. repeat split; assumption.
    + right. unfold get_peer in Eg.
      destruct (bool_decide (line_ ∈ m_AllPeers s)) eqn:Eb; [discriminate |].
      apply bool_decide_eq_false in Eb. cbv zeta. rewrite get_peer_add_peer.
      repeat split; assumption.
Qed.

Lemma tables_same_node (s s' : lbAgent) :
  same_node s s' -> tables_in_order s -> tables_in_order s'.
Proof.
  unfold same_node, tables_in_order.
  intros (-> & _ & _ & _ & _ & -> & -> & -> & -> & _). tauto.
Qed.

Lemma tables_classify (p : string) (which : EStatus) (s : lbAgent) :
  p ∈ m_AllPeers s -> tables_in_order s -> tables_in_order (classify p which s).
Proof.
  unfold tables_in_order, classify. destruct which; cbn; intros Hp H; set_solver.
Qed.

Lemma tables_add_peer (u : string) (s : lbAgent) :
  u ∉ m_AllPeers s -> tables_in_order s -> tables_in_order (add_peer u s).
Proof. unfold tables_in_order, add_peer. cbn. intros Hp H. set_solver. Qed.

Lemma gateway_loop_same_node (gw : list (option Q)) (s : lbAgent) :
  holds_after (fun s' => same_node s s' /\ outbox s' = outbox s) (gateway_loop gw s)
  /\ gateway_loop gw s <> Undefined.
Proof.
  revert s. induction gw as [| v gw IH]; intros s; cbn.
  - split; [unfold same_node; repeat split | discriminate].
  - destruct v as [v |].
    + destruct (IH (logline Notice "SC module returned gateway values: " s)) as [H1 H2].
      split; [| exact H2].
      destruct (gateway_loop gw _); cbn in *; try exact I; unfold same_node in *; cbn in H1;
        exact H1.
    + split; [unfold same_node; repeat split | discriminate].
Qed.

Lemma intransit_same_node (l : list string) (s : lbAgent) :
  same_node s
    (fold_left (fun acc _ => logline Status "SC module returned intransit messages: " acc) l s)
  /\ outbox (fold_left (fun acc _ => logline Status "SC module returned intransit messages: " acc)
               l s) = outbox s.
Proof.
  revert s. induction l as [| x l IH]; intros s; cbn [fold_left].
  - split; [unfold same_node; repeat split | reflexivity].
  - destruct (IH (logline Status "SC module returned intransit messages: " s)) as [H1 H2].
    split; [unfold same_node in *; cbn in H1; exact H1 | rewrite H2; reflexivity].
Qed.

Lemma peers_fold_tables (peers : list string) (s : lbAgent) :
  tables_in_order s ->
  tables_in_order
    (fold_left (fun acc v => match get_peer v acc with
                             | Some _ => acc
                             | None => add_peer v acc
                             end) peers s).
Proof.
  revert s. induction peers as [| v peers IH]; intros s H; cbn [fold_left]; [exact H |].
  apply IH. unfold get_peer. destruct (bool_decide (v ∈ m_AllPeers s)) eqn:E; [exact H |].
  apply bool_decide_eq_false in E. apply tables_add_peer; assumption.
Qed.

Lemma on_peer_list_tables (s : lbAgent) (msg : CMessage) :
  tables_in_order s -> holds_after tables_in_order (on_peer_list s msg).
Proof.
  intros H. unfold on_peer_list. cbv zeta.
  set (s1 := with_Leader (src msg) _).
  assert (H1 : tables_in_order s1) by (unfold tables_in_order in *; cbn; exact H).
  assert (Hlater : forall s2, tables_in_order s2 ->
            holds_after tables_in_order
              (if bool_decide (m_AllPeers s2 ∖ {[uuid s2]} = ∅) then
                 match any_peers msg with
                 | None => Raised s2 "ptree_bad_path"
                 | Some peers =>
                     Done (fold_left
                             (fun acc v => match get_peer v acc with
                                           | Some _ => acc
                                           | None => add_peer v acc
                                           end) peers s2)
                 end
               else Undefined)).
  { intros s2 H2. destruct (bool_decide _); [| exact I].
    destruct (any_peers msg); cbn; [apply peers_fold_tables |]; exact H2. }
  destruct (String.eqb (m_Leader s1) (uuid s1)).
  - unfold CollectState, get_peer.
    destruct (bool_decide (uuid s1 ∈ m_AllPeers s1)); [| exact I].
    apply Hlater. unfold tables_in_order in *. cbn. exact H.
  - apply Hlater. exact H1.
Qed.

Lemma on_lb_tables (s : lbAgent) (peer_ : option string) (msg : CMessage) (kind : string) :
  tables_in_order s -> (forall p, peer_ = Some p -> p ∈ m_AllPeers s) ->
  holds_after tables_in_order (on_lb s peer_ msg kind).
Proof.
  intros H Hp. apply on_lb_cases.
  - intros _. exact I.
  - cbn. unfold tables_in_order in *. cbn. exact H.
  - unfold on_collected. destruct (cs_gateway msg) as [gw |]; [| exact H].
    destruct (gateway_loop_same_node gw s) as [Hg _].
    destruct (gateway_loop gw s) as [s1 | s1 w |]; cbn in *.
    + eapply tables_same_node; [| exact H]. destruct Hg as [Hg _].
      destruct (intransit_same_node (default [] (cs_intransit msg)) s1) as [Hi _].
      unfold same_node in *. intuition congruence.
    + eapply tables_same_node; [apply Hg | exact H].
    + exact I.
  - intros p E. unfold on_accept. destruct (lb_value msg); [| exact H].
    cbv zeta. destruct (status_eqb _ _); cbn; unfold tables_in_order in *; cbn; exact H.
  - intros p E. unfold on_drafting. cbv zeta.
    destruct (status_eqb _ _); cbn; unfold tables_in_order in *; cbn; exact H.
  - intros p E. unfold on_yesno. cbv zeta.
    destruct (String.eqb kind "yes"); [destruct (status_eqb _ _) |]; cbn;
      unfold tables_in_order in *; cbn; exact H.
  - intros p E. unfold on_request. cbv zeta.
    set (s1 := logline _ _ s).
    assert (H1 : tables_in_order (classify p SUPPLY s1)).
    { apply tables_classify; [apply Hp; exact E |]. unfold tables_in_order in *. exact H. }
    destruct (status_eqb _ _); cbn [holds_after]; unfold tables_in_order in *; exact H1.
  - intros p text which E. unfold on_announce. destruct (lb_source msg); [| exact H].
    cbn [holds_after]. apply tables_classify; [apply Hp; exact E |].
    unfold tables_in_order in *. exact H.
Qed.

Lemma HandleRead_tables (s : lbAgent) (msg : CMessage) :
  tables_in_order s -> holds_after tables_in_order (HandleRead s msg).
Proof.
  intros H. unfold HandleRead.
  assert (Hentry : tables_in_order (sender_entry s (src msg)).1
                   /\ forall p, (sender_entry s (src msg)).2 = Some p ->
                                p ∈ m_AllPeers (sender_entry s (src msg)).1).
  { destruct (sender_entry_cases s (src msg)) as [(_ & E) | [(_ & Hin & E) | (_ & Hn & E)]];
      rewrite E; cbn [fst snd].
    - split; [exact H | discriminate].
    - split; [exact H | intros p [= <-]; exact Hin].
    - split; [apply tables_add_peer; assumption |].
      intros p [= <-]. unfold add_peer. cbn. set_solver. }
  destruct (sender_entry s (src msg)) as [s0 peer_]. cbn [fst snd] in Hentry.
  destruct Hentry as [H0 Hp].
  destruct (String.eqb _ "PeerList"); [apply on_peer_list_tables; exact H0 |].
  destruct (String.eqb _ "NOEXCEPTION"); [exact H0 |].
  apply on_lb_tables; assumption.
Qed.

Lemma LoadManage_tables (tol : Q) (r : Readings) (s : lbAgent) :
  tables_in_order s -> tables_in_order (LoadManage tol r s).
Proof.
  intros H.
  assert (Ht : tables_in_order (LoadTable tol r s)).
  { unfold LoadTable. cbv zeta. destruct H as (Ha & Hrest).
    destruct (Qltb _ _); [| destruct (Qgtb _ _)];
      (rewrite bool_decide_eq_true_2 by exact Ha);
      unfold tables_in_order; cbn; set_solver. }
  unfold LoadManage. cbv zeta.
  destruct (status_eqb DEMAND (m_Status (LoadTable tol r s))).
  { eapply tables_same_node; [apply SendMsg_spec | exact Ht]. }
  destruct (_ && _).
  { eapply tables_same_node; [apply SendMsg_spec | exact Ht]. }
  destruct (status_eqb SUPPLY (m_Status (LoadTable tol r s))) eqn:E; [| exact Ht].
  unfold SendDraftRequest. rewrite E.
  destruct (bool_decide _).
  - unfold tables_in_order in *. exact Ht.
  - eapply tables_same_node; [apply SendMsg_spec | exact Ht].
Qed.

(** X11.  In every state of a running agent the peer tables are in
    order: the node knows itself as a peer, every peer classified as
    DEMAND, SUPPLY or NORM is a known peer, and no peer is in two classes at
    once.  This holds after the constructor, after every message handled
    with a defined result, to the end or left by an exception, and after
    every tick of the load timer.  A peer list has a defined result only
    when no other peer is known, so that its loop erases nothing. *)
Theorem tables_stay_in_order (tol : Q) (s : lbAgent) :
  running tol s -> tables_in_order s.
Proof.
  induction 1 as [u st d phy s Hc | s msg s' _ IH Hr | s msg s' what _ IH Hr | s r _ IH].
  - unfold lbAgent_ctor in Hc.
    destruct (front_Set DESD _ _ _); [| discriminate].
    destruct (front_Set DG _ _ _); [| discriminate].
    injection Hc as <-. unfold tables_in_order. cbn. set_solver.
  - pose proof (HandleRead_tables s msg IH) as H. rewrite Hr in H. exact H.
  - pose proof (HandleRead_tables s msg IH) as H. rewrite Hr in H. exact H.
  - apply LoadManage_tables. exact IH.
Qed.

Lemma peers_fold_plant (peers : list string) (s : lbAgent) :
  let s' := fold_left (fun acc v => match get_peer v acc with
                                    | Some _ => acc
                                    | None => add_peer v acc
                                    end) peers s in
  same_plant s s' /\ outbox s' = outbox s.
Proof.
  cbv zeta. revert s. induction peers as [| v peers IH]; intros s; cbn [fold_left].
  - unfold same_plant. repeat split.
  - destruct (get_peer v s); [apply IH |].
    destruct (IH (add_peer v s)) as [H1 H2]. unfold same_plant in *. cbn in H1, H2.
    split; assumption.
Qed.

Ltac reply_none :=
  split; [unfold same_plant; cbn; repeat split
         | exists []; split; [unfold added; cbn; rewrite app_nil_r; reflexivity
                             | left; reflexivity]].
Ltac reply_one :=
  split; [unfold same_plant; cbn; repeat split
         | eexists; split; [unfold added; cbn; reflexivity
                           | right; eexists; reflexivity]].

Lemma on_lb_replies (s : lbAgent) (p0 : string) (peer_ : option string) (msg : CMessage)
    (kind : string) :
  (forall p, peer_ = Some p -> p = p0) ->
  holds_after (fun s' => same_plant s s' /\ replied p0 s s') (on_lb s peer_ msg kind).
Proof.
  intros Hp. unfold replied. apply on_lb_cases.
  - intros _. exact I.
  - cbn. reply_none.
  - unfold on_collected. destruct (cs_gateway msg) as [gw |]; [| cbn; reply_none].
    destruct (gateway_loop_same_node gw s) as [Hg _].
    destruct (gateway_loop gw s) as [s1 | s1 w |]; cbn in *; [| | exact I].
    + destruct Hg as [Hg Ho].
      destruct (intransit_same_node (default [] (cs_intransit msg)) s1) as [Hi Hio].
      split.
      * unfold same_node, same_plant in *. intuition congruence.
      * exists []. split; [| left; reflexivity].
        unfold added. rewrite Hio, Ho, app_nil_r. reflexivity.
    + destruct Hg as [Hg Ho]. split.
      * unfold same_node, same_plant in *. intuition congruence.
      * exists []. split; [| left; reflexivity].
        unfold added. rewrite Ho, app_nil_r. reflexivity.
  - intros p E. unfold on_accept. destruct (lb_value msg); [| cbn; reply_none].
    cbv zeta. destruct (status_eqb _ _); cbn; reply_none.
  - intros p E. rewrite (Hp p E). unfold on_drafting. cbv zeta.
    destruct (status_eqb _ _); cbn; [reply_one | reply_none].
  - intros p E. rewrite (Hp p E). unfold on_yesno. cbv zeta.
    destruct (String.eqb kind "yes"); [destruct (status_eqb _ _) |]; cbn;
      [reply_one | reply_none | reply_none].
  - intros p E. rewrite (Hp p E). unfold on_request. cbv zeta.
    destruct (status_eqb _ _); cbn; reply_one.
  - intros p text which E. unfold on_announce. destruct (lb_source msg); cbn; [| reply_none].
    destruct which; reply_none.
Qed.

Lemma on_lb_defined (s : lbAgent) (p : string) (msg : CMessage) (kind : string) :
  on_lb s (Some p) msg kind <> Undefined.
Proof.
  apply (on_lb_cases (fun o => o <> Undefined)).
  - discriminate.
  - discriminate.
  - unfold on_collected. destruct (cs_gateway msg) as [gw |]; [| discriminate].
    destruct (gateway_loop_same_node gw s) as [_ Hg].
    destruct (gateway_loop gw s); [discriminate | discriminate | exact Hg].
  - intros q _. unfold on_accept. destruct (lb_value msg); [| discriminate].
    cbv zeta. destruct (status_eqb _ _); discriminate.
  - intros q _. unfold on_drafting. cbv zeta. destruct (status_eqb _ _); discriminate.
  - intros q _. unfold on_yesno. cbv zeta.
    destruct (String.eqb kind "yes"); [destruct (status_eqb _ _) |]; discriminate.
  - intros q _. unfold on_request. cbv zeta. destruct (status_eqb _ _); discriminate.
  - intros q text which _. unfold on_announce. destruct (lb_source msg); discriminate.
Qed.

Lemma holds_after_impl (P Q : lbAgent -> Prop) (o : outcome lbAgent) :
  (forall s, P s -> Q s) -> holds_after P o -> holds_after Q o.
Proof. intros H. destruct o; cbn; auto. Qed.

Lemma on_peer_list_replies (s : lbAgent) (msg : CMessage) :
  holds_after (fun s' => same_plant s s' /\ replied (src msg) s s') (on_peer_list s msg).
Proof.
  unfold on_peer_list, replied. cbv zeta.
  set (s1 := with_Leader (src msg) _).
  assert (Hlater : forall s2 new,
            same_plant s s2 -> added s s2 new ->
            holds_after (fun s' => same_plant s s' /\ added s s' new)
              (if bool_decide (m_AllPeers s2 ∖ {[uuid s2]} = ∅) then
                 match any_peers msg with
                 | None => Raised s2 "ptree_bad_path"
                 | Some peers =>
                     Done (fold_left
                             (fun acc v => match get_peer v acc with
                                           | Some _ => acc
                                           | None => add_peer v acc
                                           end) peers s2)
                 end
               else Undefined)).
  { intros s2 new H2 Ha. destruct (bool_decide _); [| exact I].
    destruct (any_peers msg) as [peers |]; cbn [holds_after].
    - destruct (peers_fold_plant peers s2) as [Hf Hfo]. cbv zeta in Hf, Hfo. split.
      + unfold same_plant in *. intuition congruence.
      + unfold added in *. rewrite Hfo. exact Ha.
    - split; assumption. }
  destruct (String.eqb (m_Leader s1) (uuid s1)) eqn:EL.
  - apply String.eqb_eq in EL. cbn in EL.
    unfold CollectState, get_peer.
    destruct (bool_decide (uuid s1 ∈ m_AllPeers s1)); [| exact I].
    refine (holds_after_impl _ _ _ _
              (Hlater (logline Status "LB module requested State Collection"
                         (Send (uuid s1) OutScRequest s1)) [(src msg, OutScRequest)] _ _)).
    + intros s' [Ha Hb].
      split; [exact Ha | eexists; split; [exact Hb | right; eexists; reflexivity]].
    + unfold same_plant. cbn. repeat split.
    + unfold added. cbn. rewrite EL. reflexivity.
  - refine (holds_after_impl _ _ _ _ (Hlater s1 [] _ _)).
    + intros s' [Ha Hb].
      split; [exact Ha | eexists; split; [exact Hb | left; reflexivity]].
    + unfold same_plant. cbn. repeat split.
    + unfold added. cbn. rewrite app_nil_r. reflexivity.
Qed.

(** A peer list of another node always meets another known peer, its
    sender, whose entry the loop erases under its own iterator. *)
Lemma on_peer_list_of_other (s : lbAgent) (msg : CMessage) :
  src msg <> uuid s -> src msg ∈ m_AllPeers s -> on_peer_list s msg = Undefined.
Proof.
  intros Hne Hin. unfold on_peer_list. cbv zeta.
  replace (String.eqb (m_Leader (with_Leader (src msg) (logline Notice
             ("Peer List received from Group Leader: " ++ src msg) s)))
             (uuid (with_Leader (src msg) (logline Notice
             ("Peer List received from Group Leader: " ++ src msg) s)))) with false
    by (symmetry; apply String.eqb_neq; exact Hne).
  rewrite bool_decide_eq_false_2; [reflexivity |].
  cbn. intros E. assert (H : src msg ∈ m_AllPeers s ∖ {[uuid s]}) by set_solver.
  rewrite E in H. set_solver.
Qed.

(** X12.  Handling a message never touches the plant and never
    broadcasts: whatever the message, the status, the setpoint, the demand
    value and the commands staged on the devices are as before, and the
    handler adds to the outbox nothing or exactly one message, addressed to
    the sender of the message it handles.  This holds when the handler
    returns and when it is left by an exception.  A message of another node
    that is not a peer list has a defined result; a peer list of another
    node never has: its sender is a known peer by then, and the loop over
    [m_AllPeers] erases the entry it stands on. *)
Theorem HandleRead_answers_sender_only (s : lbAgent) (msg : CMessage) :
  holds_after (fun s' => same_plant s s' /\ replied (src msg) s s') (HandleRead s msg)
  /\ (src msg <> uuid s -> any msg <> Some "PeerList" -> HandleRead s msg <> Undefined)
  /\ (src msg <> uuid s -> any msg = Some "PeerList" -> HandleRead s msg = Undefined).
Proof.
  unfold HandleRead.
  assert (Hentry : exists s0 peer_,
             sender_entry s (src msg) = (s0, peer_)
             /\ same_plant s s0 /\ outbox s0 = outbox s
             /\ (forall p, peer_ = Some p -> p = src msg)
             /\ (src msg <> uuid s -> peer_ = Some (src msg) /\ src msg ∈ m_AllPeers s0)).
  { destruct (sender_entry_cases s (src msg))
      as [(Hs & E) | [(Hs & Hin & E) | (Hs & _ & E)]];
      rewrite E; eexists; eexists; (split; [reflexivity |]);
        (split; [unfold same_plant; cbn; repeat split |]);
        (split; [reflexivity |]); (split; [congruence |]).
    - intros Hne. contradiction.
    - intros _. split; [reflexivity | exact Hin].
    - intros _. split; [reflexivity |]. unfold add_peer. cbn. set_solver. }
  destruct Hentry as (s0 & peer_ & -> & Hpl & Hout & Hp & Hsome).
  assert (Hu : uuid s0 = uuid s) by apply Hpl.
  assert (Hlift : forall o,
             holds_after (fun s' => same_plant s0 s' /\ replied (src msg) s0 s') o ->
             holds_after (fun s' => same_plant s s' /\ replied (src msg) s s') o).
  { intros [s' | s' w |]; cbn; try exact id.
    - intros (H1 & new & Ha & Hn). split; [unfold same_plant in *; intuition congruence |].
      exists new. split; [| exact Hn]. unfold added in *. rewrite Ha, Hout. reflexivity.
    - intros (H1 & new & Ha & Hn). split; [unfold same_plant in *; intuition congruence |].
      exists new. split; [| exact Hn]. unfold added in *. rewrite Ha, Hout. reflexivity. }
  destruct (String.eqb_spec (default "NOEXCEPTION" (any msg)) "PeerList") as [Epl | Epl].
  { split; [apply Hlift; apply on_peer_list_replies |]. split.
    - intros _ Hany. exfalso. apply Hany.
      destruct (any msg) as [a |]; [cbn in Epl; congruence | discriminate].
    - intros Hne _. apply on_peer_list_of_other; [rewrite Hu; exact Hne |].
      apply (Hsome Hne). }
  assert (Hnot : any msg <> Some "PeerList").
  { intros E. apply Epl. rewrite E. reflexivity. }
  destruct (String.eqb _ "NOEXCEPTION").
  { split; [apply Hlift; cbn; reply_none |].
    split; [discriminate | intros _ E; contradiction]. }
  split; [apply Hlift; apply on_lb_replies; exact Hp |].
  split; [| intros _ E; contradiction].
  intros Hne _. rewrite (proj1 (Hsome Hne)). apply on_lb_defined.
Qed.

(** X12 (witness): the SUPPLY node "A" and the accept of "B". *)
Lemma HandleRead_answers_sender_only_witness :
  HandleRead supplier accept_from_B <> Undefined.
Proof.
  apply (proj1 (proj2 (HandleRead_answers_sender_only supplier accept_from_B))).
  - vm_compute. discriminate.
  - vm_compute. discriminate.
Defined.

(** X11 (witness): the node "A" as constructed, after the "demand" of
    "B" and one tick of the load timer. *)
Lemma tables_stay_in_order_witness :
  exists s',
    HandleRead started (on_the_wire (fun _ => "2") "B" (OutLb "demand" None)) = Done s'
    /\ tables_in_order (LoadManage 0 short_of_power s').
Proof.
  destruct (HandleRead started (on_the_wire (fun _ => "2") "B" (OutLb "demand" None)))
    as [s' | s' what |] eqn:E; try (vm_compute in E; discriminate).
  exists s'. split; [reflexivity |].
  apply (tables_stay_in_order 0).
  apply running_tick.
  apply (running_read 0 started (on_the_wire (fun _ => "2") "B" (OutLb "demand" None)) s');
    [| exact E].
  apply (running_ctor 0 "A" NORM 0 [desd1; dg1; sst1]).
  reflexivity.
Defined.

(** An lb message of another node goes to the chain on its kind, in a
    state that differs from the one before in the peer tables at most. *)
Lemma HandleRead_dispatch (s : lbAgent) (msg : CMessage) (from kind : string) :
  lb_from msg from kind -> from <> uuid s -> kind <> "NOEXCEPTION" ->
  exists s0,
    HandleRead s msg = on_lb s0 (Some from) msg kind
    /\ same_plant s s0 /\ outbox s0 = outbox s /\ from ∈ m_AllPeers s0.
Proof.
  intros (Hsrc & Hany & Hlb) Hne Hk. unfold HandleRead. rewrite Hsrc, Hlb.
  assert (Hpl : String.eqb (default "NOEXCEPTION" (any msg)) "PeerList" = false).
  { destruct (any msg) as [a |]; [| reflexivity]. apply String.eqb_neq.
    intros Ha. apply Hany. f_equal. exact Ha. }
  change (default "NOEXCEPTION" (Some kind)) with kind.
  change (default "" (Some kind)) with kind.
  rewrite Hpl. rewrite (proj2 (String.eqb_neq _ _) Hk).
  destruct (sender_entry_cases s from) as [(Hs & _) | [(_ & Hin & E) | (_ & _ & E)]];
    [contradiction | |]; rewrite E; eexists; (split; [reflexivity |]).
  - unfold same_plant. repeat split. exact Hin.
  - unfold same_plant. cbn. repeat split. set_solver.
Qed.

Lemma on_lb_request (s : lbAgent) (msg : CMessage) (p : string) :
  p <> uuid s -> on_lb s (Some p) msg "request" = on_request s p.
Proof.
  intros H. unfold on_lb, guard. rewrite (proj2 (String.eqb_neq _ _) H). reflexivity.
Qed.

Lemma on_lb_yes (s : lbAgent) (msg : CMessage) (p : string) :
  p <> uuid s -> on_lb s (Some p) msg "yes" = on_yesno s "yes" p.
Proof.
  intros H. unfold on_lb, guard. rewrite (proj2 (String.eqb_neq _ _) H). reflexivity.
Qed.

Lemma on_lb_drafting (s : lbAgent) (msg : CMessage) (p : string) :
  p <> uuid s -> on_lb s (Some p) msg "drafting" = on_drafting s p.
Proof.
  intros H. unfold on_lb, guard. rewrite (proj2 (String.eqb_neq _ _) H). reflexivity.
Qed.

Lemma on_lb_accept (s : lbAgent) (msg : CMessage) (p : string) :
  p <> uuid s -> on_lb s (Some p) msg "accept" = on_accept s msg p.
Proof.
  intros H. unfold on_lb, guard. rewrite (proj2 (String.eqb_neq _ _) H). reflexivity.
Qed.

Lemma same_plant_trans (a b c : lbAgent) : same_plant a b -> same_plant b c -> same_plant a c.
Proof. unfold same_plant. intuition congruence. Qed.

(** A DEMAND node answers a request by "yes" and files the sender under
    SUPPLY. *)
Lemma HandleRead_request (s : lbAgent) (msg : CMessage) (from : string) :
  lb_from msg from "request" -> from <> uuid s ->
  exists s',
    HandleRead s msg = Done s' /\ same_plant s s'
    /\ added s s' [(from, OutLb (if status_eqb DEMAND (m_Status s) then "yes" else "no") None)]
    /\ from ∈ m_LoNodes s'.
Proof.
  intros Hm Hne.
  destruct (HandleRead_dispatch s msg from "request" Hm Hne) as (s0 & E & Hpl & Ho & _);
    [discriminate |].
  assert (Hu : uuid s0 = uuid s) by apply Hpl.
  assert (Hst : m_Status s0 = m_Status s) by apply Hpl.
  rewrite E, on_lb_request by congruence. unfold on_request. cbv zeta.
  change (m_Status (classify from SUPPLY (logline Notice ("Request message received from: "
            ++ from) s0))) with (m_Status s0).
  rewrite Hst. unfold added.
  destruct (status_eqb DEMAND (m_Status s)); eexists; (split; [reflexivity |]);
    (split; [eapply same_plant_trans; [exact Hpl |]; unfold same_plant; cbn; repeat split |]);
    cbn; rewrite Ho; (split; [reflexivity | set_solver]).
Qed.

(** A SUPPLY node answers "yes" by "drafting". *)
Lemma HandleRead_yes (s : lbAgent) (msg : CMessage) (from : string) :
  lb_from msg from "yes" -> from <> uuid s -> m_Status s = SUPPLY ->
  exists s',
    HandleRead s msg = Done s' /\ same_plant s s'
    /\ added s s' [(from, OutLb "drafting" None)].
Proof.
  intros Hm Hne Hs.
  destruct (HandleRead_dispatch s msg from "yes" Hm Hne) as (s0 & E & Hpl & Ho & _);
    [discriminate |].
  assert (Hu : uuid s0 = uuid s) by apply Hpl.
  assert (Hst : m_Status s0 = m_Status s) by apply Hpl.
  rewrite E, on_lb_yes by congruence. unfold on_yesno.
  change (String.eqb "yes" "yes") with true. cbv iota zeta.
  change (m_Status (logline Notice ("(Yes) from " ++ from) s0)) with (m_Status s0).
  rewrite Hst, Hs. cbn [status_eqb]. eexists. split; [reflexivity |]. split.
  - eapply same_plant_trans; [exact Hpl |]. unfold same_plant. cbn. repeat split.
  - unfold added. cbn. rewrite Ho. reflexivity.
Qed.

(** A DEMAND node answers "drafting" by "accept" with its demand. *)
Lemma HandleRead_drafting (s : lbAgent) (msg : CMessage) (from : string) :
  lb_from msg from "drafting" -> from <> uuid s -> m_Status s = DEMAND ->
  exists s',
    HandleRead s msg = Done s' /\ same_plant s s'
    /\ added s s' [(from, OutLb "accept" (Some (m_DemandVal s)))].
Proof.
  intros Hm Hne Hs.
  destruct (HandleRead_dispatch s msg from "drafting" Hm Hne) as (s0 & E & Hpl & Ho & _);
    [discriminate |].
  assert (Hu : uuid s0 = uuid s) by apply Hpl.
  assert (Hst : m_Status s0 = m_Status s) by apply Hpl.
  assert (Hd : m_DemandVal s0 = m_DemandVal s) by apply Hpl.
  rewrite E, on_lb_drafting by congruence. unfold on_drafting. cbv zeta.
  change (m_Status (logline Notice ("Drafting message received from: " ++ from) s0))
    with (m_Status s0).
  rewrite Hst, Hs. cbn [status_eqb]. eexists. split; [reflexivity |]. split.
  - eapply same_plant_trans; [exact Hpl |]. unfold same_plant. cbn. repeat split.
  - unfold added. cbn. rewrite Ho, Hd. reflexivity.
Qed.

(** An "accept" that carries a value is taken without any reply. *)
Lemma HandleRead_accept (s : lbAgent) (msg : CMessage) (from : string) :
  lb_from msg from "accept" -> from <> uuid s -> lb_value msg <> None ->
  exists s', HandleRead s msg = Done s' /\ same_plant s s' /\ added s s' [].
Proof.
  intros Hm Hne Hv.
  destruct (HandleRead_dispatch s msg from "accept" Hm Hne) as (s0 & E & Hpl & Ho & _);
    [discriminate |].
  assert (Hu : uuid s0 = uuid s) by apply Hpl.
  rewrite E, on_lb_accept by congruence. unfold on_accept.
  destruct (lb_value msg); [| contradiction]. cbv zeta.
  destruct (status_eqb _ _); eexists; (split; [reflexivity |]);
    (split; [eapply same_plant_trans; [exact Hpl |]; unfold same_plant; cbn; repeat split |]);
    unfold added; cbn; rewrite Ho, app_nil_r; reflexivity.
Qed.

Lemma on_the_wire_lb_from (render : Q -> string) (from kind : string) (value : option Q) :
  lb_from (on_the_wire render from (OutLb kind value)) from kind.
Proof. unfold lb_from. cbn. repeat split. discriminate. Qed.

(** X13.  The whole drafting handshake moves no power.  When a SUPPLY
    node A sends "request" to a DEMAND node B, each message being delivered
    as it was sent, B answers "yes", A answers "drafting", B answers
    "accept" with its demand value, and A takes the accept without a reply;
    at the end both nodes have the status, the setpoint and the device
    commands they started with. *)
Theorem drafting_handshake_moves_no_power (render : Q -> string) (A B : lbAgent) :
  uuid A <> uuid B -> m_Status A = SUPPLY -> m_Status B = DEMAND ->
  exists B1 A1 B2 A2,
    HandleRead B (on_the_wire render (uuid A) (OutLb "request" None)) = Done B1
    /\ added B B1 [(uuid A, OutLb "yes" None)]
    /\ HandleRead A (on_the_wire render (uuid B) (OutLb "yes" None)) = Done A1
    /\ added A A1 [(uuid B, OutLb "drafting" None)]
    /\ HandleRead B1 (on_the_wire render (uuid A) (OutLb "drafting" None)) = Done B2
    /\ added B1 B2 [(uuid A, OutLb "accept" (Some (m_DemandVal B)))]
    /\ HandleRead A1 (on_the_wire render (uuid B) (OutLb "accept" (Some (m_DemandVal B))))
       = Done A2
    /\ added A1 A2 []
    /\ same_plant A A2 /\ same_plant B B2.
Proof.
  intros Hne HA HB.
  destruct (HandleRead_request B _ (uuid A) (on_the_wire_lb_from render _ _ None))
    as (B1 & E1 & P1 & O1 & _); [exact Hne |].
  rewrite HB in O1. cbn [status_eqb] in O1.
  destruct (HandleRead_yes A _ (uuid B) (on_the_wire_lb_from render _ _ None))
    as (A1 & E2 & P2 & O2); [congruence | exact HA |].
  assert (HB1 : m_Status B1 = DEMAND) by (rewrite (proj1 (proj2 P1)); exact HB).
  assert (HuB : uuid B1 = uuid B) by apply P1.
  assert (HuA : uuid A1 = uuid A) by apply P2.
  destruct (HandleRead_drafting B1 _ (uuid A) (on_the_wire_lb_from render _ _ None))
    as (B2 & E3 & P3 & O3); [congruence | exact HB1 |].
  assert (Hd : m_DemandVal B1 = m_DemandVal B) by apply P1.
  rewrite Hd in O3.
  destruct (HandleRead_accept A1 _ (uuid B)
              (on_the_wire_lb_from render _ _ (Some (m_DemandVal B))))
    as (A2 & E4 & P4 & O4); [congruence | cbn; discriminate |].
  exists B1, A1, B2, A2.
  repeat (split; [assumption |]).
  split; eapply same_plant_trans; eassumption.
Qed.

(** X13 (witness): the SUPPLY node "A" and the DEMAND node "B" with a demand of 2. *)
Lemma drafting_handshake_moves_no_power_witness :
  exists B1 A1 B2 A2,
    HandleRead demander (on_the_wire (fun _ => "2") "A" (OutLb "request" None)) = Done B1
    /\ added demander B1 [("A", OutLb "yes" None)]
    /\ HandleRead supplier (on_the_wire (fun _ => "2") "B" (OutLb "yes" None)) = Done A1
    /\ added supplier A1 [("B", OutLb "drafting" None)]
    /\ HandleRead B1 (on_the_wire (fun _ => "2") "A" (OutLb "drafting" None)) = Done B2
    /\ added B1 B2 [("A", OutLb "accept" (Some 2))]
    /\ HandleRead A1 (on_the_wire (fun _ => "2") "B" (OutLb "accept" (Some 2))) = Done A2
    /\ added A1 A2 []
    /\ same_plant supplier A2 /\ same_plant demander B2.
Proof.
  apply (drafting_handshake_moves_no_power (fun _ => "2") supplier demander).
  - cbn. discriminate.
  - reflexivity.
  - reflexivity.
Defined.

End ReadProperties.

(** ** Plug-and-play adapter: buffer, session and command packet *)
Section AdapterBufferProperties.
Import Arm ArmTx.

Context {SignalValue : Type} (lexical_cast : string -> option SignalValue).

(** A slot already taken is not reported again by a packet that parses to
    the end. *)
Lemma parse_states_taken (identifier : string) (stateInfo : gmap string nat)
    (ws : list string) :
  forall (temp temp' : gmap nat SignalValue) (i : nat),
    parse_states lexical_cast identifier stateInfo ws temp = Complete temp' ->
    is_Some (temp !! i) ->
    List.find (fun l => bool_decide (slot_of identifier stateInfo l = Some i)) (lines_of ws)
    = None.
Proof.
  induction ws as [| a | a b | name signal strval rest IH] using words_ind3;
    intros temp temp' i Hp Hi; try reflexivity.
  cbn [parse_states lines_of List.find] in *.
  assert (Hs : slot_of identifier stateInfo (name, signal, strval)
               = stateInfo !! (identifier ++ ":" ++ name)) by reflexivity.
  destruct (stateInfo !! (identifier ++ ":" ++ name)) as [index |] eqn:Hslot; [| discriminate].
  destruct (lexical_cast strval) as [value |]; [| discriminate].
  destruct (temp !! index) as [old |] eqn:Hold; [discriminate |].
  rewrite bool_decide_eq_false_2.
  2:{ rewrite Hs. intros [= ->]. rewrite Hold in Hi. destruct Hi; discriminate. }
  apply (IH _ _ _ Hp). destruct (decide (index = i)) as [-> | Hne].
  - rewrite lookup_insert_eq. eauto.
  - rewrite lookup_insert_ne by exact Hne. exact Hi.
Qed.

(** The map that the loop has built when it ends. *)
Lemma parse_states_reported (identifier : string) (stateInfo : gmap string nat)
    (ws : list string) :
  forall (temp temp' : gmap nat SignalValue) (i : nat),
    parse_states lexical_cast identifier stateInfo ws temp = Complete temp' ->
    temp' !! i = match reported lexical_cast identifier stateInfo (lines_of ws) i with
                 | Some v => Some v
                 | None => temp !! i
                 end.
Proof.
  unfold reported.
  induction ws as [| a | a b | name signal strval rest IH] using words_ind3;
    intros temp temp' i Hp; try (injection Hp as <-; reflexivity).
  cbn [parse_states] in Hp. cbn [lines_of List.find].
  assert (Hs : slot_of identifier stateInfo (name, signal, strval)
               = stateInfo !! (identifier ++ ":" ++ name)) by reflexivity.
  destruct (stateInfo !! (identifier ++ ":" ++ name)) as [index |] eqn:Hslot; [| discriminate].
  destruct (lexical_cast strval) as [value |] eqn:Hcast; [| discriminate].
  destruct (temp !! index) as [old |] eqn:Hold; [discriminate |].
  rewrite (IH _ _ i Hp).
  destruct (decide (index = i)) as [-> | Hne].
  - rewrite bool_decide_eq_true_2 by exact Hs. cbn [snd]. rewrite Hcast.
    rewrite (parse_states_taken identifier stateInfo rest _ _ i Hp)
      by (rewrite lookup_insert_eq; eauto).
    rewrite lookup_insert_eq. reflexivity.
  - rewrite bool_decide_eq_false_2 by (rewrite Hs; congruence).
    rewrite lookup_insert_ne by exact Hne. reflexivity.
Qed.

(** Copying a list of slot and value pairs with distinct slots into the
    buffer. *)
Lemma copy_fold (l : list (nat * SignalValue)) :
  forall (rx : gmap nat SignalValue) (i : nat),
    NoDup l.*1 ->
    (forall v, (i, v) ∈ l -> fold_left (fun rx it => <[it.1 := it.2]> rx) l rx !! i = Some v)
    /\ (i ∉ l.*1 -> fold_left (fun rx it => <[it.1 := it.2]> rx) l rx !! i = rx !! i).
Proof.
  induction l as [| [j w] l IH]; intros rx i Hnd; cbn [fold_left].
  - split; [intros v H; inversion H | reflexivity].
  - cbn [fmap list_fmap fst] in Hnd. apply NoDup_cons in Hnd as [Hj Hnd].
    destruct (IH (<[j := w]> rx) i Hnd) as [IH1 IH2]. cbn [fst snd]. split.
    + intros v Hin. apply elem_of_cons in Hin as [[= -> ->] | Hin].
      * rewrite (IH2 Hj). apply lookup_insert_eq.
      * apply IH1. exact Hin.
    + intros Hni. cbn [fmap list_fmap fst] in Hni. apply not_elem_of_cons in Hni as [Hne Hni].
      rewrite (IH2 Hni). apply lookup_insert_ne. congruence.
Qed.

Lemma copy_map (temp rx : gmap nat SignalValue) (i : nat) :
  fold_left (fun rx it => <[it.1 := it.2]> rx) (map_to_list temp) rx !! i
  = match temp !! i with Some v => Some v | None => rx !! i end.
Proof.
  destruct (copy_fold (map_to_list temp) rx i (NoDup_fst_map_to_list temp)) as [H1 H2].
  destruct (temp !! i) as [v |] eqn:E.
  - apply H1. apply elem_of_map_to_list. exact E.
  - apply H2. intros Hin. apply list_elem_of_fmap in Hin as ([j w] & -> & Hin).
    apply elem_of_map_to_list in Hin. cbn in E. congruence.
Qed.

(** X14.  [ReadStatePacket] commits a packet as a whole or not at all.
    When it answers "Received", every buffer slot that a line of the packet
    reports holds the cast of the reported value and every other slot is as
    before; the session is initialized.  By any other reply, and when the
    cast throws, the adapter is exactly as before: the lines read before the
    offending one are not stored. *)
Theorem ReadStatePacket_commits_all_or_nothing
    (s : CArmAdapter SignalValue) (now : Z) (packet : string) :
  let s' := (ReadStatePacket lexical_cast s now packet).1 in
  let reply := (ReadStatePacket lexical_cast s now packet).2 in
  (reply <> Some ("Received" ++ eom) -> s' = s)
  /\ (reply = Some ("Received" ++ eom) ->
      m_initialized s' = true
      /\ m_stateInfo s' = m_stateInfo s
      /\ forall i,
          m_rxBuffer s' !! i
          = match reported lexical_cast (m_identifier s) (m_stateInfo s)
                    (lines_of (words packet)) i with
            | Some v => Some v
            | None => m_rxBuffer s !! i
            end).
Proof.
  cbv zeta. unfold ReadStatePacket.
  destruct (parse_states lexical_cast (m_identifier s) (m_stateInfo s) (words packet) ∅)
    as [temp | | |] eqn:Hp; cbn [fst snd].
  - split; [intros H; exfalso; apply H; reflexivity |]. intros _.
    assert (Hbuf : forall i,
               fold_left (fun rx it => <[it.1 := it.2]> rx) (map_to_list temp) (m_rxBuffer s) !! i
               = match reported lexical_cast (m_identifier s) (m_stateInfo s)
                         (lines_of (words packet)) i with
                 | Some v => Some v
                 | None => m_rxBuffer s !! i
                 end).
    { intros i. rewrite copy_map.
      rewrite (parse_states_reported _ _ _ _ _ i Hp). rewrite lookup_empty.
      destruct (reported _ _ _ _ i); reflexivity. }
    cbn [m_initialized with_rxBuffer].
    destruct (m_initialized s) eqn:Ei; cbn [negb];
      cbn [m_initialized m_stateInfo m_rxBuffer with_rxBuffer with_command with_initialized];
      (split; [try exact Ei; reflexivity | split; [reflexivity | exact Hbuf]]).
  - split; [reflexivity | intros [=]].
  - split; [reflexivity | intros [=]].
  - split; [reflexivity | intros [=]].
Qed.

End AdapterBufferProperties.

Section CommandPacketProperties.
Import Arm ArmTx.

Context {SignalValue : Type} (show : SignalValue -> string).

Lemma append_cons (x : ascii) (a b : string) :
  (String x a ++ b = String x (a ++ b))%string.
Proof. reflexivity. Qed.

Lemma append_assoc (a b c : string) : ((a ++ b) ++ c = a ++ (b ++ c))%string.
Proof.
  induction a as [| x a IH]; [reflexivity |]. rewrite !append_cons, IH. reflexivity.
Qed.

Lemma append_nil_r (a : string) : (a ++ "" = a)%string.
Proof.
  induction a as [| x a IH]; [reflexivity |]. rewrite append_cons, IH. reflexivity.
Qed.

Lemma words_from_word (w : string) :
  forall cur rest,
    no_space w = true -> words_from (w ++ rest) cur = words_from rest (cur ++ w).
Proof.
  induction w as [| c w IH]; intros cur rest H.
  - rewrite append_nil_r. reflexivity.
  - cbn [no_space] in H. apply andb_true_iff in H as [Hc Hw]. apply negb_true_iff in Hc.
    rewrite append_cons. cbn [words_from]. rewrite Hc. rewrite (IH _ _ Hw).
    rewrite append_assoc. reflexivity.
Qed.

Lemma words_from_word_sep (w : string) (c : ascii) (rest : string) :
  is_word w = true -> isspace c = true ->
  words_from (w ++ String c rest) "" = w :: words_from rest "".
Proof.
  intros Hw Hc. unfold is_word in Hw. apply andb_true_iff in Hw as [Hne Hns].
  rewrite (words_from_word w "" _ Hns). cbn [words_from]. rewrite Hc.
  destruct w; [discriminate | reflexivity].
Qed.

Lemma words_from_sep (c : ascii) (rest : string) :
  isspace c = true -> words_from (String c rest) "" = words_from rest "".
Proof. intros Hc. cbn. rewrite Hc. reflexivity. Qed.

Lemma words_command_line (m_txBuffer : nat -> SignalValue) (it : CommandEntry) (rest : string) :
  is_word (local_name it.1.1) = true -> is_word it.1.2 = true ->
  is_word (show (m_txBuffer it.2)) = true ->
  words_from (command_line show m_txBuffer it ++ rest) ""
  = (command_words show m_txBuffer it ++ words_from rest "")%list.
Proof.
  intros H1 H2 H3. unfold command_line, command_words, CRLF. cbv zeta.
  rewrite !append_assoc.
  change (" " ++ it.1.2 ++ " " ++ show (m_txBuffer it.2)
          ++ String "013" (String "010" "") ++ rest)%string
    with (String " " (it.1.2 ++ String " " (show (m_txBuffer it.2)
          ++ String "013" (String "010" rest)))).
  rewrite (words_from_word_sep _ " " _ H1 eq_refl).
  rewrite (words_from_word_sep _ " " _ H2 eq_refl).
  rewrite (words_from_word_sep _ "013" _ H3 eq_refl).
  rewrite (words_from_sep "010" _ eq_refl). reflexivity.
Qed.

Lemma command_fold (m_txBuffer : nat -> SignalValue) (l : list CommandEntry) :
  forall acc,
    fold_left (fun packet it => packet ++ command_line show m_txBuffer it) l acc
    = (acc ++ fold_right (fun it text => command_line show m_txBuffer it ++ text) "" l)%string.
Proof.
  induction l as [| it l IH]; intros acc; cbn [fold_left fold_right].
  - rewrite append_nil_r. reflexivity.
  - rewrite IH, append_assoc. reflexivity.
Qed.

Lemma lines_of_command_words (m_txBuffer : nat -> SignalValue) (l : list CommandEntry) :
  lines_of (flat_map (command_words show m_txBuffer) l)
  = map (fun it => (local_name it.1.1, it.1.2, show (m_txBuffer it.2))) l.
Proof. induction l as [| it l IH]; cbn; [reflexivity | rewrite IH; reflexivity]. Qed.

(** X16.  The command packet has the grammar of the state packets.  When
    the local device names, the signals and the printed values are words
    (not empty, no white space), the text that [SendCommandPacket] hands to
    [SendData] reads back, by the word extraction and the three-word lines
    of [ReadStatePacket], as exactly one line per command entry, in order:
    local device name, signal, printed value; the closing empty line adds
    no word.  The command timer is armed again two seconds later whether
    the packet could be sent or not. *)
Theorem command_packet_reads_back (m_commandInfo : list CommandEntry)
    (m_txBuffer : nat -> SignalValue) (now : Z) (sent_ok : bool)
    (s : CArmAdapter SignalValue) :
  Forall (fun it => is_word (local_name it.1.1) = true /\ is_word it.1.2 = true
                    /\ is_word (show (m_txBuffer it.2)) = true) m_commandInfo ->
  let packet := command_packet show m_commandInfo m_txBuffer in
  let s' := SendCommandPacket show m_commandInfo m_txBuffer now sent_ok s in
  lines_of (words packet)
  = map (fun it => (local_name it.1.1, it.1.2, show (m_txBuffer it.2))) m_commandInfo
  /\ responses s' = (if sent_ok then responses s ++ [packet] else responses s)%list
  /\ m_command s' = {| expiry := (now + seconds 2)%Z; waiting := true |}.
Proof.
  intros Hall. cbv zeta. split; [| split].
  - rewrite <- lines_of_command_words. f_equal.
    unfold command_packet, words. rewrite command_fold.
    change ("" ++ fold_right (fun it text => command_line show m_txBuffer it ++ text) ""
                    m_commandInfo)%string
      with (fold_right (fun it text => command_line show m_txBuffer it ++ text)%string ""
              m_commandInfo).
    induction Hall as [| it l (H1 & H2 & H3) _ IH]; [reflexivity |].
    cbn [fold_right flat_map]. rewrite append_assoc.
    rewrite (words_command_line _ _ _ H1 H2 H3). rewrite IH. reflexivity.
  - unfold SendCommandPacket. destruct sent_ok; [| reflexivity].
    unfold Heartbeat. cbn. destruct (waiting (m_heartbeat s)); reflexivity.
  - unfold SendCommandPacket. cbn. reflexivity.
Qed.

(** X15.  A command send that succeeds keeps the session alive like an
    arriving packet does: [SendCommandPacket] then calls [Heartbeat], so a
    pending heartbeat timer is set to five seconds from the send and the
    adapter is not removed during these five seconds, without any arrival.
    A send that fails leaves the heartbeat timer as it was, so the adapter
    is removed when that timer expires.  Either way the command timer is
    armed again for two seconds later. *)
Theorem SendCommandPacket_keeps_session_alive (m_commandInfo : list CommandEntry)
    (m_txBuffer : nat -> SignalValue) (now : Z) (s : CArmAdapter SignalValue) :
  waiting (m_heartbeat s) = true ->
  removed s = false ->
  let sent := SendCommandPacket show m_commandInfo m_txBuffer now true s in
  let failed := SendCommandPacket show m_commandInfo m_txBuffer now false s in
  m_heartbeat sent = {| expiry := (now + seconds 5)%Z; waiting := true |}
  /\ (forall later, (later < now + seconds 5)%Z -> removed (elapse later sent) = false)
  /\ m_heartbeat failed = m_heartbeat s
  /\ (forall later, (expiry (m_heartbeat s) <= later)%Z -> removed (elapse later failed) = true)
  /\ m_command sent = {| expiry := (now + seconds 2)%Z; waiting := true |}
  /\ m_command failed = {| expiry := (now + seconds 2)%Z; waiting := true |}.
Proof.
  intros Hw Hr. cbv zeta. unfold SendCommandPacket, Heartbeat.
  cbn [m_heartbeat with_responses]. rewrite Hw.
  cbn [m_heartbeat m_command with_command with_heartbeat with_responses].
  split; [reflexivity |]. split; [| split; [reflexivity |]; split; [| split; reflexivity]].
  - intros later Hl. unfold elapse.
    cbn [m_heartbeat with_command with_heartbeat with_responses waiting expiry andb].
    destruct (Z.leb_spec (now + seconds 5) later); [lia |].
    cbn [removed with_command with_heartbeat with_responses]. exact Hr.
  - intros later Hl. unfold elapse. cbn [m_heartbeat with_command]. rewrite Hw.
    cbn [andb]. destruct (Z.leb_spec (expiry (m_heartbeat s)) later); [| lia].
    reflexivity.
Qed.

Lemma length_append (a b : string) :
  String.length (a ++ b) = (String.length a + String.length b)%nat.
Proof.
  induction a as [| x a IH]; [reflexivity |].
  rewrite append_cons. cbn [String.length]. rewrite IH. reflexivity.
Qed.

Lemma substring_all (b : string) : String.substring 0 (String.length b) b = b.
Proof. induction b as [| x b IH]; [reflexivity | cbn; rewrite IH; reflexivity]. Qed.

Lemma substring_skip (a b : string) :
  String.substring (String.length a) (String.length b) (a ++ b) = b.
Proof.
  induction a as [| x a IH]; [apply substring_all |].
  rewrite append_cons. cbn [String.length String.substring]. exact IH.
Qed.

Lemma substr_skip (a b : string) : substr (String.length a) (a ++ b) = b.
Proof.
  unfold substr. rewrite length_append.
  replace (String.length a + String.length b - String.length a)%nat with (String.length b)
    by lia.
  apply substring_skip.
Qed.

Lemma find_last_from_app (c : ascii) (a b : string) :
  forall i found,
    find_last_from c (a ++ b) i found
    = find_last_from c b (i + String.length a) (find_last_from c a i found).
Proof.
  induction a as [| x a IH]; intros i found.
  - cbn [String.length find_last_from]. rewrite Nat.add_0_r. reflexivity.
  - rewrite append_cons. cbn [String.length find_last_from]. rewrite IH. f_equal. lia.
Qed.

Lemma find_last_from_none (w : string) :
  forall i found, no_colon w = true -> find_last_from ":" w i found = found.
Proof.
  induction w as [| x w IH]; intros i found H; cbn; [reflexivity |].
  cbn in H. apply andb_true_iff in H as [Hx Hw]. apply negb_true_iff in Hx.
  rewrite Hx. apply IH. exact Hw.
Qed.

(** X17.  What [SendCommandPacket] strips, [ReadStatePacket] puts back.
    For a device registered as "identifier:name", where the name has no
    colon, the local name written into a command line is the name, whatever
    colons the identifier has; so scoping it again by the identifier, as
    [ReadStatePacket] does with the names it reads, gives the registered
    device name back.  A name without any colon is written as it is. *)
Theorem local_name_round_trip (identifier name : string) :
  no_colon name = true ->
  local_name (identifier ++ ":" ++ name) = name
  /\ (identifier ++ ":" ++ local_name (identifier ++ ":" ++ name) = identifier ++ ":" ++ name)%string
  /\ local_name name = name.
Proof.
  intros H.
  assert (H1 : local_name (identifier ++ ":" ++ name) = name).
  { unfold local_name, find_last_of. rewrite find_last_from_app.
    change (":" ++ name)%string with (String ":" name). cbn [find_last_from].
    rewrite Ascii.eqb_refl. rewrite (find_last_from_none name _ _ H).
    cbn [Nat.add].
    replace (String.length identifier + 1)%nat
      with (String.length (identifier ++ ":")) by (rewrite length_append; reflexivity).
    change (String ":" name) with (":" ++ name)%string.
    rewrite <- (append_assoc identifier ":" name). apply substr_skip. }
  split; [exact H1 |]. split; [rewrite H1; reflexivity |].
  unfold local_name, find_last_of. rewrite (find_last_from_none name _ _ H).
  unfold substr. rewrite Nat.sub_0_r. apply substring_all.
Qed.

End CommandPacketProperties.

(** X14 (witness): the board "ident" reports 7 for its device "foo". *)
Lemma ReadStatePacket_commits_all_or_nothing_witness :
  Arm.m_initialized (Arm.ReadStatePacket Arm.cast_N Arm.board 1 "foo level 7").1 = true.
Proof.
  destruct (proj2 (ReadStatePacket_commits_all_or_nothing Arm.cast_N Arm.board 1
                     "foo level 7")) as [H _]; [vm_compute; reflexivity | exact H].
Defined.

(** X15 (witness): the board "ident", whose heartbeat expires at 5 s,
    sends a command at 4 s: at 6 s it is still there. *)
Lemma SendCommandPacket_keeps_session_alive_witness :
  Arm.removed
    (Arm.elapse 6000000
       (ArmTx.SendCommandPacket ArmTx.tally [(("ident:foo", "level"), 0%nat)]
          (fun _ => 2%N) 4000000 true Arm.board)) = false.
Proof.
  apply (SendCommandPacket_keeps_session_alive ArmTx.tally [(("ident:foo", "level"), 0%nat)]
           (fun _ => 2%N) 4000000 Arm.board).
  - reflexivity.
  - reflexivity.
  - unfold Arm.seconds. lia.
Defined.

(** X16 (witness): one command for "ident:foo", printed in unary. *)
Lemma command_packet_reads_back_witness :
  Arm.lines_of
    (Arm.words (ArmTx.command_packet ArmTx.tally [(("ident:foo", "level"), 0%nat)]
                  (fun _ => 2%N)))
  = [("foo", "level", "111")].
Proof.
  apply (command_packet_reads_back ArmTx.tally [(("ident:foo", "level"), 0%nat)]
           (fun _ => 2%N) 0 true Arm.board).
  repeat constructor.
Defined.

(** X17 (witness): the device "foo" of the session "ident". *)
Lemma local_name_round_trip_witness : ArmTx.local_name ("ident" ++ ":" ++ "foo") = "foo".
Proof. apply (local_name_round_trip "ident" "foo"). reflexivity. Defined.

(** ** Clock synchronizer: rounds, replies and exceptions *)
Section ClockRunProperties.
Import Clock ClockRun.
Local Open Scope Q_scope.

Ltac clock_fields :=
  cbn [m_uuid m_kcounter m_offsets m_skews m_weights m_lastresponse m_queries
       m_responses m_myoffset m_myskew ClockSkew Clock.sent
       with_kcounter with_offsets with_skews with_weights with_lastresponse
       with_queries with_responses with_published Clock.with_sent fst snd] in *.

Lemma rotation_fold (self : string) (peers : list string) :
  forall (a b : list string),
    fold_left
      (fun '(tmplist, tmplist2, flop) peer =>
         if String.eqb peer self then (tmplist, tmplist2, true)
         else if negb flop then (tmplist, (tmplist2 ++ [peer])%list, flop)
         else ((tmplist ++ [peer])%list, tmplist2, flop))
      peers (a, b, true)
    = ((a ++ filter (fun p => p <> self) peers)%list, b, true).
Proof.
  induction peers as [| p rest IH]; intros a b; cbn [fold_left].
  - rewrite app_nil_r. reflexivity.
  - destruct (String.eqb_spec p self) as [E | E].
    + rewrite IH. rewrite filter_cons_False by (intros H; exact (H E)). reflexivity.
    + cbn [negb]. rewrite IH. rewrite filter_cons_True by exact E.
      rewrite <- app_assoc. reflexivity.
Qed.

Lemma rotation_fold_before (self : string) (before : list string) :
  forall (a b : list string),
    self ∉ before ->
    fold_left
      (fun '(tmplist, tmplist2, flop) peer =>
         if String.eqb peer self then (tmplist, tmplist2, true)
         else if negb flop then (tmplist, (tmplist2 ++ [peer])%list, flop)
         else ((tmplist ++ [peer])%list, tmplist2, flop))
      before (a, b, false)
    = (a, (b ++ before)%list, false).
Proof.
  induction before as [| p rest IH]; intros a b H; cbn [fold_left].
  - rewrite app_nil_r. reflexivity.
  - apply not_elem_of_cons in H as [Hp Hrest].
    destruct (String.eqb_spec p self) as [E | E]; [congruence |].
    cbn [negb]. rewrite (IH _ _ Hrest). rewrite <- app_assoc. reflexivity.
Qed.

(** X18.  The order in which [Exchange] challenges the peers is the
    circular shift of the peer list that starts right after this node: the
    peers after it, then the peers before it, never itself.  When the node
    is missing from the list the order is that of the list. *)
Theorem rotation_starts_after_self (self : string) (before after : list string) :
  self ∉ before ->
  rotation self (before ++ self :: after)
  = (filter (fun p => p <> self) after ++ before)%list
  /\ (self ∉ after -> rotation self (before ++ self :: after) = (after ++ before)%list)
  /\ rotation self before = before.
Proof.
  intros Hb.
  assert (H1 : rotation self (before ++ self :: after)
               = (filter (fun p => p <> self) after ++ before)%list).
  { unfold rotation. rewrite fold_left_app. rewrite (rotation_fold_before self before _ _ Hb).
    cbn [fold_left]. rewrite String.eqb_refl. rewrite rotation_fold. reflexivity. }
  split; [exact H1 |]. split.
  - intros Ha. rewrite H1. f_equal.
    clear H1. induction after as [| p rest IH]; [reflexivity |].
    apply not_elem_of_cons in Ha as [Hp Hrest].
    rewrite filter_cons_True by congruence. rewrite (IH Hrest). reflexivity.
  - unfold rotation. rewrite (rotation_fold_before self before _ _ Hb). reflexivity.
Qed.

Lemma same_but_skews_refl (s : CClockSynchronizer) : same_but_skews s s.
Proof. unfold same_but_skews. repeat split. Qed.

Lemma same_but_skews_trans (a b c : CClockSynchronizer) :
  same_but_skews a b -> same_but_skews b c -> same_but_skews a c.
Proof. unfold same_but_skews. intuition congruence. Qed.

Lemma skews_at_frame (i : MapIndex) (s : CClockSynchronizer) :
  same_but_skews s (skews_at i s).2.
Proof.
  unfold skews_at. destruct (m_skews s !! i); cbn [snd]; unfold same_but_skews; clock_fields;
    repeat split.
Qed.

Lemma aligned_same (s s' : CClockSynchronizer) :
  m_offsets s' = m_offsets s -> m_weights s' = m_weights s ->
  m_lastresponse s' = m_lastresponse s ->
  aligned s -> aligned s'.
Proof. unfold aligned. intros -> -> ->. auto. Qed.

Lemma GetWeight_same (s s' : CClockSynchronizer) (i : MapIndex) :
  same_but_skews s s' -> GetWeight s' i = GetWeight s i.
Proof.
  unfold same_but_skews, GetWeight. intros (-> & -> & _ & -> & -> & _). reflexivity.
Qed.

(** On a pair of the offset table [GetWeight] returns. *)
Lemma GetWeight_aligned (s : CClockSynchronizer) (i : MapIndex) :
  aligned s -> is_Some (m_offsets s !! i) -> exists w, GetWeight s i = Ok w.
Proof.
  intros Ha Hi. unfold GetWeight. destruct (bool_decide _); [eauto |].
  destruct (Ha i Hi) as [[[w t] Hw] [l Hl]]. rewrite Hw, Hl. eauto.
Qed.

(** Setting offset, weight and skew of one pair keeps the tables
    aligned. *)
Lemma aligned_set (now : Z) (i : MapIndex) (off : Z) (w sk : Q) (s : CClockSynchronizer) :
  aligned s ->
  aligned (with_skews (<[i := sk]> (m_skews (SetWeight now i w
                                              (with_offsets (<[i := off]> (m_offsets s)) s))))
             (SetWeight now i w (with_offsets (<[i := off]> (m_offsets s)) s))).
Proof.
  intros Ha j. unfold SetWeight. clock_fields.
  destruct (decide (i = j)) as [-> | Hne].
  - rewrite !lookup_insert_eq. eauto.
  - rewrite !lookup_insert_ne by exact Hne. apply Ha.
Qed.

Lemma with_responses_aligned (v : gmap MapIndex (list TimeTuple)) (s : CClockSynchronizer) :
  aligned s -> aligned (with_responses v s).
Proof. intros Ha. apply (aligned_same s); try reflexivity. exact Ha. Qed.

Lemma ctor_aligned (uuid : string) (now junk : Z) : aligned (ctor uuid now junk).
Proof.
  intros j. unfold ctor. clock_fields.
  destruct (decide ((uuid, uuid) = j)) as [<- | Hne].
  - rewrite !lookup_singleton_eq. eauto.
  - rewrite lookup_singleton_ne by exact Hne. intros [x Hx]. discriminate.
Qed.

Lemma self_sane_aligned (now : Z) (s : CClockSynchronizer) :
  aligned s -> aligned (self_sane now s).
Proof. intros Ha. unfold self_sane. cbv zeta. apply aligned_set. exact Ha. Qed.

Lemma weigh_loop_runs (entries : list (MapIndex * Z)) :
  forall tmp s,
    aligned s ->
    (forall i off, (i, off) ∈ entries -> is_Some (m_offsets s !! i)) ->
    exists s' tmp',
      weigh_loop entries tmp s = Done (s', tmp') /\ same_but_skews s s'.
Proof.
  induction entries as [| [i off] rest IH]; intros tmp s Ha Hin; cbn [weigh_loop].
  - eexists _, _. split; [reflexivity | apply same_but_skews_refl].
  - destruct (GetWeight_aligned s i Ha) as [w Hw].
    { apply (Hin i off). apply elem_of_cons. left. reflexivity. }
    rewrite Hw. destruct tmp as [[tmp1 tmp2] tmp3].
    pose proof (skews_at_frame i s) as Hf.
    destruct (skews_at i s) as [sk s1]. cbn [snd] in Hf.
    destruct (IH (tmp1 + w * TDToDouble off, tmp2 + w, tmp3 + w * sk) s1)
      as (s' & tmp' & E & Hs').
    + apply (aligned_same s s1); try apply Hf. exact Ha.
    + intros j o Hj. rewrite (proj1 (proj2 (proj2 Hf))). apply (Hin j o).
      apply elem_of_cons. right. exact Hj.
    + eexists _, _. split; [exact E |]. eapply same_but_skews_trans; eassumption.
Qed.

Lemma entries_loop_runs (entries : list (MapIndex * Z)) :
  forall acc s,
    aligned s ->
    (forall i off, (i, off) ∈ entries -> is_Some (m_offsets s !! i)) ->
    exists s' table,
      entries_loop entries acc s = Done (s', table) /\ same_but_skews s s'
      /\ map te_uuid table = (map te_uuid acc ++ map (fun e => e.1.2) entries)%list.
Proof.
  induction entries as [| [i off] rest IH]; intros acc s Ha Hin; cbn [entries_loop].
  - eexists _, _. split; [reflexivity |]. split; [apply same_but_skews_refl |].
    cbn. rewrite app_nil_r. reflexivity.
  - pose proof (skews_at_frame i s) as Hf.
    destruct (skews_at i s) as [sk s1]. cbn [snd] in Hf.
    assert (Ha1 : aligned s1) by (apply (aligned_same s s1); try apply Hf; exact Ha).
    destruct (GetWeight_aligned s1 i Ha1) as [w Hw].
    { rewrite (proj1 (proj2 (proj2 Hf))). apply (Hin i off). apply elem_of_cons. left.
      reflexivity. }
    rewrite Hw.
    match goal with
    | |- context [entries_loop rest ?acc' s1] =>
        destruct (IH acc' s1 Ha1) as (s' & table & E & Hs' & Ht)
    end.
    + intros j o Hj. rewrite (proj1 (proj2 (proj2 Hf))). apply (Hin j o).
      apply elem_of_cons. right. exact Hj.
    + eexists _, _. split; [exact E |]. split; [eapply same_but_skews_trans; eassumption |].
      rewrite Ht, map_app. cbn [map te_uuid fst snd]. rewrite <- app_assoc. reflexivity.
Qed.

Lemma table_init_runs (now : Z) (il : MapIndex) (s : CClockSynchronizer) :
  aligned s ->
  aligned (table_init now il s) /\ is_Some (m_offsets (table_init now il s) !! il)
  /\ m_queries (table_init now il s) = m_queries s
  /\ m_uuid (table_init now il s) = m_uuid s.
Proof.
  intros Ha. unfold table_init. destruct (m_offsets s !! il) as [o |] eqn:E.
  - rewrite E. split; [exact Ha |]. split; [eauto |]. split; reflexivity.
  - cbv zeta. split; [apply aligned_set; exact Ha |]. unfold SetWeight. clock_fields.
    rewrite lookup_insert_eq. repeat split; eauto.
Qed.

Lemma table_loop_runs (now : Z) (sender : string) (entries : list TableEntry) :
  forall s,
    aligned s ->
    exists s',
      table_loop now sender entries s = Done s' /\ aligned s'
      /\ m_queries s' = m_queries s /\ m_uuid s' = m_uuid s.
Proof.
  induction entries as [| te rest IH]; intros s Ha; cbn [table_loop].
  - exists s. split; [reflexivity |]. split; [exact Ha |]. split; reflexivity.
  - destruct (String.eqb (te_uuid te) sender || String.eqb (te_uuid te) (m_uuid s));
      [apply IH; exact Ha |].
    cbv zeta. set (il := (m_uuid s, te_uuid te)).
    destruct (table_init_runs now il s Ha) as (Ha1 & Hil & Hq1 & Hu1).
    destruct (GetWeight_aligned _ il Ha1 Hil) as [w Hw]. rewrite Hw.
    destruct (Qltb w (te_weight te - 0.1)).
    + match goal with
      | |- context [table_loop now sender rest ?x] =>
          destruct (IH x) as (s' & E & Ha' & Hq' & Hu')
      end.
      * unfold table_take. cbv zeta. apply aligned_set. exact Ha1.
      * exists s'. split; [exact E |]. split; [exact Ha' |].
        unfold table_take, SetWeight in Hq', Hu'. clock_fields.
        split; congruence.
    + destruct (IH _ Ha1) as (s' & E & Ha' & Hq' & Hu').
      exists s'. split; [exact E |]. split; [exact Ha' |]. split; congruence.
Qed.

Lemma HandleExchangeResponse_runs (s : CClockSynchronizer) (now : Z)
    (msg : ExchangeResponseMessage) (peer : string) :
  aligned s ->
  match HandleExchangeResponse s now msg peer with
  | Done s' => unsynchronized_sendtime msg <> None /\ aligned s'
  | Raised s' what =>
      s' = s /\ what = "time_from_string" /\ unsynchronized_sendtime msg = None
  | Undefined => False
  end.
Proof.
  intros Ha. unfold HandleExchangeResponse.
  destruct (unsynchronized_sendtime msg) as [response_time |]; [| repeat split].
  destruct (m_queries s !! (m_uuid s, peer)) as [[qk challenge] |];
    [| split; [discriminate | exact Ha]].
  destruct (negb (qk =? response msg)%Z); [split; [discriminate | exact Ha] |].
  cbv zeta. destruct (regression now _) as [off skew].
  match goal with
  | |- context [table_loop now peer (table_entry msg) ?x] =>
      destruct (table_loop_runs now peer (table_entry msg) x) as (s' & E & Ha' & _)
  end.
  - apply (aligned_set now (m_uuid s, peer) off 1 skew
             (with_responses _ (with_queries _ s))).
    apply (aligned_same s); try reflexivity. exact Ha.
  - rewrite E. split; [discriminate | exact Ha'].
Qed.

Lemma sends_fold (now : Z) (targets : list string) :
  forall s,
    let s1 :=
      fold_left
        (fun acc peer =>
           let acc := Clock.with_sent
                        (Clock.sent acc ++ [(peer, EXCHANGE_MESSAGE (m_kcounter acc))]) acc in
           with_queries (<[(m_uuid acc, peer) := (m_kcounter acc, now)]> (m_queries acc)) acc)
        targets s in
    m_uuid s1 = m_uuid s /\ m_kcounter s1 = m_kcounter s /\ m_offsets s1 = m_offsets s
    /\ m_weights s1 = m_weights s /\ m_lastresponse s1 = m_lastresponse s
    /\ m_responses s1 = m_responses s
    /\ Clock.sent s1 = (Clock.sent s ++ challenges (m_kcounter s) targets)%list
    /\ forall key,
        m_queries s1 !! key
        = challenged (m_uuid s) (m_kcounter s) now targets (m_queries s) key.
Proof.
  induction targets as [| p rest IH]; intros s; cbv zeta; cbn [fold_left].
  - unfold challenges, challenged. cbn [map]. rewrite app_nil_r. repeat split.
    intros key. rewrite bool_decide_eq_false_2; [reflexivity |].
    intros [_ H]. inversion H.
  - match goal with
    | |- context [fold_left _ rest ?x] => specialize (IH x); cbv zeta in IH
    end.
    destruct IH as (H1 & H2 & H3 & H4 & H5 & H6 & H7 & H8). clock_fields.
    repeat (split; [assumption |]). split.
    + rewrite H7. unfold challenges. cbn [map]. rewrite <- app_assoc. reflexivity.
    + intros key. rewrite H8. unfold challenged.
      destruct (decide (key.1 = m_uuid s /\ key.2 ∈ rest)) as [Hin | Hnin].
      * rewrite !bool_decide_eq_true_2; [reflexivity | | exact Hin].
        destruct Hin as [Hk Hin]. split; [exact Hk |]. apply elem_of_cons. right. exact Hin.
      * rewrite (bool_decide_eq_false_2 _ Hnin).
        destruct (decide (key = (m_uuid s, p))) as [-> | Hne].
        -- rewrite lookup_insert_eq. rewrite bool_decide_eq_true_2; [reflexivity |].
           split; [reflexivity |]. apply elem_of_cons. left. reflexivity.
        -- rewrite lookup_insert_ne by congruence.
           rewrite bool_decide_eq_false_2; [reflexivity |].
           intros [Hk Hin]. apply elem_of_cons in Hin as [Hp | Hin].
           ++ apply Hne. destruct key as [k1 k2]. cbn in *. congruence.
           ++ apply Hnin. split; assumption.
Qed.

Lemma Exchange_runs (s : CClockSynchronizer) (now : Z) (peers : list string) :
  aligned s ->
  exists s',
    Exchange s now false peers = Done s' /\ aligned s'
    /\ m_uuid s' = m_uuid s
    /\ m_kcounter s' = wrap32 (m_kcounter s + 1)
    /\ Clock.sent s'
       = (Clock.sent s ++ challenges (m_kcounter s) (rotation (m_uuid s) peers))%list
    /\ forall key,
        m_queries s' !! key
        = challenged (m_uuid s) (m_kcounter s) now (rotation (m_uuid s) peers)
            (m_queries s) key.
Proof.
  intros Ha. unfold Exchange. cbv zeta.
  pose proof (sends_fold now (rotation (m_uuid s) peers) s) as Hsend. cbv zeta in Hsend.
  set (s1 := fold_left _ (rotation (m_uuid s) peers) s) in *.
  destruct Hsend as (H1 & H2 & H3 & H4 & H5 & H6 & H7 & H8).
  set (s2 := self_sane now (with_kcounter (wrap32 (m_kcounter s1 + 1)) s1)).
  assert (Ha2 : aligned s2).
  { apply self_sane_aligned. apply (aligned_same s); assumption. }
  destruct (weigh_loop_runs (map_to_list (m_offsets s2)) (0, 0, 0) s2 Ha2)
    as (s3 & [[tmp1 tmp2] tmp3] & E & Hf).
  { intros i off Hin. apply elem_of_map_to_list in Hin. eauto. }
  rewrite E.
  eexists. split; [reflexivity |].
  destruct Hf as (F1 & F2 & F3 & F4 & F5 & F6 & F7 & F8 & F9 & F10 & F11).
  split.
  { apply self_sane_aligned.
    apply (aligned_same s2); [| | | exact Ha2];
      destruct (negb (Qeq_bool tmp2 0)); clock_fields; assumption. }
  unfold self_sane, SetWeight.
  destruct (negb (Qeq_bool tmp2 0)); clock_fields;
    rewrite ?F1, ?F2, ?F6, ?F11; unfold s2, self_sane, SetWeight; clock_fields;
    rewrite ?H1, ?H2, ?H7; repeat split; try reflexivity; exact H8.
Qed.

Lemma HandleExchange_runs (s : CClockSynchronizer) (now query : Z) (peer : string) :
  aligned s ->
  exists s' table,
    HandleExchange s now query peer
    = Done (Clock.with_sent
              (Clock.sent s' ++
                 [(peer, EXCHANGE_RESPONSE_MESSAGE
                           {| response := query; unsynchronized_sendtime := Some now;
                              table_entry := table |})]) s')
    /\ same_but_skews s s'
    /\ map te_uuid table = map (fun e => e.1.2) (map_to_list (m_offsets s)).
Proof.
  intros Ha. unfold HandleExchange.
  destruct (entries_loop_runs (map_to_list (m_offsets s)) [] s Ha) as (s' & table & E & Hf & Ht).
  { intros i off Hin. apply elem_of_map_to_list in Hin. eauto. }
  rewrite E. exists s', table. split; [reflexivity |]. split; [exact Hf | exact Ht].
Qed.

Lemma step_aligned (s : CClockSynchronizer) (e : event) :
  aligned s ->
  match step s e with
  | Done s' => ~ malformed e /\ aligned s'
  | Raised s' what => s' = s /\ what = "time_from_string" /\ malformed e
  | Undefined => False
  end.
Proof.
  intros Ha. destruct e as [now err peers | now [[query | m] |] peer]; cbn [step malformed].
  - destruct err.
    + unfold Exchange. split; [tauto | exact Ha].
    + destruct (Exchange_runs s now peers Ha) as (s' & E & Ha' & _). rewrite E.
      split; [tauto | exact Ha'].
  - unfold HandleIncomingMessage.
    destruct (HandleExchange_runs s now query peer Ha) as (s' & table & E & Hf & _).
    rewrite E. split; [tauto |].
    apply (aligned_same s); clock_fields; try apply Hf. exact Ha.
  - unfold HandleIncomingMessage.
    pose proof (HandleExchangeResponse_runs s now m peer Ha) as H.
    destruct (HandleExchangeResponse s now m peer); exact H.
  - cbn. split; [tauto | exact Ha].
Qed.

Lemma reachable_aligned (s : CClockSynchronizer) : reachable s -> aligned s.
Proof.
  induction 1 as [uuid now junk | s e s' _ IH Hstep | s e s' what _ IH Hstep].
  - apply ctor_aligned.
  - pose proof (step_aligned s e IH) as H. rewrite Hstep in H. apply H.
  - pose proof (step_aligned s e IH) as H. rewrite Hstep in H.
    destruct H as (-> & _). exact IH.
Qed.

(** X19.  [GetWeight] never misses on the offset table.  In every
    reachable state each pair that has an offset has a weight and the round
    of its last response too, so [GetWeight] returns for it: the loops of
    [Exchange] and [CreateExchangeResponse] over the offset table never make
    it throw "Can't find that index in the weights table" and never make it
    read a missing round of [m_lastresponse]; and no entry point is left by
    that exception. *)
Theorem GetWeight_never_misses (s : CClockSynchronizer) :
  reachable s ->
  (forall i, is_Some (m_offsets s !! i) ->
             is_Some (m_weights s !! i) /\ is_Some (m_lastresponse s !! i)
             /\ exists w, GetWeight s i = Ok w)
  /\ forall e s' what,
       step s e = Raised s' what -> what <> "Can't find that index in the weights table".
Proof.
  intros Hr. pose proof (reachable_aligned s Hr) as Ha. split.
  - intros i Hi. destruct (Ha i Hi) as [Hw Hl].
    split; [exact Hw |]. split; [exact Hl |]. apply GetWeight_aligned; assumption.
  - intros e s' what E. pose proof (step_aligned s e Ha) as H. rewrite E in H.
    destruct H as (_ & -> & _). discriminate.
Qed.

(** The weighting loop of [Exchange] changes the skew table at most. *)
Lemma weigh_loop_frame (entries : list (MapIndex * Z)) :
  forall tmp s s' tmp',
    weigh_loop entries tmp s = Done (s', tmp') -> same_but_skews s s'.
Proof.
  induction entries as [| [i off] rest IH]; intros tmp s s' tmp'; cbn [weigh_loop].
  - intros [= <- <-]. apply same_but_skews_refl.
  - destruct (GetWeight s i) as [w | what |]; [| discriminate | discriminate].
    destruct tmp as [[tmp1 tmp2] tmp3].
    pose proof (skews_at_frame i s) as Hf.
    destruct (skews_at i s) as [sk s1]. cbn [snd] in Hf.
    intros E. eapply same_but_skews_trans; [exact Hf |]. exact (IH _ _ _ _ E).
Qed.

(** X20.  The bookkeeping of a round.  Whenever [Exchange] returns from a
    round in which every send has returned, in whatever state it was
    called: one challenge carrying the
    round number is in the outbox for each peer of the rotation, in its
    order, after what was there; for each of these peers the outstanding
    query is the pair of that round number and the current time, and every
    other query is as before; the round counter is one more, modulo 2^32;
    the response histories are untouched.  When the timer reports an error
    the call returns at once and nothing changes. *)
Theorem Exchange_records_challenges (s : CClockSynchronizer) (now : Z) (peers : list string) :
  Exchange s now true peers = Done s
  /\ forall s',
      Exchange s now false peers = Done s' ->
      m_kcounter s' = wrap32 (m_kcounter s + 1)
      /\ Clock.sent s'
         = (Clock.sent s ++ challenges (m_kcounter s) (rotation (m_uuid s) peers))%list
      /\ (forall key,
            m_queries s' !! key
            = challenged (m_uuid s) (m_kcounter s) now (rotation (m_uuid s) peers)
                (m_queries s) key)
      /\ m_responses s' = m_responses s
      /\ m_uuid s' = m_uuid s.
Proof.
  split; [reflexivity |]. intros s'. unfold Exchange. cbv zeta.
  pose proof (sends_fold now (rotation (m_uuid s) peers) s) as Hsend. cbv zeta in Hsend.
  set (s1 := fold_left _ (rotation (m_uuid s) peers) s) in *.
  destruct Hsend as (H1 & H2 & H3 & H4 & H5 & H6 & H7 & H8).
  set (s2 := self_sane now (with_kcounter (wrap32 (m_kcounter s1 + 1)) s1)).
  destruct (weigh_loop (map_to_list (m_offsets s2)) (0, 0, 0) s2)
    as [[s3 [[tmp1 tmp2] tmp3]] | [s3 tmp] what |] eqn:E; [| discriminate | discriminate].
  pose proof (weigh_loop_frame _ _ _ _ _ E) as Hf.
  destruct Hf as (F1 & F2 & F3 & F4 & F5 & F6 & F7 & F8 & F9 & F10 & F11).
  intros [= <-]. unfold self_sane, SetWeight.
  destruct (negb (Qeq_bool tmp2 0)); clock_fields;
    rewrite ?F1, ?F2, ?F6, ?F7, ?F11; unfold s2, self_sane, SetWeight; clock_fields;
    rewrite ?H1, ?H2, ?H6, ?H7; repeat split; try reflexivity; exact H8.
Qed.

(** X21.  Answering a challenge in a reachable state returns, and sends
    to the challenger one response that echoes the number of the query,
    carries the receive time as send time, and has one table entry for each
    pair of the offset table, in the order of the table, named by the second
    node of the pair.  Nothing else changes but the skew table, in which
    missing entries are created. *)
Theorem HandleExchange_answers_the_query (s : CClockSynchronizer) (now query : Z)
    (peer : string) :
  reachable s ->
  exists s' table,
    HandleExchange s now query peer = Done s'
    /\ Clock.sent s'
       = (Clock.sent s ++
            [(peer, EXCHANGE_RESPONSE_MESSAGE
                      {| response := query; unsynchronized_sendtime := Some now;
                         table_entry := table |})])%list
    /\ map te_uuid table = map (fun e => e.1.2) (map_to_list (m_offsets s))
    /\ m_offsets s' = m_offsets s /\ m_weights s' = m_weights s
    /\ m_queries s' = m_queries s /\ m_responses s' = m_responses s
    /\ m_kcounter s' = m_kcounter s.
Proof.
  intros Hr.
  destruct (HandleExchange_runs s now query peer (reachable_aligned s Hr))
    as (s1 & table & E & Hf & Ht).
  eexists _, table. split; [exact E |].
  destruct Hf as (F1 & F2 & F3 & F4 & F5 & F6 & F7 & F8 & F9 & F10 & F11).
  clock_fields. rewrite F11. repeat split; assumption.
Qed.

Lemma table_loop_queries (now : Z) (sender : string) (entries : list TableEntry) :
  forall s,
    match table_loop now sender entries s with
    | Done s' | Raised s' _ => m_queries s' = m_queries s /\ m_uuid s' = m_uuid s
    | Undefined => True
    end.
Proof.
  induction entries as [| te rest IH]; intros s; cbn [table_loop]; [split; reflexivity |].
  destruct (String.eqb (te_uuid te) sender || String.eqb (te_uuid te) (m_uuid s));
    [apply IH |].
  cbv zeta. set (il := (m_uuid s, te_uuid te)).
  assert (H1 : m_queries (table_init now il s) = m_queries s
               /\ m_uuid (table_init now il s) = m_uuid s).
  { unfold table_init. destruct (m_offsets s !! il); split; reflexivity. }
  destruct (GetWeight (table_init now il s) il) as [w | what |]; [| exact H1 | exact I].
  destruct H1 as [H1 H1u].
  destruct (Qltb w (te_weight te - 0.1)).
  - match goal with |- match table_loop _ _ _ ?x with _ => _ end => specialize (IH x) end.
    destruct (table_loop now sender rest _); try exact I;
      (split; [rewrite (proj1 IH) | rewrite (proj2 IH)]); assumption.
  - specialize (IH (table_init now il s)).
    destruct (table_loop now sender rest _); try exact I;
      (split; [rewrite (proj1 IH) | rewrite (proj2 IH)]); assumption.
Qed.

(** X22.  A response is taken at most once.  When
    [HandleExchangeResponse] has returned, the query of the sender that the
    response answered is erased, and the same response delivered again, at
    whatever time, changes nothing. *)
Theorem duplicate_response_is_ignored (s s' : CClockSynchronizer) (now now' : Z)
    (msg : ExchangeResponseMessage) (peer : string) :
  HandleExchangeResponse s now msg peer = Done s' ->
  HandleExchangeResponse s' now' msg peer = Done s'
  /\ forall challenge, m_queries s' !! (m_uuid s', peer) <> Some (response msg, challenge).
Proof.
  intros H.
  assert (Hq : forall challenge,
             m_queries s' !! (m_uuid s', peer) <> Some (response msg, challenge)).
  { revert H. unfold HandleExchangeResponse.
    destruct (unsynchronized_sendtime msg) as [response_time |]; [| discriminate].
    destruct (m_queries s !! (m_uuid s, peer)) as [[qk c] |] eqn:Eq.
    - destruct (Z.eqb_spec qk (response msg)) as [Ek | Ek]; cbn [negb].
      + cbv zeta. destruct (regression now _) as [off skew].
        match goal with
        | |- table_loop _ _ _ ?x = _ -> _ =>
            pose proof (table_loop_queries now peer (table_entry msg) x) as Hf
        end.
        intros E. rewrite E in Hf. destruct Hf as [Hf Hu]. unfold SetWeight in Hf, Hu.
        clock_fields. intros challenge. rewrite Hf, Hu. rewrite lookup_delete_eq.
        discriminate.
      + intros [= <-] challenge. rewrite Eq. congruence.
    - intros [= <-] challenge. rewrite Eq. discriminate. }
  split; [| exact Hq].
  destruct (HandleExchangeResponse_dropped s' now' msg peer Hq) as [E | E]; [exact E |].
  exfalso. revert H E. unfold HandleExchangeResponse.
  destruct (unsynchronized_sendtime msg); [| discriminate].
  intros _. destruct (m_queries s' !! (m_uuid s', peer)) as [[qk c] |] eqn:Eq';
    [| discriminate].
  destruct (negb (qk =? response msg)%Z); [discriminate |].
  cbv zeta. destruct (regression now' _) as [off skew].
  match goal with
  | |- table_loop _ _ _ ?x = _ -> _ =>
      pose proof (table_loop_queries now' peer (table_entry msg) x) as Hf
  end.
  intros E. rewrite E in Hf. destruct Hf as [Hf _]. unfold SetWeight in Hf. clock_fields.
  apply (f_equal (fun m => m !! (m_uuid s', peer))) in Hf.
  rewrite lookup_delete_eq in Hf. congruence.
Qed.

End ClockRunProperties.

(** X18 (witness): node "B" in the peer list "A", "B", "C". *)
Lemma rotation_starts_after_self_witness :
  Clock.rotation "B" (["A"] ++ "B" :: ["C"]) = (["C"] ++ ["A"])%list.
Proof.
  assert (H1 : "B" ∉ ["A"]) by (intros H; apply list_elem_of_singleton in H; discriminate).
  assert (H2 : "B" ∉ ["C"]) by (intros H; apply list_elem_of_singleton in H; discriminate).
  exact (proj1 (proj2 (rotation_starts_after_self "B" ["A"] ["C"] H1)) H2).
Defined.

(** X19 (witness): node "A" after the response of "B" knows the pair
    with "C" from the table of the response; [GetWeight] returns for
    it. *)
Lemma GetWeight_never_misses_witness :
  is_Some (Clock.m_weights Clock.after_response0 !! ("A", "C"))
  /\ is_Some (Clock.m_lastresponse Clock.after_response0 !! ("A", "C"))
  /\ exists w, Clock.GetWeight Clock.after_response0 ("A", "C") = Clock.Ok w.
Proof.
  apply (proj1 (GetWeight_never_misses Clock.after_response0 after_response0_reachable)).
  vm_compute. eexists. reflexivity.
Defined.

(** X20 (witness): the first round of node "A" with the peers "A" and
    "B": one challenge of round 0 to "B", the query of "B" recorded with
    the time of the round, and the counter at 1. *)
Lemma Exchange_records_challenges_witness :
  Clock.m_kcounter Clock.after_round0 = 1%Z
  /\ Clock.sent Clock.after_round0 = [("B", Clock.EXCHANGE_MESSAGE 0)]
  /\ Clock.m_queries Clock.after_round0 !! ("A", "B") = Some (0, 10000000)%Z.
Proof.
  assert (E : Clock.Exchange Clock.fresh 10000000 false ["A"; "B"] = Done Clock.after_round0)
    by (vm_compute; reflexivity).
  destruct (proj2 (Exchange_records_challenges Clock.fresh 10000000 ["A"; "B"])
              Clock.after_round0 E) as (Hk & Hs & Hq & _).
  split; [rewrite Hk; vm_compute; reflexivity |].
  split; [rewrite Hs; vm_compute; reflexivity |].
  rewrite (Hq ("A", "B")). vm_compute. reflexivity.
Defined.

(** X21 (witness): node "A" after the response of "B", challenged by "B" with query 5. *)
Lemma HandleExchange_answers_the_query_witness :
  exists s' table,
    Clock.HandleExchange Clock.after_response0 10003000 5 "B" = Done s'
    /\ Clock.sent s'
       = (Clock.sent Clock.after_response0 ++
            [("B", Clock.EXCHANGE_RESPONSE_MESSAGE
                     {| Clock.response := 5; Clock.unsynchronized_sendtime := Some 10003000%Z;
                        Clock.table_entry := table |})])%list
    /\ map Clock.te_uuid table
       = map (fun e => e.1.2) (map_to_list (Clock.m_offsets Clock.after_response0))
    /\ Clock.m_offsets s' = Clock.m_offsets Clock.after_response0
    /\ Clock.m_weights s' = Clock.m_weights Clock.after_response0
    /\ Clock.m_queries s' = Clock.m_queries Clock.after_response0
    /\ Clock.m_responses s' = Clock.m_responses Clock.after_response0
    /\ Clock.m_kcounter s' = Clock.m_kcounter Clock.after_response0.
Proof.
  apply (HandleExchange_answers_the_query Clock.after_response0 10003000 5 "B").
  exact after_response0_reachable.
Defined.

(** X22 (witness): the response of "B" to the first round, delivered a second time. *)
Lemma duplicate_response_is_ignored_witness :
  Clock.HandleExchangeResponse Clock.after_response0 10009000
    {| Clock.response := 0; Clock.unsynchronized_sendtime := Some 10501000%Z;
       Clock.table_entry := [{| Clock.te_uuid := "C"; Clock.offset_secs := 1;
                                Clock.offset_fracs := 500; Clock.te_skew := 0;
                                Clock.te_weight := 1 |}] |} "B"
  = Done Clock.after_response0.
Proof.
  apply (duplicate_response_is_ignored Clock.after_round0 Clock.after_response0
           10002000 10009000 _ "B").
  vm_compute. reflexivity.
Defined.

(** C8 (witness): node "A" after its second round.  The response of "B"
    is appended to the two samples of the first response; on a history of
    400 samples it is appended and the two oldest samples are dropped. *)
Lemma responses_even_and_bounded_witness :
  (Clock.m_responses Clock.after_response1 !! ("A", "B")
   = Some [(10501000, 10000000); (10501000, 10002000);
           (20501000, 20000000); (20501000, 20002000)]%Z
   /\ Nat.Even 4 /\ (4 <= 400)%nat)
  /\ exists s',
       Clock.HandleExchangeResponse Clock.crowded 20002000 Clock.response1_message "B"
       = Done s'
       /\ Clock.m_responses s' !! ("A", "B")
          = Some (replicate 398 (5, 6)%Z
                  ++ [(20501000, 20000000); (20501000, 20002000)]%Z)%list.
Proof.
  assert (E1 : Clock.HandleExchangeResponse Clock.after_round1 20002000
                 Clock.response1_message "B" = Done Clock.after_response1)
    by (vm_compute; reflexivity).
  pose proof (proj2 (responses_even_and_bounded Clock.after_round1) 20002000%Z
                Clock.response1_message "B" Clock.after_response1 (or_introl E1)) as H1.
  assert (U : Clock.m_uuid Clock.after_response1 = "A") by (vm_compute; reflexivity).
  assert (L1 : Clock.m_responses Clock.after_response1 !! ("A", "B")
               = Some [(10501000, 10000000); (10501000, 10002000);
                       (20501000, 20000000); (20501000, 20002000)]%Z).
  { rewrite H1. vm_compute. reflexivity. }
  split.
  - split; [exact L1 |].
    rewrite <- U in L1.
    exact (proj2 (proj1 (responses_even_and_bounded Clock.after_round1)
                    after_round1_reachable)
             20002000%Z Clock.response1_message "B" Clock.after_response1 (or_introl E1)
             "B" _ L1).
  - assert (Ha : ClockRun.aligned Clock.crowded).
    { unfold Clock.crowded.
      exact (with_responses_aligned _ _ (reachable_aligned _ after_round1_reachable)). }
    pose proof (HandleExchangeResponse_runs Clock.crowded 20002000 Clock.response1_message
                  "B" Ha) as Hrun.
    destruct (Clock.HandleExchangeResponse Clock.crowded 20002000 Clock.response1_message "B")
      as [s' | s' what |] eqn:E2.
    + exists s'. split; [reflexivity |].
      rewrite (proj2 (responses_even_and_bounded Clock.crowded) 20002000%Z
                 Clock.response1_message "B" s' (or_introl E2)).
      vm_compute. reflexivity.
    + destruct Hrun as (_ & _ & Hn). discriminate.
    + destruct Hrun.
Defined.
